(** * AIF tools: a shallow embedding of the AIF codec and its verification

    The development follows the C sources of [aif-tools]:
    - fixed-width machine integers are integers of [Z] with the wrap-around of
      every cast and of every [size_t] operation written out
      ([size_t] is 64 bits wide, [int] is 32 bits wide);
    - a C buffer is a [list Z] of bytes; reading and writing through an index
      is checked, and an access outside the buffer is the result [None]
      (undefined behaviour in C);
    - a pointer into a buffer, [buf + off], is the buffer seen from [off] on;
    - the cursors that the C code updates by reference ([*out_pos], [*cp],
      [*op]) are passed in and returned;
    - a [while] or [for] loop is a recursive function over a number of
      iterations it may still take; the loop test is evaluated as in the
      source, and running out of iterations is [None] as well. *)

From stdpp Require Import base numbers option list strings.
From Stdlib Require Import ZArith Lia.

Local Open Scope Z_scope.

(** ** Machine integers *)

Definition u8 (x : Z) : Z := x mod 256.
Definition u16 (x : Z) : Z := x mod 65536.
Definition u32 (x : Z) : Z := x mod 4294967296.
Definition usize (x : Z) : Z := x mod 18446744073709551616.

(** [(int)x] and [(int16_t)x]: two's complement, 32 and 16 bits. *)
Definition int32 (x : Z) : Z := (x + 2147483648) mod 4294967296 - 2147483648.
Definition int16 (x : Z) : Z := (x + 32768) mod 65536 - 32768.

Definition is_byte (b : Z) : Prop := 0 <= b < 256.
Definition bytes (l : list Z) : Prop := Forall is_byte l.

Definition len (l : list Z) : Z := Z.of_nat (length l).

(** ** Buffers *)

Definition load (buf : list Z) (i : Z) : option Z :=
  if bool_decide (0 <= i) then buf !! Z.to_nat i else None.

Definition store (buf : list Z) (i v : Z) : option (list Z) :=
  if bool_decide (0 <= i < len buf) then Some (<[Z.to_nat i := v]> buf)
  else None.

(** [malloc n]: a fresh buffer of [n] bytes.  Its contents are indeterminate
    in C; no function below reads a byte of it before writing it. *)
Definition malloc (n : Z) : list Z := replicate (Z.to_nat n) 0.

(** ** aif.h *)

Definition AIF_MAGIC_SIZE : Z := 4.
Definition AIF_CHECKSUM_OFFSET : Z := AIF_MAGIC_SIZE.
Definition AIF_CHECKSUM_SIZE : Z := 2.
Definition AIF_PXL_FMT_OFFSET : Z := AIF_CHECKSUM_OFFSET + AIF_CHECKSUM_SIZE.
Definition AIF_PXL_FMT_SIZE : Z := 1.
Definition AIF_COMPRESSION_OFFSET : Z := AIF_PXL_FMT_OFFSET + AIF_PXL_FMT_SIZE.
Definition AIF_COMPRESSION_SIZE : Z := 1.
Definition AIF_WIDTH_OFFSET : Z := AIF_COMPRESSION_OFFSET + AIF_COMPRESSION_SIZE.
Definition AIF_WIDTH_SIZE : Z := 4.
Definition AIF_HEIGHT_OFFSET : Z := AIF_WIDTH_OFFSET + AIF_WIDTH_SIZE.
Definition AIF_HEIGHT_SIZE : Z := 4.
Definition AIF_PXL_OFFSET_OFFSET : Z := AIF_HEIGHT_OFFSET + AIF_HEIGHT_SIZE.
Definition AIF_PXL_OFFSET_SIZE : Z := 4.
Definition AIF_HEADER_SIZE : Z := AIF_PXL_OFFSET_OFFSET + AIF_PXL_OFFSET_SIZE.

Definition AIF_FMT_RGB8 : Z := 1.
Definition AIF_FMT_GRAY8 : Z := 2.
Definition AIF_COMPRESSION_NONE : Z := 0.
Definition AIF_COMPRESSION_RLE : Z := 1.

(** ** Row codec: encoder *)

(** [pixels_equal a b bpp], with [a = buf + a_off] and [b = buf + b_off]. *)
Fixpoint pixels_equal_loop (fuel : nat) (buf : list Z) (a_off b_off bpp k : Z)
  : option bool :=
  match fuel with
  | O => None
  | S fuel' =>
      if k <? bpp then
        x ← load buf (a_off + k);
        y ← load buf (b_off + k);
        if negb (x =? y) then Some false
        else pixels_equal_loop fuel' buf a_off b_off bpp (usize (k + 1))
      else Some true
  end.

Definition pixels_equal (buf : list Z) (a_off b_off bpp : Z) : option bool :=
  pixels_equal_loop (S (Z.to_nat bpp)) buf a_off b_off bpp 0.

Fixpoint measure_run_loop (fuel : nat) (row : list Z) (width bpp start run : Z)
  : option Z :=
  match fuel with
  | O => None
  | S fuel' =>
      if u32 (usize (start + run)) <? width then
        let p1 := usize (start * bpp) in
        let p2 := usize (usize (start + run) * bpp) in
        eq ← pixels_equal row p1 p2 bpp;
        if negb eq then Some run
        else measure_run_loop fuel' row width bpp start (usize (run + 1))
      else Some run
  end.

Definition measure_run (row : list Z) (width bpp start : Z) : option Z :=
  measure_run_loop (S (Z.to_nat width)) row width bpp start 1.

(** The loop [for (k = 0; k < bpp; k++) { out[*out_pos] = src[k]; *out_pos =
    *out_pos + 1; }] with [src = buf + off]; it occurs in
    [write_repeat_blocks] and in [write_literal_blocks]. *)
Fixpoint copy_pixel_loop (fuel : nat) (buf : list Z) (off bpp k : Z)
    (out : list Z) (out_pos : Z) : option (list Z * Z) :=
  match fuel with
  | O => None
  | S fuel' =>
      if k <? bpp then
        b ← load buf (off + k);
        out ← store out out_pos b;
        copy_pixel_loop fuel' buf off bpp (usize (k + 1)) out
          (usize (out_pos + 1))
      else Some (out, out_pos)
  end.

Definition copy_pixel (buf : list Z) (off bpp : Z) (out : list Z) (out_pos : Z)
  : option (list Z * Z) :=
  copy_pixel_loop (S (Z.to_nat bpp)) buf off bpp 0 out out_pos.

(** [write_repeat_blocks pixel run bpp out out_pos] with [pixel = row + off]. *)
Fixpoint write_repeat_blocks_loop (fuel : nat) (row : list Z) (off bpp : Z)
    (remaining : Z) (out : list Z) (out_pos : Z) : option (list Z * Z) :=
  match fuel with
  | O => None
  | S fuel' =>
      if remaining >? 0 then
        let chunk := if remaining >? 255 then 255 else u8 remaining in
        out ← store out out_pos chunk;
        let out_pos := usize (out_pos + 1) in
        '(out, out_pos) ← copy_pixel row off bpp out out_pos;
        write_repeat_blocks_loop fuel' row off bpp (usize (remaining - chunk))
          out out_pos
      else Some (out, out_pos)
  end.

Definition write_repeat_blocks (row : list Z) (off run bpp : Z)
    (out : list Z) (out_pos : Z) : option (list Z * Z) :=
  write_repeat_blocks_loop (S (Z.to_nat run)) row off bpp run out out_pos.

(** The loop [for (uint8_t p = 0; p < chunk; p++)] of
    [write_literal_blocks]. *)
Fixpoint write_literal_pixels (fuel : nat) (row : list Z) (base bpp chunk p : Z)
    (out : list Z) (out_pos : Z) : option (list Z * Z) :=
  match fuel with
  | O => None
  | S fuel' =>
      if p <? chunk then
        '(out, out_pos) ← copy_pixel row (usize (base + usize (p * bpp))) bpp
                            out out_pos;
        write_literal_pixels fuel' row base bpp chunk (u8 (p + 1)) out out_pos
      else Some (out, out_pos)
  end.

Fixpoint write_literal_blocks_loop (fuel : nat) (row : list Z)
    (start literal_pixels bpp emitted : Z) (out : list Z) (out_pos : Z)
  : option (list Z * Z) :=
  match fuel with
  | O => None
  | S fuel' =>
      if emitted <? literal_pixels then
        let chunk :=
          if usize (literal_pixels - emitted) >? 255 then 255
          else u8 (usize (literal_pixels - emitted)) in
        out ← store out out_pos 0;
        let out_pos := usize (out_pos + 1) in
        out ← store out out_pos chunk;
        let out_pos := usize (out_pos + 1) in
        let base := usize (usize (start + emitted) * bpp) in
        '(out, out_pos) ← write_literal_pixels (S (Z.to_nat chunk)) row base
                            bpp chunk 0 out out_pos;
        write_literal_blocks_loop fuel' row start literal_pixels bpp
          (usize (emitted + chunk)) out out_pos
      else Some (out, out_pos)
  end.

Definition write_literal_blocks (row : list Z) (start literal_pixels bpp : Z)
    (out : list Z) (out_pos : Z) : option (list Z * Z) :=
  write_literal_blocks_loop (S (Z.to_nat literal_pixels)) row start
    literal_pixels bpp 0 out out_pos.

(** The inner loop of [compress_row] that gathers literal pixels: it returns
    the column at which the next run of two or more pixels starts, or
    [width]. *)
Fixpoint gather_literals (fuel : nat) (row : list Z) (width bpp col : Z)
  : option Z :=
  match fuel with
  | O => None
  | S fuel' =>
      if col <? width then
        next_run ← measure_run row width bpp col;
        if next_run >=? 2 then Some col
        else gather_literals fuel' row width bpp (u32 (col + 1))
      else Some col
  end.

Fixpoint compress_row_loop (fuel : nat) (row : list Z) (width bpp col : Z)
    (out : list Z) (out_pos : Z) : option (list Z * Z) :=
  match fuel with
  | O => None
  | S fuel' =>
      if col <? width then
        run ← measure_run row width bpp col;
        if run >=? 2 then
          let pixel := usize (col * bpp) in
          '(out, out_pos) ← write_repeat_blocks row pixel run bpp out out_pos;
          compress_row_loop fuel' row width bpp (u32 (col + run)) out out_pos
        else
          let lit_start := col in
          let col := u32 (col + 1) in
          col ← gather_literals (S (Z.to_nat width)) row width bpp col;
          let literal_pixels := usize (col - lit_start) in
          '(out, out_pos) ← write_literal_blocks row lit_start literal_pixels
                              bpp out out_pos;
          compress_row_loop fuel' row width bpp col out out_pos
      else Some (out, out_pos)
  end.

(** [compress_row row width bpp out]: the buffer [out] after the call and the
    number of bytes written to it. *)
Definition compress_row (row : list Z) (width bpp : Z) (out : list Z)
  : option (list Z * Z) :=
  compress_row_loop (S (Z.to_nat width)) row width bpp 0 out 0.

(** ** Row codec: decoder *)

(** The state the decoder helpers share: the output row and the two
    cursors. *)
Record dstate : Type := DState { d_out : list Z; d_cp : Z; d_op : Z }.

(** [for (k = 0; k < bpp; k++) { pixel_buffer[k] = comp[*cp]; *cp = *cp + 1; }] *)
Fixpoint read_pixel_loop (fuel : nat) (comp : list Z) (bpp k : Z)
    (pixel_buffer : list Z) (cp : Z) : option (list Z * Z) :=
  match fuel with
  | O => None
  | S fuel' =>
      if k <? bpp then
        b ← load comp cp;
        pixel_buffer ← store pixel_buffer k b;
        read_pixel_loop fuel' comp bpp (usize (k + 1)) pixel_buffer
          (usize (cp + 1))
      else Some (pixel_buffer, cp)
  end.

(** [for (k = 0; k < bpp; k++) { out_row[*op] = pixel_buffer[k]; *op = *op + 1; }] *)
Fixpoint emit_pixel_loop (fuel : nat) (pixel_buffer : list Z) (bpp k : Z)
    (out_row : list Z) (op : Z) : option (list Z * Z) :=
  match fuel with
  | O => None
  | S fuel' =>
      if k <? bpp then
        b ← load pixel_buffer k;
        out_row ← store out_row op b;
        emit_pixel_loop fuel' pixel_buffer bpp (usize (k + 1)) out_row
          (usize (op + 1))
      else Some (out_row, op)
  end.

(** [for (uint8_t r = 0; r < repeat_count; r++)] of
    [decompress_repeat_block]. *)
Fixpoint emit_repeat_loop (fuel : nat) (pixel_buffer : list Z)
    (bpp repeat_count r : Z) (out_row : list Z) (op : Z)
  : option (list Z * Z) :=
  match fuel with
  | O => None
  | S fuel' =>
      if r <? repeat_count then
        '(out_row, op) ← emit_pixel_loop (S (Z.to_nat bpp)) pixel_buffer bpp 0
                           out_row op;
        emit_repeat_loop fuel' pixel_buffer bpp repeat_count (u8 (r + 1))
          out_row op
      else Some (out_row, op)
  end.

(** The result is the returned [int] ([TRUE] is [true]) and the state left
    behind through [out_row], [*cp] and [*op]. *)
Definition decompress_repeat_block (comp : list Z) (row_len : Z)
    (row_bytes bpp : Z) (s : dstate) (repeat_count : Z)
  : option (bool * dstate) :=
  if usize (d_cp s + bpp) >? row_len then Some (false, s)
  else
    '(pixel_buffer, cp) ← read_pixel_loop (S (Z.to_nat bpp)) comp bpp 0
                            (malloc 3) (d_cp s);
    let required := usize (repeat_count * bpp) in
    if usize (d_op s + required) >? row_bytes then
      Some (false, DState (d_out s) cp (d_op s))
    else
      '(out_row, op) ← emit_repeat_loop (S (Z.to_nat repeat_count))
                         pixel_buffer bpp repeat_count 0 (d_out s) (d_op s);
      Some (true, DState out_row cp op).

(** [for (k = 0; k < bpp; k++) { out_row[*op] = comp[*cp]; *op = *op + 1;
    *cp = *cp + 1; }] *)
Fixpoint copy_literal_pixel (fuel : nat) (comp : list Z) (bpp k : Z)
    (s : dstate) : option dstate :=
  match fuel with
  | O => None
  | S fuel' =>
      if k <? bpp then
        b ← load comp (d_cp s);
        out_row ← store (d_out s) (d_op s) b;
        copy_literal_pixel fuel' comp bpp (usize (k + 1))
          (DState out_row (usize (d_cp s + 1)) (usize (d_op s + 1)))
      else Some s
  end.

(** [for (uint8_t p = 0; p < literal_count; p++)] of
    [decompress_literal_block]. *)
Fixpoint copy_literal_loop (fuel : nat) (comp : list Z)
    (bpp literal_count p : Z) (s : dstate) : option dstate :=
  match fuel with
  | O => None
  | S fuel' =>
      if p <? literal_count then
        s ← copy_literal_pixel (S (Z.to_nat bpp)) comp bpp 0 s;
        copy_literal_loop fuel' comp bpp literal_count (u8 (p + 1)) s
      else Some s
  end.

Definition decompress_literal_block (comp : list Z) (row_len : Z)
    (row_bytes bpp : Z) (s : dstate) : option (bool * dstate) :=
  if d_cp s >=? row_len then Some (false, s)
  else
    literal_count ← load comp (d_cp s);
    let s := DState (d_out s) (usize (d_cp s + 1)) (d_op s) in
    if literal_count =? 0 then Some (false, s)
    else
      let needed := usize (literal_count * bpp) in
      if usize (d_cp s + needed) >? row_len then Some (false, s)
      else if usize (d_op s + needed) >? row_bytes then Some (false, s)
      else
        s ← copy_literal_loop (S (Z.to_nat literal_count)) comp bpp
              literal_count 0 s;
        Some (true, s).

(** The [while] loop of [decompress_row]: [false] is the [return FALSE] taken
    from inside the loop, [true] is the loop running to its end. *)
Fixpoint decompress_row_loop (fuel : nat) (comp : list Z) (row_len : Z)
    (row_bytes bpp : Z) (s : dstate) : option (bool * dstate) :=
  match fuel with
  | O => None
  | S fuel' =>
      if (d_op s <? row_bytes) && (d_cp s <? row_len) then
        tag ← load comp (d_cp s);
        let s := DState (d_out s) (usize (d_cp s + 1)) (d_op s) in
        '(ok, s) ←
          (if negb (tag =? 0) then
             decompress_repeat_block comp row_len row_bytes bpp s tag
           else decompress_literal_block comp row_len row_bytes bpp s);
        if negb ok then Some (false, s)
        else decompress_row_loop fuel' comp row_len row_bytes bpp s
      else Some (true, s)
  end.

(** [decompress_row comp row_len out_row row_bytes bpp]: the returned [int]
    and the output row after the call.  [row_len] is a [uint16_t]
    parameter: an argument is converted to 16 bits by the call. *)
Definition decompress_row (comp : list Z) (row_len : Z) (out_row : list Z)
    (row_bytes bpp : Z) : option (bool * list Z) :=
  let row_len := u16 row_len in
  '(ok, s) ← decompress_row_loop (S (Z.to_nat row_len)) comp row_len row_bytes
               bpp (DState out_row 0 0);
  if negb ok then Some (false, d_out s)
  else if negb (d_op s =? row_bytes) then Some (false, d_out s)
  else Some (true, d_out s).

(** ** Header model *)

Definition read_le_u16 (buf : list Z) (off : Z) : option Z :=
  b0 ← load buf off;
  b1 ← load buf (off + 1);
  Some (u16 (Z.lor b0 (Z.shiftl b1 8))).

Definition read_le_u32 (buf : list Z) (off : Z) : option Z :=
  b0 ← load buf off;
  b1 ← load buf (off + 1);
  b2 ← load buf (off + 2);
  b3 ← load buf (off + 3);
  Some (Z.lor (Z.lor (Z.lor b0 (u32 (Z.shiftl b1 8))) (u32 (Z.shiftl b2 16)))
          (u32 (Z.shiftl b3 24))).

(** The conjunction is evaluated left to right and stops at the first
    mismatch, as [&&] does. *)
Definition aif_magic_valid (h : list Z) : option bool :=
  h0 ← load h 0;
  if negb (h0 =? 65) then Some false
  else
    h1 ← load h 1;
    if negb (h1 =? 73) then Some false
    else
      h2 ← load h 2;
      if negb (h2 =? 70) then Some false
      else
        h3 ← load h 3;
        Some (h3 =? 0).

Definition aif_format_valid (format : Z) : bool :=
  (format =? AIF_FMT_RGB8) || (format =? AIF_FMT_GRAY8).

Definition aif_dim_valid (n : Z) : bool := n >? 0.

(** ** Outcomes of an operation *)

Inductive message : Type :=
  | FailedToOpen
  | UnexpectedEOF
  | NotValidAIF
  | InvalidCompressedData.

(** [Done a]: the code runs to its end; [Exit m]: it prints [m] and calls
    [exit]; [Undefined]: an access outside a buffer. *)
Inductive outcome (A : Type) : Type :=
  | Done (a : A)
  | Exit (m : message)
  | Undefined.
Arguments Done {A} a.
Arguments Exit {A} m.
Arguments Undefined {A}.

#[global] Instance outcome_ret : MRet outcome := fun A a => Done a.
#[global] Instance outcome_bind : MBind outcome := fun A B f m =>
  match m with
  | Done a => f a
  | Exit msg => Exit msg
  | Undefined => Undefined
  end.

Definition defined {A} (o : option A) : outcome A :=
  match o with
  | Some a => Done a
  | None => Undefined
  end.

(** ** Checksum *)

(** The file behind [f] is the list of its bytes; [fgetc] at position [pos]
    is [load f pos], and [EOF] is [None].  [AIF_CHECKSUM_OFFSET] is a
    [size_t] (it is a [sizeof]), so [pos] is compared as a [size_t]. *)
Fixpoint compute_checksum_loop (fuel : nat) (f : list Z) (file_size : Z)
    (pos sum1 sum2 : Z) : outcome (Z * Z) :=
  match fuel with
  | O => Undefined
  | S fuel' =>
      if pos <? file_size then
        match load f pos with
        | None => Exit UnexpectedEOF
        | Some byte =>
            let byte :=
              if (usize pos =? AIF_CHECKSUM_OFFSET)
                 || (usize pos =? usize (AIF_CHECKSUM_OFFSET + 1))
              then 0 else byte in
            let sum1 := Z.rem (sum1 + byte) 256 in
            let sum2 := Z.rem (sum2 + sum1) 256 in
            compute_checksum_loop fuel' f file_size (int32 (pos + 1)) sum1 sum2
        end
      else Done (sum1, sum2)
  end.

Definition compute_checksum (f : list Z) (file_size : Z) : outcome Z :=
  '(sum1, sum2) ← compute_checksum_loop (S (Z.to_nat file_size)) f file_size
                    0 0 0;
  Done (u16 (Z.lor (Z.shiftl sum2 8) sum1)).

(** ** Image codec *)

(** A stream opened for reading: the bytes of the file and the position. *)
Record FILE : Type := mkFILE { f_bytes : list Z; f_pos : Z }.

(** [fread(buf, 1, n, fp)]: the bytes read (fewer than [n] at the end of the
    file) and the stream after the call. *)
Definition fread (n : Z) (fp : FILE) : list Z * FILE :=
  let got := take (Z.to_nat n) (drop (Z.to_nat (f_pos fp)) (f_bytes fp)) in
  (got, mkFILE (f_bytes fp) (f_pos fp + len got)).

(** [fwrite(buf, 1, n, out)] on a stream opened for writing, given as the
    bytes written so far.  The write itself is taken to succeed. *)
Definition fwrite (buf : list Z) (n : Z) (out : list Z) : option (list Z) :=
  if bool_decide (0 <= n <= len buf) then Some (out ++ take (Z.to_nat n) buf)
  else None.

Fixpoint aif_write_compressed_rows_loop (fuel : nat) (pixels : list Z)
    (width height bpp row_bytes : Z) (buffer : list Z) (r : Z)
    (out : list Z) (total : Z) : option (list Z * Z) :=
  match fuel with
  | O => None
  | S fuel' =>
      if r <? height then
        let row := drop (Z.to_nat (usize (r * row_bytes))) pixels in
        '(buffer, comp_len) ← compress_row row width bpp buffer;
        let len_bytes :=
          [u8 (Z.land comp_len 255); u8 (Z.land (Z.shiftr comp_len 8) 255)] in
        out ← fwrite len_bytes 2 out;
        out ← fwrite buffer comp_len out;
        aif_write_compressed_rows_loop fuel' pixels width height bpp row_bytes
          buffer (u32 (r + 1)) out (usize (total + usize (2 + comp_len)))
      else Some (out, total)
  end.

(** [aif_write_compressed_rows out pixels width height bpp]: the output
    stream after the call and the returned total. *)
Definition aif_write_compressed_rows (out : list Z) (pixels : list Z)
    (width height bpp : Z) : option (list Z * Z) :=
  let row_bytes := usize (width * bpp) in
  let max_row := usize (width * usize (bpp + 2)) in
  let buffer := malloc max_row in
  aif_write_compressed_rows_loop (S (Z.to_nat height)) pixels width height bpp
    row_bytes buffer 0 out 0.

Fixpoint aif_decompress_image_loop (fuel : nat) (fp : FILE)
    (height bpp row_bytes : Z) (full_pixels : list Z) (row : Z)
  : outcome (list Z * FILE) :=
  match fuel with
  | O => Undefined
  | S fuel' =>
      if row <? height then
        let '(len_buf, fp) := fread 2 fp in
        if len len_buf <? 2 then Exit UnexpectedEOF
        else
          row_len ← defined (read_le_u16 len_buf 0);
          let '(comp, fp) := fread row_len fp in
          if len comp <? row_len then Exit UnexpectedEOF
          else
            let off := Z.to_nat (usize (row * row_bytes)) in
            '(ok, out_row) ← defined (decompress_row comp row_len
                                        (drop off full_pixels) row_bytes bpp);
            if negb ok then Exit InvalidCompressedData
            else
              aif_decompress_image_loop fuel' fp height bpp row_bytes
                (take off full_pixels ++ out_row) (u32 (row + 1))
      else Done (full_pixels, fp)
  end.

Definition aif_decompress_image (fp : FILE) (width height bpp : Z)
  : outcome (list Z * FILE) :=
  let row_bytes := usize (width * bpp) in
  let total_bytes := usize (row_bytes * height) in
  let full_pixels := malloc total_bytes in
  aif_decompress_image_loop (S (Z.to_nat height)) fp height bpp row_bytes
    full_pixels 0.

(** ** Operations *)

(** [in_file] is the content of the file named on the command line, [None]
    when it cannot be opened. *)
Definition aif_open_and_read_header (in_file : option (list Z))
  : outcome (FILE * list Z * Z) :=
  match in_file with
  | None => Exit FailedToOpen
  | Some content =>
      let file := mkFILE content 0 in
      let file_size := int32 (len content) in
      let '(header, file) := fread AIF_HEADER_SIZE file in
      if len header <? AIF_HEADER_SIZE then Exit UnexpectedEOF
      else Done (file, header, file_size)
  end.

(** The block "Load pixels, expanding compressed input if needed" of
    [stage2_brighten], [stage3_convert_color] and [stage5_compress]. *)
Definition load_pixels (fp : FILE) (compression width height bpp : Z)
    (pixel_bytes : Z) : outcome (list Z) :=
  if compression =? AIF_COMPRESSION_NONE then
    let '(pixel_data, _) := fread pixel_bytes fp in
    if len pixel_data <? pixel_bytes then Exit UnexpectedEOF
    else Done pixel_data
  else
    '(pixel_data, _) ← aif_decompress_image fp width height bpp;
    Done pixel_data.

(** The end of every operation, from "Reopen for updating": the checksum of
    the file written so far is computed and stored in the header, and the
    header is written again at the start of the file.  The result is the
    output file. *)
Definition patch_checksum (header out_file : list Z) (data_bytes : Z)
  : outcome (list Z) :=
  let out_file_size := int32 (usize (AIF_HEADER_SIZE + usize (int32 data_bytes))) in
  checksum ← compute_checksum out_file out_file_size;
  header ← defined (store header AIF_CHECKSUM_OFFSET (u8 (Z.land checksum 255)));
  header ← defined (store header (AIF_CHECKSUM_OFFSET + 1)
                      (u8 (Z.land (Z.shiftr checksum 8) 255)));
  Done (header ++ drop (Z.to_nat AIF_HEADER_SIZE) out_file).

Definition stage4_decompress (in_file : option (list Z)) : outcome (list Z) :=
  '(fp, header, file_size) ← aif_open_and_read_header in_file;
  pixel_format ← defined (load header AIF_PXL_FMT_OFFSET);
  width ← defined (read_le_u32 header AIF_WIDTH_OFFSET);
  height ← defined (read_le_u32 header AIF_HEIGHT_OFFSET);
  magic_ok ← defined (aif_magic_valid header);
  if negb magic_ok then Exit NotValidAIF
  else if negb (aif_format_valid pixel_format) then Exit NotValidAIF
  else if negb (aif_dim_valid width) || negb (aif_dim_valid height)
  then Exit NotValidAIF
  else
    let bpp := if pixel_format =? AIF_FMT_RGB8 then 3 else 1 in
    '(full_pixels, _) ← aif_decompress_image fp width height bpp;
    let total_bytes := usize (usize (width * bpp) * height) in
    header ← defined (store header AIF_COMPRESSION_OFFSET AIF_COMPRESSION_NONE);
    out ← defined (fwrite header AIF_HEADER_SIZE []);
    out ← defined (fwrite full_pixels total_bytes out);
    patch_checksum header out total_bytes.

Definition stage5_compress (in_file : option (list Z)) : outcome (list Z) :=
  '(fp, header, file_size) ← aif_open_and_read_header in_file;
  pixel_format ← defined (load header AIF_PXL_FMT_OFFSET);
  compression ← defined (load header AIF_COMPRESSION_OFFSET);
  width ← defined (read_le_u32 header AIF_WIDTH_OFFSET);
  height ← defined (read_le_u32 header AIF_HEIGHT_OFFSET);
  magic_ok ← defined (aif_magic_valid header);
  if negb magic_ok then Exit NotValidAIF
  else if negb (aif_format_valid pixel_format) then Exit NotValidAIF
  else if negb (aif_dim_valid width) || negb (aif_dim_valid height)
  then Exit NotValidAIF
  else if negb (compression =? AIF_COMPRESSION_NONE)
          && negb (compression =? AIF_COMPRESSION_RLE)
  then Exit NotValidAIF
  else
    let bpp := if pixel_format =? AIF_FMT_RGB8 then 3 else 1 in
    let pixel_bytes := usize (usize (bpp * width) * height) in
    pixel_data ← load_pixels fp compression width height bpp pixel_bytes;
    header ← defined (store header AIF_COMPRESSION_OFFSET AIF_COMPRESSION_RLE);
    out ← defined (fwrite header AIF_HEADER_SIZE []);
    '(out, data_bytes) ← defined (aif_write_compressed_rows out pixel_data
                                    width height bpp);
    patch_checksum header out data_bytes.

(** The loop of [stage2_brighten] over the bytes of a GRAY8 image.  [amount]
    is between -100 and 100 (the command line is checked for it). *)
Fixpoint brighten_gray_loop (fuel : nat) (amount : Z) (pixel_data : list Z)
    (pixel_bytes i : Z) : option (list Z) :=
  match fuel with
  | O => None
  | S fuel' =>
      if i <? pixel_bytes then
        b ← load pixel_data i;
        let val := int16 b in
        let val := int16 (val + Z.quot (val * amount) 100) in
        let val := if val >? 255 then 255 else val in
        let val := if val <? 0 then 0 else val in
        pixel_data ← store pixel_data i (u8 val);
        brighten_gray_loop fuel' amount pixel_data pixel_bytes (usize (i + 1))
      else Some pixel_data
  end.

(** The loop of [stage3_convert_color] from RGB8 to GRAY8. *)
Fixpoint rgb_to_gray_loop (fuel : nat) (pixel_data out_pixels : list Z)
    (out_size i j : Z) : option (list Z) :=
  match fuel with
  | O => None
  | S fuel' =>
      if j <? out_size then
        r ← load pixel_data i;
        g ← load pixel_data (usize (i + 1));
        b ← load pixel_data (usize (i + 2));
        out_pixels ← store out_pixels j
                       (u8 (Z.quot (r * 299 + g * 587 + b * 114) 1000));
        rgb_to_gray_loop fuel' pixel_data out_pixels out_size (usize (i + 3))
          (usize (j + 1))
      else Some out_pixels
  end.

(** The loop of [stage3_convert_color] from GRAY8 to RGB8. *)
Fixpoint gray_to_rgb_loop (fuel : nat) (pixel_data out_pixels : list Z)
    (in_size i j : Z) : option (list Z) :=
  match fuel with
  | O => None
  | S fuel' =>
      if i <? in_size then
        g ← load pixel_data i;
        out_pixels ← store out_pixels j g;
        out_pixels ← store out_pixels (usize (j + 1)) g;
        out_pixels ← store out_pixels (usize (j + 2)) g;
        gray_to_rgb_loop fuel' pixel_data out_pixels in_size (usize (i + 1))
          (usize (j + 3))
      else Some out_pixels
  end.

Definition stage3_convert_color (color : string)
    (in_file : option (list Z)) : outcome (list Z) :=
  '(fp, header, file_size) ← aif_open_and_read_header in_file;
  pixel_format ← defined (load header AIF_PXL_FMT_OFFSET);
  compression ← defined (load header AIF_COMPRESSION_OFFSET);
  width ← defined (read_le_u32 header AIF_WIDTH_OFFSET);
  height ← defined (read_le_u32 header AIF_HEIGHT_OFFSET);
  magic_ok ← defined (aif_magic_valid header);
  if negb magic_ok then Exit NotValidAIF
  else if negb (aif_format_valid pixel_format) then Exit NotValidAIF
  else if negb (compression =? AIF_COMPRESSION_NONE)
          && negb (compression =? AIF_COMPRESSION_RLE)
  then Exit NotValidAIF
  else if negb (aif_dim_valid width) || negb (aif_dim_valid height)
  then Exit NotValidAIF
  else
    let target_fmt :=
      if String.eqb color "gray8"%string then AIF_FMT_GRAY8 else AIF_FMT_RGB8 in
    let in_bpp := if pixel_format =? AIF_FMT_RGB8 then 3 else 1 in
    let in_size := usize (usize (in_bpp * width) * height) in
    pixel_data ← load_pixels fp compression width height in_bpp in_size;
    '(out_pixels, out_bpp, header) ←
      (if (pixel_format =? AIF_FMT_RGB8) && (target_fmt =? AIF_FMT_GRAY8) then
         let out_size := usize (width * height) in
         out_pixels ← defined (rgb_to_gray_loop (S (Z.to_nat out_size))
                                 pixel_data (malloc out_size) out_size 0 0);
         header ← defined (store header AIF_PXL_FMT_OFFSET AIF_FMT_GRAY8);
         Done (out_pixels, 1, header)
       else if (pixel_format =? AIF_FMT_GRAY8) && (target_fmt =? AIF_FMT_RGB8)
       then
         let out_size := usize (usize (3 * width) * height) in
         out_pixels ← defined (gray_to_rgb_loop (S (Z.to_nat in_size))
                                 pixel_data (malloc out_size) in_size 0 0);
         header ← defined (store header AIF_PXL_FMT_OFFSET AIF_FMT_RGB8);
         Done (out_pixels, 3, header)
       else Done (pixel_data, in_bpp, header));
    header ← (if pixel_format =? target_fmt
              then defined (store header AIF_PXL_FMT_OFFSET pixel_format)
              else Done header);
    let output_compression := compression in
    header ← defined (store header AIF_COMPRESSION_OFFSET output_compression);
    let out_size := usize (usize (out_bpp * width) * height) in
    out ← defined (fwrite header AIF_HEADER_SIZE []);
    '(out, data_bytes) ←
      (if output_compression =? AIF_COMPRESSION_NONE then
         out ← defined (fwrite out_pixels out_size out);
         Done (out, out_size)
       else
         defined (aif_write_compressed_rows out out_pixels width height
                    out_bpp));
    patch_checksum header out data_bytes.

Section Brighten.

(** [brighten_rgb] works on floating-point numbers and is a parameter
    here; it takes and returns a [uint32_t]. *)
Variable brighten_rgb : Z -> Z -> Z.

(** The loop of [stage2_brighten] over the pixels of an RGB8 image. *)
Fixpoint brighten_rgb_loop (fuel : nat) (amount : Z) (pixel_data : list Z)
    (pixel_bytes i : Z) : option (list Z) :=
  match fuel with
  | O => None
  | S fuel' =>
      if i <? pixel_bytes then
        r ← load pixel_data i;
        g ← load pixel_data (usize (i + 1));
        b ← load pixel_data (usize (i + 2));
        let colour := u32 (Z.lor (Z.lor (Z.shiftl r 16) (Z.shiftl g 8)) b) in
        let colour := u32 (brighten_rgb colour amount) in
        pixel_data ← store pixel_data i
                       (u8 (Z.land (Z.shiftr colour 16) 255));
        pixel_data ← store pixel_data (usize (i + 1))
                       (u8 (Z.land (Z.shiftr colour 8) 255));
        pixel_data ← store pixel_data (usize (i + 2))
                       (u8 (Z.land colour 255));
        brighten_rgb_loop fuel' amount pixel_data pixel_bytes (usize (i + 3))
      else Some pixel_data
  end.

Definition stage2_brighten (amount : Z) (in_file : option (list Z))
  : outcome (list Z) :=
  '(fp, header, file_size) ← aif_open_and_read_header in_file;
  pixel_format ← defined (load header AIF_PXL_FMT_OFFSET);
  compression ← defined (load header AIF_COMPRESSION_OFFSET);
  width ← defined (read_le_u32 header AIF_WIDTH_OFFSET);
  height ← defined (read_le_u32 header AIF_HEIGHT_OFFSET);
  magic_ok ← defined (aif_magic_valid header);
  if negb magic_ok then Exit NotValidAIF
  else if negb (aif_format_valid pixel_format) then Exit NotValidAIF
  else if negb (aif_dim_valid width) || negb (aif_dim_valid height)
  then Exit NotValidAIF
  else if negb (compression =? AIF_COMPRESSION_NONE)
          && negb (compression =? AIF_COMPRESSION_RLE)
  then Exit NotValidAIF
  else
    let bpp := if pixel_format =? AIF_FMT_RGB8 then 3 else 1 in
    let pixel_bytes := usize (usize (bpp * width) * height) in
    pixel_data ← load_pixels fp compression width height bpp pixel_bytes;
    pixel_data ←
      (if pixel_format =? AIF_FMT_GRAY8 then
         defined (brighten_gray_loop (S (Z.to_nat pixel_bytes)) amount
                    pixel_data pixel_bytes 0)
       else if pixel_format =? AIF_FMT_RGB8 then
         defined (brighten_rgb_loop (S (Z.to_nat pixel_bytes)) amount
                    pixel_data pixel_bytes 0)
       else Done pixel_data);
    let output_compression := compression in
    header ← defined (store header AIF_COMPRESSION_OFFSET output_compression);
    out ← defined (fwrite header AIF_HEADER_SIZE []);
    '(out, data_bytes) ←
      (if output_compression =? AIF_COMPRESSION_NONE then
         out ← defined (fwrite pixel_data pixel_bytes out);
         Done (out, pixel_bytes)
       else
         defined (aif_write_compressed_rows out pixel_data width height bpp));
    patch_checksum header out data_bytes.

End Brighten.

(** ** Specification vocabulary *)

(** [slice buf off n]: the [n] bytes of [buf] from offset [off]. *)
Definition slice (buf : list Z) (off n : Z) : list Z :=
  take (Z.to_nat n) (drop (Z.to_nat off) buf).

(** [blit out pos l]: the buffer [out] with [l] written from index [pos]. *)
Definition blit (out : list Z) (pos : Z) (l : list Z) : list Z :=
  take (Z.to_nat pos) out ++ l ++ drop (Z.to_nat pos + length l) out.

(** The blocks of the compressed format. *)
Inductive block : Type :=
  | Repeat (count : Z) (pixel : list Z)
  | Literal (count : Z) (payload : list Z).

Definition block_bytes (b : block) : list Z :=
  match b with
  | Repeat count pixel => count :: pixel
  | Literal count payload => 0 :: count :: payload
  end.

Definition block_pixels (b : block) : list Z :=
  match b with
  | Repeat count pixel => concat (replicate (Z.to_nat count) pixel)
  | Literal count payload => payload
  end.

Definition block_ok (bpp : Z) (b : block) : Prop :=
  match b with
  | Repeat count pixel => 1 <= count <= 255 /\ len pixel = bpp
  | Literal count payload => 1 <= count <= 255 /\ len payload = count * bpp
  end.

Definition serialize (bs : list block) : list Z := concat (block_bytes <$> bs).
Definition expand (bs : list block) : list Z := concat (block_pixels <$> bs).

(** The counts of the blocks into which a run of [n] pixels is split. *)
Definition chunks (n : Z) : list Z :=
  replicate (Z.to_nat (n / 255)) 255
  ++ (if n mod 255 =? 0 then [] else [n mod 255]).

Definition repeat_blocks (pixel : list Z) (run : Z) : list block :=
  (fun c => Repeat c pixel) <$> chunks run.

(** The literal blocks for the pixels [data], [counts] pixels at a time. *)
Fixpoint literal_blocks_of (bpp : Z) (counts : list Z) (data : list Z)
  : list block :=
  match counts with
  | [] => []
  | c :: counts =>
      Literal c (take (Z.to_nat (c * bpp)) data)
      :: literal_blocks_of bpp counts (drop (Z.to_nat (c * bpp)) data)
  end.

Definition literal_blocks (bpp : Z) (data : list Z) : list block :=
  literal_blocks_of bpp (chunks (len data / bpp)) data.

(** [run_from row bpp start run]: the [run] pixels of [row] from column
    [start] are byte-identical. *)
Definition run_from (row : list Z) (bpp start run : Z) : Prop :=
  forall i, 0 <= i < run ->
    slice row ((start + i) * bpp) bpp = slice row (start * bpp) bpp.

Definition sum_counts (counts : list Z) : Z := foldr Z.add 0 counts.

Abbreviation SIZE_MAX := 18446744073709551615 (only parsing).
Abbreviation UINT32_MAX := 4294967295 (only parsing).
Abbreviation UINT16_MAX := 65535 (only parsing).

(** The blocks that [compress_row] emits from column [col] on: the same scan
    as the loop of [compress_row], without the output buffer. *)
Fixpoint row_blocks (fuel : nat) (row : list Z) (width bpp col : Z)
  : option (list block) :=
  match fuel with
  | O => None
  | S fuel' =>
      if col <? width then
        run ← measure_run row width bpp col;
        if run >=? 2 then
          bs ← row_blocks fuel' row width bpp (col + run);
          Some (repeat_blocks (slice row (col * bpp) bpp) run ++ bs)
        else
          col' ← gather_literals (S (Z.to_nat width)) row width bpp (col + 1);
          bs ← row_blocks fuel' row width bpp col';
          Some (literal_blocks_of bpp (chunks (col' - col))
                  (slice row (col * bpp) ((col' - col) * bpp)) ++ bs)
      else Some []
  end.

(** The bytes of a compressed row. *)
Definition compressed_row (row : list Z) (width bpp : Z) : list Z :=
  match row_blocks (S (Z.to_nat width)) row width bpp 0 with
  | Some bs => serialize bs
  | None => []
  end.

(** A row of [width] copies of the pixel [px]. *)
Definition constant_row (px : list Z) (width : Z) : list Z :=
  concat (replicate (Z.to_nat width) px).

(** [malformed comp row_len row_bytes bpp cp op]: the block that starts at
    [cp] cannot be decoded when the output cursor is [op]. *)
Inductive malformed (comp : list Z) (row_len row_bytes bpp cp op : Z) : Prop :=
  | literal_count_zero :
      load comp cp = Some 0 -> cp + 1 < row_len -> load comp (cp + 1) = Some 0 ->
      malformed comp row_len row_bytes bpp cp op
  | repeat_pixel_past_end tag :
      load comp cp = Some tag -> tag <> 0 -> cp + 1 + bpp > row_len ->
      malformed comp row_len row_bytes bpp cp op
  | literal_count_past_end :
      load comp cp = Some 0 -> cp + 1 >= row_len ->
      malformed comp row_len row_bytes bpp cp op
  | literal_payload_past_end count :
      load comp cp = Some 0 -> cp + 1 < row_len ->
      load comp (cp + 1) = Some count -> cp + 2 + count * bpp > row_len ->
      malformed comp row_len row_bytes bpp cp op
  | repeat_output_overrun tag :
      load comp cp = Some tag -> tag <> 0 -> op + tag * bpp > row_bytes ->
      malformed comp row_len row_bytes bpp cp op
  | literal_output_overrun count :
      load comp cp = Some 0 -> cp + 1 < row_len ->
      load comp (cp + 1) = Some count -> op + count * bpp > row_bytes ->
      malformed comp row_len row_bytes bpp cp op.

(** [row_view pixels row_bytes r]: the pointer [pixels + r * row_bytes]. *)
Definition row_view (pixels : list Z) (row_bytes r : Z) : list Z :=
  drop (Z.to_nat (r * row_bytes)) pixels.

(** The record of a row in a compressed file: the two bytes written for the
    length, then the compressed row. *)
Definition row_record (row : list Z) (width bpp : Z) : list Z :=
  let c := compressed_row row width bpp in
  [Z.land (len c) 255; Z.land (Z.shiftr (len c) 8) 255] ++ c.

(** The records of the [count] rows from row [r] on. *)
Definition compressed_stream (pixels : list Z) (width bpp r count : Z)
  : list Z :=
  concat
    ((fun r => row_record (row_view pixels (width * bpp) r) width bpp)
       <$> seqZ r count).

(** The output buffer [full] of [aif_decompress_image] when the rows before
    row [r] are decoded. *)
Definition decoded_upto (pixels : list Z) (row_bytes : Z) (full : list Z)
    (r : Z) : Prop :=
  len full = len pixels
  /\ take (Z.to_nat (r * row_bytes)) full
     = take (Z.to_nat (r * row_bytes)) pixels.

(** The number that [compress_row] returns for a row, with the buffer that
    [aif_write_compressed_rows] allocates. *)
Definition compress_row_len (row : list Z) (width bpp : Z) : Z :=
  match compress_row row width bpp (malloc (width * (bpp + 2))) with
  | Some (_, n) => n
  | None => 0
  end.

(** The checksum as the specification words it: the two bytes of the
    checksum field count as zero, *)
Definition mask_checksum_field (f : list Z) : list Z :=
  <[4%nat := 0]> (<[5%nat := 0]> f).

(** the two sums run over the bytes, each modulo 256, *)
Definition checksum_step (sums : Z * Z) (byte : Z) : Z * Z :=
  let sum1 := (fst sums + byte) mod 256 in
  let sum2 := (snd sums + sum1) mod 256 in
  (sum1, sum2).

Definition checksum_sums (bytes : list Z) : Z * Z :=
  foldl checksum_step (0, 0) bytes.

(** and the value is [(sum2 << 8) | sum1]. *)
Definition checksum_spec (f : list Z) (file_size : Z) : Z :=
  let sums := checksum_sums (take (Z.to_nat file_size) (mask_checksum_field f)) in
  Z.lor (Z.shiftl (snd sums) 8) (fst sums).

Abbreviation INT_MAX := 2147483647 (only parsing).

(** ** Structural header violations *)

(** The magic is the four bytes of ["AIF"] with its terminator. *)
Definition AIF_MAGIC : list Z := [65; 73; 70; 0].

(** The four violations of the specification, read off the bytes of the
    file: a field is the slice of the file at its offset. *)
Inductive violation : Type :=
  | InvalidMagic
  | InvalidPixelFormat
  | InvalidCompression
  | InvalidDimensions.

Definition violates (content : list Z) (v : violation) : Prop :=
  match v with
  | InvalidMagic => slice content 0 AIF_MAGIC_SIZE <> AIF_MAGIC
  | InvalidPixelFormat =>
      slice content AIF_PXL_FMT_OFFSET AIF_PXL_FMT_SIZE <> [AIF_FMT_RGB8]
      /\ slice content AIF_PXL_FMT_OFFSET AIF_PXL_FMT_SIZE <> [AIF_FMT_GRAY8]
  | InvalidCompression =>
      slice content AIF_COMPRESSION_OFFSET AIF_COMPRESSION_SIZE
      <> [AIF_COMPRESSION_NONE]
      /\ slice content AIF_COMPRESSION_OFFSET AIF_COMPRESSION_SIZE
         <> [AIF_COMPRESSION_RLE]
  | InvalidDimensions =>
      slice content AIF_WIDTH_OFFSET AIF_WIDTH_SIZE = [0; 0; 0; 0]
      \/ slice content AIF_HEIGHT_OFFSET AIF_HEIGHT_SIZE = [0; 0; 0; 0]
  end.

(** ** Pixel operations *)

(** A GRAY8 byte brightened by [amount] per cent, kept between 0 and 255. *)
Definition brighten_gray (amount b : Z) : Z :=
  Z.max 0 (Z.min 255 (b + Z.quot (b * amount) 100)).

(** The gray level of an RGB8 pixel. *)
Definition luminance (r g b : Z) : Z := (r * 299 + g * 587 + b * 114) / 1000.

(** The pixels of an RGB8 image turned into gray levels, and back. *)
Fixpoint rgb_to_gray_pixels (pixels : list Z) : list Z :=
  match pixels with
  | r :: g :: b :: pixels => luminance r g b :: rgb_to_gray_pixels pixels
  | _ => []
  end.

Fixpoint gray_to_rgb_pixels (pixels : list Z) : list Z :=
  match pixels with
  | g :: pixels => g :: g :: g :: gray_to_rgb_pixels pixels
  | [] => []
  end.

(** An RGB8 pixel as the number [0xRRGGBB], and the pixels of an image with
    each colour replaced by [f] of it, of which the three low bytes count. *)
Definition rgb_colour (r g b : Z) : Z := r * 65536 + g * 256 + b.

Fixpoint map_rgb_colours (f : Z -> Z) (pixels : list Z) : list Z :=
  match pixels with
  | r :: g :: b :: pixels =>
      let colour := f (rgb_colour r g b) in
      (colour / 65536) mod 256 :: (colour / 256) mod 256 :: colour mod 256
      :: map_rgb_colours f pixels
  | _ => []
  end.

(** ** Files *)

(** The little-endian bytes of a 16-bit and of a 32-bit number. *)
Definition le16 (v : Z) : list Z := [Z.land v 255; Z.land (Z.shiftr v 8) 255].

Definition le32 (v : Z) : list Z :=
  [v mod 256; (v / 256) mod 256; (v / 65536) mod 256; (v / 16777216) mod 256].

(** The 20 bytes of a header, field by field. *)
Definition aif_header (checksum pixel_format compression width height
    pixel_offset : Z) : list Z :=
  AIF_MAGIC ++ le16 checksum ++ [pixel_format; compression]
  ++ le32 width ++ le32 height ++ le32 pixel_offset.

(** The file made of a header and of data, with the checksum of the whole
    in the checksum field. *)
Definition aif_file (pixel_format compression width height pixel_offset : Z)
    (data : list Z) : list Z :=
  let unsigned :=
    aif_header 0 pixel_format compression width height pixel_offset ++ data in
  aif_header (checksum_spec unsigned (len unsigned)) pixel_format compression
    width height pixel_offset
  ++ data.

(** The bytes of a pixel in each format, and the data of an image under
    each compression. *)
Definition bytes_per_pixel (pixel_format : Z) : Z :=
  if pixel_format =? AIF_FMT_RGB8 then 3 else 1.

Definition image_data (compression : Z) (pixels : list Z)
    (width height bpp : Z) : list Z :=
  if compression =? AIF_COMPRESSION_NONE then pixels
  else compressed_stream pixels width bpp 0 height.

(** The pixels that [stage2_brighten] and [stage3_convert_color] write. *)
Definition brighten_pixels (brighten_rgb : Z -> Z -> Z)
    (pixel_format amount : Z) (pixels : list Z) : list Z :=
  if pixel_format =? AIF_FMT_GRAY8 then brighten_gray amount <$> pixels
  else map_rgb_colours (fun c => brighten_rgb c amount) pixels.

Definition target_format (color : string) : Z :=
  if String.eqb color "gray8"%string then AIF_FMT_GRAY8 else AIF_FMT_RGB8.

Definition convert_pixels (pixel_format target : Z) (pixels : list Z)
  : list Z :=
  if (pixel_format =? AIF_FMT_RGB8) && (target =? AIF_FMT_GRAY8)
  then rgb_to_gray_pixels pixels
  else if (pixel_format =? AIF_FMT_GRAY8) && (target =? AIF_FMT_RGB8)
  then gray_to_rgb_pixels pixels
  else pixels.

(** * Properties *)

(** ** Machine integers *)

Lemma u8_small x : 0 <= x < 256 -> u8 x = x.
Proof. intros. unfold u8. by rewrite Z.mod_small. Qed.

Lemma u16_small x : 0 <= x < 65536 -> u16 x = x.
Proof. intros. unfold u16. by rewrite Z.mod_small. Qed.

Lemma u32_small x : 0 <= x < 4294967296 -> u32 x = x.
Proof. intros. unfold u32. by rewrite Z.mod_small. Qed.

Lemma usize_small x : 0 <= x < 18446744073709551616 -> usize x = x.
Proof. intros. unfold usize. by rewrite Z.mod_small. Qed.

Lemma int32_small x : -2147483648 <= x < 2147483648 -> int32 x = x.
Proof. intros. unfold int32. rewrite Z.mod_small; lia. Qed.

(** ** Buffers *)

Lemma len_nil : len [] = 0.
Proof. done. Qed.

Lemma len_cons x l : len (x :: l) = 1 + len l.
Proof. unfold len. simpl. lia. Qed.

Lemma len_app l1 l2 : len (l1 ++ l2) = len l1 + len l2.
Proof. unfold len. rewrite length_app. lia. Qed.

Lemma len_nonneg l : 0 <= len l.
Proof. unfold len. lia. Qed.

Lemma len_slice buf off n :
  0 <= off -> 0 <= n -> off + n <= len buf -> len (slice buf off n) = n.
Proof.
  unfold len, slice. intros. rewrite length_take, length_drop. lia.
Qed.

Lemma len_blit out pos l :
  0 <= pos -> pos + len l <= len out -> len (blit out pos l) = len out.
Proof.
  unfold len, blit. intros.
  rewrite !length_app, length_take, length_drop. lia.
Qed.

Lemma len_malloc n : 0 <= n -> len (malloc n) = n.
Proof. unfold len, malloc. intros. rewrite length_replicate. lia. Qed.

Lemma blit_nil out pos : blit out pos [] = out.
Proof. unfold blit. simpl. by rewrite Nat.add_0_r, take_drop. Qed.

Lemma blit_app out pos l1 l2 :
  0 <= pos -> pos + len l1 <= len out ->
  blit (blit out pos l1) (pos + len l1) l2 = blit out pos (l1 ++ l2).
Proof.
  unfold len, blit. intros Hpos Hle.
  rewrite Z2Nat.inj_add, Nat2Z.id by lia.
  rewrite length_app, <- !(assoc_L (++)). 
  rewrite take_app_add' by (rewrite length_take; lia).
  rewrite take_app_length, <- !(assoc_L (++)).
  do 2 f_equal.
  rewrite (assoc_L (++)).
  rewrite drop_app_add' by (rewrite length_app, length_take; lia).
  rewrite drop_drop. do 2 f_equal. lia.
Qed.

Lemma load_lookup buf i :
  0 <= i -> load buf i = buf !! Z.to_nat i.
Proof. intros. unfold load. by rewrite bool_decide_eq_true_2. Qed.

Lemma load_slice buf i :
  0 <= i < len buf -> exists b, load buf i = Some b /\ slice buf i 1 = [b].
Proof.
  unfold len. intros Hi. rewrite load_lookup by lia.
  destruct (lookup_lt_is_Some_2 buf (Z.to_nat i)) as [b Hb]; [lia|].
  exists b. split; [done|]. unfold slice.
  by rewrite (drop_S _ _ _ Hb).
Qed.

Lemma store_blit out pos v :
  0 <= pos < len out -> store out pos v = Some (blit out pos [v]).
Proof.
  unfold len. intros Hpos. unfold store.
  rewrite bool_decide_eq_true_2 by (unfold len; lia).
  f_equal. unfold blit. simpl.
  destruct (lookup_lt_is_Some_2 out (Z.to_nat pos)) as [b Hb]; [lia|].
  rewrite <- (take_drop_middle _ _ _ Hb) at 1.
  rewrite insert_app_r_alt by (rewrite length_take; lia).
  rewrite length_take, Nat.min_l by lia.
  rewrite Nat.sub_diag. simpl. by rewrite Nat.add_1_r.
Qed.

Lemma store_None out pos v :
  ~ (0 <= pos < len out) -> store out pos v = None.
Proof. intros. unfold store. by rewrite bool_decide_eq_false_2. Qed.

Lemma slice_app buf off n m :
  0 <= off -> 0 <= n -> 0 <= m ->
  slice buf off (n + m) = slice buf off n ++ slice buf (off + n) m.
Proof.
  intros. unfold slice.
  rewrite !Z2Nat.inj_add by lia.
  rewrite <- drop_drop, <- take_take_drop. done.
Qed.

Lemma slice_0 buf off : slice buf off 0 = [].
Proof. done. Qed.


(** ** Encoder: the helpers *)

Lemma copy_pixel_loop_spec fuel : forall buf off bpp k out out_pos,
  0 <= k <= bpp -> bpp <= SIZE_MAX -> (Z.to_nat (bpp - k) < fuel)%nat ->
  0 <= off -> off + bpp <= len buf ->
  0 <= out_pos -> out_pos + (bpp - k) <= len out -> len out <= SIZE_MAX ->
  copy_pixel_loop fuel buf off bpp k out out_pos
  = Some (blit out out_pos (slice buf (off + k) (bpp - k)),
          out_pos + (bpp - k)).
Proof.
  induction fuel as [|fuel IH]; intros buf off bpp k out out_pos Hk Hbpp Hfuel
    Hoff Hbuf Hpos Hout Hmax; [lia|].
  simpl. destruct (Z.ltb_spec k bpp) as [Hlt|Hge].
  - destruct (load_slice buf (off + k)) as (b & -> & Hb); [lia|].
    simpl. rewrite store_blit by lia. simpl.
    rewrite !usize_small by lia.
    rewrite IH by (rewrite ?len_blit; unfold len in *; simpl; lia).
    assert (slice buf (off + k) (bpp - k)
            = [b] ++ slice buf (off + (k + 1)) (bpp - (k + 1))) as ->.
    { replace (bpp - k) with (1 + (bpp - (k + 1))) by lia.
      rewrite slice_app, Hb by lia. do 2 f_equal. lia. }
    rewrite <- blit_app by (unfold len in *; simpl; lia).
    do 2 f_equal. lia.
  - replace (bpp - k) with 0 by lia. rewrite slice_0, blit_nil.
    do 2 f_equal. lia.
Qed.

Lemma copy_pixel_spec buf off bpp out out_pos :
  0 <= bpp <= SIZE_MAX -> 0 <= off -> off + bpp <= len buf ->
  0 <= out_pos -> out_pos + bpp <= len out -> len out <= SIZE_MAX ->
  copy_pixel buf off bpp out out_pos
  = Some (blit out out_pos (slice buf off bpp), out_pos + bpp).
Proof.
  intros. unfold copy_pixel.
  rewrite copy_pixel_loop_spec by lia.
  by rewrite Z.add_0_r, Z.sub_0_r.
Qed.

Lemma pixels_equal_loop_spec fuel : forall buf a b bpp k,
  0 <= k <= bpp -> bpp <= SIZE_MAX -> (Z.to_nat (bpp - k) < fuel)%nat ->
  0 <= a -> a + bpp <= len buf -> 0 <= b -> b + bpp <= len buf ->
  pixels_equal_loop fuel buf a b bpp k
  = Some (bool_decide (slice buf (a + k) (bpp - k)
                       = slice buf (b + k) (bpp - k))).
Proof.
  induction fuel as [|fuel IH]; intros buf a b bpp k Hk Hbpp Hfuel Ha Ha' Hb Hb';
    [lia|].
  simpl. destruct (Z.ltb_spec k bpp) as [Hlt|Hge].
  - destruct (load_slice buf (a + k)) as (x & -> & Hx); [lia|].
    destruct (load_slice buf (b + k)) as (y & -> & Hy); [lia|].
    simpl.
    assert (forall c z, 0 <= c -> c + bpp <= len buf -> slice buf (c + k) 1 = [z] ->
              slice buf (c + k) (bpp - k)
              = z :: slice buf (c + (k + 1)) (bpp - (k + 1))) as Hsplit.
    { intros c z Hc Hc' Hz.
      replace (bpp - k) with (1 + (bpp - (k + 1))) by lia.
      rewrite slice_app, Hz by lia. simpl. do 2 f_equal. lia. }
    rewrite (Hsplit a x), (Hsplit b y) by done.
    destruct (Z.eqb_spec x y) as [->|Hne]; simpl.
    + rewrite usize_small by lia. rewrite IH by lia.
      f_equal. apply bool_decide_ext. split; [congruence|].
      intros [=]. done.
    + f_equal. symmetry. apply bool_decide_eq_false_2. congruence.
  - replace (bpp - k) with 0 by lia. by rewrite !slice_0.
Qed.

Lemma pixels_equal_spec buf a b bpp :
  0 <= bpp <= SIZE_MAX ->
  0 <= a -> a + bpp <= len buf -> 0 <= b -> b + bpp <= len buf ->
  pixels_equal buf a b bpp
  = Some (bool_decide (slice buf a bpp = slice buf b bpp)).
Proof.
  intros. unfold pixels_equal. rewrite pixels_equal_loop_spec by lia.
  by rewrite !Z.add_0_r, Z.sub_0_r.
Qed.

(** ** The split of a run into chunks of at most 255 pixels *)

Lemma chunks_0 : chunks 0 = [].
Proof. done. Qed.

Lemma chunks_small n : 0 < n <= 255 -> chunks n = [n].
Proof.
  intros Hn. unfold chunks.
  destruct (decide (n = 255)) as [->|Hne]; [done|].
  rewrite Z.div_small, Z.mod_small by lia. simpl.
  destruct (Z.eqb_spec n 0); [lia|done].
Qed.

Lemma chunks_step n : 255 < n -> chunks n = 255 :: chunks (n - 255).
Proof.
  intros Hn.
  assert (n / 255 = (n - 255) / 255 + 1) as Hq.
  { rewrite <- Z.div_add by lia. f_equal. lia. }
  assert (n mod 255 = (n - 255) mod 255) as Hm.
  { rewrite <- (Z.mod_add (n - 255) 1 255) by lia. f_equal. lia. }
  unfold chunks. rewrite Hq, Hm.
  rewrite Z2Nat.inj_add by (try apply Z.div_pos; lia).
  by rewrite Nat.add_comm.
Qed.

Lemma chunks_bounds n : 0 <= n -> Forall (fun c => 1 <= c <= 255) (chunks n).
Proof.
  intros Hn. unfold chunks. apply Forall_app. split.
  - apply Forall_replicate. lia.
  - destruct (Z.eqb_spec (n mod 255) 0); [done|].
    apply Forall_singleton.
    pose proof (Z.mod_pos_bound n 255). lia.
Qed.

Lemma chunks_length n :
  0 <= n -> Z.of_nat (length (chunks n)) = (n + 254) / 255.
Proof.
  intros Hn. unfold chunks. rewrite length_app, length_replicate.
  pose proof (Z.div_mod n 255 ltac:(lia)) as Hdm.
  pose proof (Z.mod_pos_bound n 255 ltac:(lia)) as Hm.
  assert (0 <= n / 255) by (apply Z.div_pos; lia).
  destruct (Z.eqb_spec (n mod 255) 0) as [H0|H0]; simpl.
  - apply Z.div_unique with 254; lia.
  - apply Z.div_unique with (n mod 255 - 1); lia.
Qed.

Lemma chunks_sum n : 0 <= n -> sum_counts (chunks n) = n.
Proof.
  intros Hn. unfold sum_counts, chunks. rewrite foldr_app.
  pose proof (Z.div_mod n 255 ltac:(lia)) as Hdm.
  assert (0 <= n / 255) as Hq by (apply Z.div_pos; lia).
  assert (forall k acc, foldr Z.add acc (replicate k 255)
                        = 255 * Z.of_nat k + acc) as Hrep.
  { induction k as [|k IHk]; intros acc; simpl; [lia|]. rewrite IHk. lia. }
  rewrite Hrep.
  destruct (Z.eqb_spec (n mod 255) 0); simpl; lia.
Qed.

Lemma serialize_nil : serialize [] = [].
Proof. done. Qed.

Lemma serialize_cons b bs : serialize (b :: bs) = block_bytes b ++ serialize bs.
Proof. done. Qed.

Lemma serialize_app bs1 bs2 :
  serialize (bs1 ++ bs2) = serialize bs1 ++ serialize bs2.
Proof. unfold serialize. by rewrite fmap_app, concat_app. Qed.

Lemma expand_nil : expand [] = [].
Proof. done. Qed.

Lemma expand_cons b bs : expand (b :: bs) = block_pixels b ++ expand bs.
Proof. done. Qed.

Lemma expand_app bs1 bs2 : expand (bs1 ++ bs2) = expand bs1 ++ expand bs2.
Proof. unfold expand. by rewrite fmap_app, concat_app. Qed.

Lemma len_concat_replicate n (l : list Z) :
  len (concat (replicate n l)) = Z.of_nat n * len l.
Proof.
  induction n as [|n IH]; simpl; [done|]. rewrite len_app, IH. lia.
Qed.

(** *** Repeat blocks *)

Lemma repeat_blocks_ok pixel run :
  0 <= run -> Forall (block_ok (len pixel)) (repeat_blocks pixel run).
Proof.
  intros Hrun. unfold repeat_blocks. apply Forall_fmap.
  eapply Forall_impl; [by apply chunks_bounds|]. intros c Hc. by split.
Qed.

Lemma repeat_blocks_expand pixel run :
  0 <= run ->
  expand (repeat_blocks pixel run) = concat (replicate (Z.to_nat run) pixel).
Proof.
  intros Hrun. unfold repeat_blocks.
  assert (forall cs, Forall (fun c => 1 <= c <= 255) cs ->
            expand ((fun c => Repeat c pixel) <$> cs)
            = concat (replicate (Z.to_nat (sum_counts cs)) pixel)) as Hgen.
  { induction 1 as [|c cs Hc Hcs IH]; [done|].
    rewrite fmap_cons, expand_cons, IH. simpl.
    assert (0 <= sum_counts cs).
    { clear IH. induction Hcs; simpl; [done|]. unfold sum_counts in *. simpl. lia. }
    unfold sum_counts in *.
    rewrite Z2Nat.inj_add, replicate_add, concat_app by lia. done. }
  rewrite Hgen by (by apply chunks_bounds). by rewrite chunks_sum.
Qed.

Lemma repeat_blocks_len pixel run :
  0 <= run ->
  len (serialize (repeat_blocks pixel run))
  = (run + 254) / 255 * (1 + len pixel).
Proof.
  intros Hrun. rewrite <- chunks_length by done. unfold repeat_blocks.
  induction (chunks run) as [|c cs IH]; [done|].
  rewrite fmap_cons, serialize_cons, len_app, IH. simpl.
  rewrite len_cons. lia.
Qed.

Lemma repeat_blocks_small pixel run :
  0 < run <= 255 -> repeat_blocks pixel run = [Repeat run pixel].
Proof. intros. unfold repeat_blocks. by rewrite chunks_small. Qed.

Lemma repeat_blocks_step pixel run :
  255 < run ->
  repeat_blocks pixel run = Repeat 255 pixel :: repeat_blocks pixel (run - 255).
Proof. intros. unfold repeat_blocks. by rewrite chunks_step. Qed.

Lemma ceil_255_step n : 255 < n -> (n + 254) / 255 = (n - 255 + 254) / 255 + 1.
Proof. intros. rewrite <- Z.div_add by lia. f_equal. lia. Qed.

Lemma ceil_255_small n : 0 < n <= 255 -> (n + 254) / 255 = 1.
Proof. intros. symmetry. apply Z.div_unique with (n - 1); lia. Qed.

Lemma ceil_255_le n : 0 <= n -> 0 <= (n + 254) / 255 <= n.
Proof.
  intros. split; [apply Z.div_pos; lia|].
  destruct (decide (n = 0)) as [->|]; [done|].
  apply Z.div_le_upper_bound; lia.
Qed.

Lemma write_repeat_blocks_loop_spec fuel :
  forall row off bpp remaining out out_pos,
  0 <= bpp <= SIZE_MAX -> 0 <= off -> off + bpp <= len row ->
  0 <= remaining <= SIZE_MAX -> (Z.to_nat remaining < fuel)%nat ->
  0 <= out_pos ->
  out_pos + (remaining + 254) / 255 * (1 + bpp) <= len out ->
  len out <= SIZE_MAX ->
  write_repeat_blocks_loop fuel row off bpp remaining out out_pos
  = Some (blit out out_pos
            (serialize (repeat_blocks (slice row off bpp) remaining)),
          out_pos + (remaining + 254) / 255 * (1 + bpp)).
Proof.
  induction fuel as [|fuel IH];
    intros row off bpp remaining out out_pos Hbpp Hoff Hrow Hrem Hfuel Hpos
      Hout Hmax; [lia|].
  simpl. destruct (Z.gtb_spec remaining 0) as [Hgt|Hle].
  - pose proof (ceil_255_le remaining ltac:(lia)) as Hceil.
    assert (len (slice row off bpp) = bpp) as Hpx by (apply len_slice; lia).
    destruct (Z.gtb_spec remaining 255) as [Hbig|Hsmall].
    + rewrite ceil_255_step in * by lia.
      pose proof (ceil_255_le (remaining - 255) ltac:(lia)).
      rewrite store_blit by nia. simpl.
      rewrite !usize_small by nia.
      rewrite copy_pixel_spec by (rewrite ?len_blit; rewrite ?len_cons, ?len_nil; nia).
      simpl. rewrite ?usize_small by lia.
      rewrite IH by (rewrite ?len_blit; rewrite ?len_blit;
                     rewrite ?len_cons, ?len_nil, ?Hpx; nia).
      rewrite (repeat_blocks_step _ remaining), serialize_cons by lia. simpl.
      f_equal. f_equal; [|lia].
      replace (out_pos + 1) with (out_pos + len [255]) by done.
      rewrite blit_app by (rewrite ?len_cons, ?len_nil; nia).
      replace (out_pos + len [255] + bpp)
        with (out_pos + len ([255] ++ slice row off bpp))
        by (rewrite len_app, Hpx; lia).
      rewrite blit_app by (rewrite ?len_app, ?len_cons, ?len_nil, ?Hpx; nia).
      by rewrite <- (assoc_L (++)).
    + rewrite ceil_255_small in * by lia.
      rewrite u8_small by lia.
      rewrite store_blit by nia. simpl.
      rewrite !usize_small by nia.
      rewrite copy_pixel_spec by (rewrite ?len_blit; rewrite ?len_cons, ?len_nil; nia).
      simpl. rewrite ?usize_small by lia.
      replace (remaining - remaining) with 0 by lia.
      destruct fuel as [|fuel]; [lia|]. simpl.
      rewrite repeat_blocks_small, serialize_cons by lia. simpl.
      unfold serialize. simpl. rewrite app_nil_r.
      f_equal. f_equal; [|lia].
      replace (out_pos + 1) with (out_pos + len [remaining]) by done.
      rewrite blit_app by (rewrite ?len_cons, ?len_nil; nia).
      done.
  - assert (remaining = 0) as -> by lia.
    unfold repeat_blocks. rewrite chunks_0. simpl.
    rewrite blit_nil. do 2 f_equal. change ((0 + 254) / 255) with 0. lia.
Qed.

Lemma write_repeat_blocks_spec row off run bpp out out_pos :
  0 <= bpp <= SIZE_MAX -> 0 <= off -> off + bpp <= len row ->
  0 <= run <= SIZE_MAX ->
  0 <= out_pos ->
  out_pos + (run + 254) / 255 * (1 + bpp) <= len out ->
  len out <= SIZE_MAX ->
  write_repeat_blocks row off run bpp out out_pos
  = Some (blit out out_pos (serialize (repeat_blocks (slice row off bpp) run)),
          out_pos + (run + 254) / 255 * (1 + bpp)).
Proof.
  intros. unfold write_repeat_blocks.
  by rewrite write_repeat_blocks_loop_spec by lia.
Qed.

(** *** Literal blocks *)

Ltac len_norm :=
  repeat first
    [ rewrite len_app | rewrite len_cons | rewrite len_nil
    | rewrite len_blit by (len_norm; lia)
    | rewrite len_slice by (len_norm; lia) ].
Ltac len_solve := len_norm; lia.

Lemma blit_seq out pos pos' l1 l2 :
  0 <= pos -> pos + len l1 <= len out -> pos' = pos + len l1 ->
  blit (blit out pos l1) pos' l2 = blit out pos (l1 ++ l2).
Proof. intros ? ? ->. by apply blit_app. Qed.

Lemma take_slice buf off n m :
  0 <= m <= n -> take (Z.to_nat m) (slice buf off n) = slice buf off m.
Proof.
  intros. unfold slice. rewrite take_take. f_equal. lia.
Qed.

Lemma drop_slice buf off n m :
  0 <= off -> 0 <= m <= n ->
  drop (Z.to_nat m) (slice buf off n) = slice buf (off + m) (n - m).
Proof.
  intros. unfold slice. rewrite skipn_firstn_comm, drop_drop.
  f_equal; [lia|]. f_equal. lia.
Qed.

Lemma chunks_first n :
  0 < n -> chunks n = Z.min n 255 :: chunks (n - Z.min n 255).
Proof.
  intros Hn. destruct (Z.le_gt_cases n 255).
  - rewrite Z.min_l, Z.sub_diag, chunks_0 by lia. by apply chunks_small.
  - rewrite Z.min_r by lia. apply chunks_step. lia.
Qed.

Lemma literal_blocks_of_len bpp counts : forall data,
  0 <= bpp -> Forall (fun c => 1 <= c <= 255) counts ->
  sum_counts counts * bpp <= len data ->
  len (serialize (literal_blocks_of bpp counts data))
  = 2 * Z.of_nat (length counts) + sum_counts counts * bpp.
Proof.
  induction counts as [|c counts IH]; intros data Hbpp Hcs Hdata; [done|].
  inversion Hcs as [|? ? Hc Hcs']; subst.
  unfold sum_counts in *. simpl in *.
  assert (0 <= foldr Z.add 0 counts).
  { clear -Hcs'. induction Hcs'; simpl; lia. }
  rewrite serialize_cons, len_app, IH; [|done|done|].
  - simpl. rewrite !len_cons. unfold len in *. rewrite length_take. nia.
  - unfold len in *. rewrite length_drop. nia.
Qed.

Lemma literal_blocks_of_expand bpp counts : forall data,
  0 <= bpp -> Forall (fun c => 1 <= c <= 255) counts ->
  expand (literal_blocks_of bpp counts data)
  = take (Z.to_nat (sum_counts counts * bpp)) data.
Proof.
  induction counts as [|c counts IH]; intros data Hbpp Hcs; [done|].
  inversion Hcs as [|? ? Hc Hcs']; subst.
  unfold sum_counts in *. simpl in *.
  assert (0 <= foldr Z.add 0 counts).
  { clear -Hcs'. induction Hcs'; simpl; lia. }
  rewrite expand_cons, IH by done. simpl.
  replace ((c + foldr Z.add 0 counts) * bpp)
    with (c * bpp + foldr Z.add 0 counts * bpp) by lia.
  rewrite Z2Nat.inj_add by nia. by rewrite take_take_drop.
Qed.

Lemma literal_blocks_of_ok bpp counts : forall data,
  0 <= bpp -> Forall (fun c => 1 <= c <= 255) counts ->
  sum_counts counts * bpp <= len data ->
  Forall (block_ok bpp) (literal_blocks_of bpp counts data).
Proof.
  induction counts as [|c counts IH]; intros data Hbpp Hcs Hdata;
    [by apply Forall_nil|].
  inversion Hcs as [|? ? Hc Hcs']; subst.
  unfold sum_counts in *. simpl in *.
  assert (0 <= foldr Z.add 0 counts).
  { clear -Hcs'. induction Hcs'; simpl; lia. }
  apply Forall_cons. split.
  - split; [done|]. unfold len in *. rewrite length_take. nia.
  - apply IH; [done|done|]. unfold len in *. rewrite length_drop. nia.
Qed.

Lemma write_literal_pixels_spec fuel :
  forall row base bpp chunk p out out_pos,
  0 <= bpp -> 0 <= p <= chunk -> chunk <= 255 ->
  (Z.to_nat (chunk - p) < fuel)%nat ->
  0 <= base -> base + chunk * bpp <= len row -> len row <= SIZE_MAX ->
  0 <= out_pos -> out_pos + (chunk - p) * bpp <= len out ->
  len out <= SIZE_MAX ->
  write_literal_pixels fuel row base bpp chunk p out out_pos
  = Some (blit out out_pos (slice row (base + p * bpp) ((chunk - p) * bpp)),
          out_pos + (chunk - p) * bpp).
Proof.
  induction fuel as [|fuel IH];
    intros row base bpp chunk p out out_pos Hbpp Hp Hchunk Hfuel Hbase Hrow
      Hrmax Hpos Hout Hmax; [lia|].
  simpl. destruct (Z.ltb_spec p chunk) as [Hlt|Hge].
  - assert (p * bpp + bpp <= chunk * bpp) by nia.
    assert (0 <= p * bpp) by nia.
    rewrite (usize_small (p * bpp)) by lia.
    rewrite usize_small by lia.
    rewrite copy_pixel_spec by lia. simpl.
    rewrite u8_small by lia.
    rewrite IH by len_solve.
    rewrite blit_seq by len_solve.
    f_equal. f_equal; [|lia]. f_equal.
    replace ((chunk - p) * bpp) with (bpp + (chunk - (p + 1)) * bpp) by lia.
    rewrite slice_app by nia. do 2 f_equal. lia.
  - replace (chunk - p) with 0 by lia. simpl.
    rewrite slice_0, blit_nil. do 2 f_equal. lia.
Qed.

Lemma chunks_length_first n :
  0 < n -> (n + 254) / 255 = 1 + (n - Z.min n 255 + 254) / 255.
Proof.
  intros Hn. destruct (Z.le_gt_cases n 255).
  - rewrite Z.min_l, Z.sub_diag by lia. rewrite ceil_255_small by lia. done.
  - rewrite Z.min_r by lia. rewrite ceil_255_step by lia. lia.
Qed.

#[local] Arguments write_literal_pixels : simpl never.

Lemma write_literal_blocks_loop_spec fuel :
  forall row start literal_pixels bpp emitted out out_pos,
  1 <= bpp -> 0 <= emitted <= literal_pixels ->
  (Z.to_nat (literal_pixels - emitted) < fuel)%nat ->
  0 <= start -> (start + literal_pixels) * bpp <= len row ->
  len row <= SIZE_MAX ->
  0 <= out_pos ->
  out_pos + 2 * ((literal_pixels - emitted + 254) / 255)
    + (literal_pixels - emitted) * bpp <= len out ->
  len out <= SIZE_MAX ->
  write_literal_blocks_loop fuel row start literal_pixels bpp emitted out
    out_pos
  = Some (blit out out_pos
            (serialize
               (literal_blocks_of bpp (chunks (literal_pixels - emitted))
                  (slice row ((start + emitted) * bpp)
                     ((literal_pixels - emitted) * bpp)))),
          out_pos + 2 * ((literal_pixels - emitted + 254) / 255)
            + (literal_pixels - emitted) * bpp).
Proof.
  induction fuel as [|fuel IH];
    intros row start literal_pixels bpp emitted out out_pos Hbpp Hem Hfuel
      Hstart Hrow Hrmax Hpos Hout Hmax; [lia|].
  simpl. destruct (Z.ltb_spec emitted literal_pixels) as [Hlt|Hge].
  - remember (literal_pixels - emitted) as n eqn:Hn_def.
    assert (0 < n) as Hn by lia.
    assert (start + literal_pixels <= len row).
    { etrans; [|exact Hrow].
      rewrite <- (Z.mul_1_r (start + literal_pixels)) at 1.
      apply Z.mul_le_mono_nonneg_l; lia. }
    rewrite (usize_small n) by lia.
    assert ((if n >? 255 then 255 else u8 n) = Z.min n 255) as ->.
    { destruct (Z.gtb_spec n 255); [lia|]. rewrite u8_small; lia. }
    pose proof (chunks_length_first n Hn) as Hceil.
    pose proof (chunks_first n Hn) as Hfirst.
    remember (Z.min n 255) as chunk eqn:Hchunk_def.
    assert (1 <= chunk <= 255 /\ chunk <= n) as [Hchunk Hchunk'] by lia.
    pose proof (ceil_255_le (n - chunk) ltac:(lia)) as Hceil'.
    assert ((start + emitted + chunk) * bpp <= (start + literal_pixels) * bpp)
      by (apply Z.mul_le_mono_nonneg_r; lia).
    assert ((start + emitted) * bpp + chunk * bpp <= len row) by lia.
    assert (0 <= (start + emitted) * bpp) by (apply Z.mul_nonneg_nonneg; lia).
    assert (0 <= chunk * bpp) by (apply Z.mul_nonneg_nonneg; lia).
    assert (chunk * bpp <= n * bpp) by (apply Z.mul_le_mono_nonneg_r; lia).
    rewrite store_blit by lia. simpl.
    rewrite (usize_small (out_pos + 1)) by lia.
    rewrite store_blit by len_solve. simpl.
    rewrite (usize_small (out_pos + 1 + 1)) by lia.
    rewrite (usize_small (start + emitted)) by lia.
    rewrite (usize_small ((start + emitted) * bpp)) by lia.
    rewrite write_literal_pixels_spec by len_solve. simpl.
    rewrite (usize_small (emitted + chunk)) by lia.
    assert (literal_pixels - (emitted + chunk) = n - chunk) as Hrest by lia.
    assert (0 <= (n - chunk) * bpp) by (apply Z.mul_nonneg_nonneg; lia).
    rewrite IH by (rewrite ?Hrest; len_solve).
    rewrite Hrest.
    f_equal. f_equal; [|lia].
    rewrite !blit_seq by len_solve.
    f_equal.
    rewrite Hfirst. simpl.
    rewrite serialize_cons. simpl.
    rewrite take_slice by lia.
    rewrite drop_slice by lia.
    rewrite Z.mul_0_l, Z.add_0_r, Z.sub_0_r.
    do 3 f_equal.
    do 3 f_equal; lia.
  - replace (literal_pixels - emitted) with 0 by lia.
    rewrite chunks_0. simpl. rewrite blit_nil.
    change ((0 + 254) / 255) with 0. do 2 f_equal. lia.
Qed.

Lemma write_literal_blocks_spec row start literal_pixels bpp out out_pos :
  1 <= bpp -> 0 <= literal_pixels ->
  0 <= start -> (start + literal_pixels) * bpp <= len row ->
  len row <= SIZE_MAX ->
  0 <= out_pos ->
  out_pos + 2 * ((literal_pixels + 254) / 255) + literal_pixels * bpp
    <= len out ->
  len out <= SIZE_MAX ->
  write_literal_blocks row start literal_pixels bpp out out_pos
  = Some (blit out out_pos
            (serialize
               (literal_blocks_of bpp (chunks literal_pixels)
                  (slice row (start * bpp) (literal_pixels * bpp)))),
          out_pos + 2 * ((literal_pixels + 254) / 255) + literal_pixels * bpp).
Proof.
  intros. unfold write_literal_blocks.
  rewrite write_literal_blocks_loop_spec by (rewrite ?Z.sub_0_r; lia).
  by rewrite Z.sub_0_r, Z.add_0_r.
Qed.

(** ** Encoder: a row *)

Lemma option_bind_Some {A B} (f : A -> option B) (x : A) : Some x ≫= f = f x.
Proof. done. Qed.

Section Encoder.

Variables (row : list Z) (width bpp : Z).
Hypothesis Hbpp : 1 <= bpp <= 3.
Hypothesis Hwidth : 0 <= width <= UINT32_MAX.
Hypothesis Hrow : width * bpp <= len row.
Hypothesis Hrow_max : len row <= SIZE_MAX.

Lemma width_bytes_max : width * bpp <= 3 * UINT32_MAX.
Proof.
  rewrite (Z.mul_comm 3). apply Z.mul_le_mono_nonneg; lia.
Qed.

Lemma pixel_in_row i :
  0 <= i < width ->
  0 <= i * bpp /\ i * bpp + bpp <= len row /\ i * bpp + bpp <= width * bpp.
Proof.
  intros Hi. split; [apply Z.mul_nonneg_nonneg; lia|].
  assert ((i + 1) * bpp <= width * bpp)
    by (apply Z.mul_le_mono_nonneg_r; lia).
  lia.
Qed.

Lemma run_from_1 start : run_from row bpp start 1.
Proof. intros i Hi. by replace i with 0 by lia; rewrite Z.add_0_r. Qed.

Lemma run_from_S start run :
  0 <= run -> run_from row bpp start run ->
  slice row ((start + run) * bpp) bpp = slice row (start * bpp) bpp ->
  run_from row bpp start (run + 1).
Proof.
  intros Hrun Hfrom Heq i Hi.
  destruct (decide (i = run)) as [->|]; [done|]. apply Hfrom. lia.
Qed.

Lemma run_from_slice start run :
  0 <= start -> 0 <= run -> start + run <= width ->
  run_from row bpp start run ->
  slice row (start * bpp) (run * bpp)
  = concat (replicate (Z.to_nat run) (slice row (start * bpp) bpp)).
Proof.
  intros Hstart Hrun. revert run Hrun.
  refine (natlike_ind _ _ _); [done|].
  intros run Hrun IH Hle Hfrom.
  rewrite Z2Nat.inj_succ, replicate_S_end, concat_app by done. simpl.
  rewrite app_nil_r, <- IH; [|lia|intros i Hi; apply Hfrom; lia].
  rewrite <- (Hfrom run) by lia.
  replace (Z.succ run * bpp) with (run * bpp + bpp) by lia.
  assert (0 <= run * bpp) by (apply Z.mul_nonneg_nonneg; lia).
  assert (0 <= start * bpp) by (apply Z.mul_nonneg_nonneg; lia).
  rewrite slice_app by lia. do 2 f_equal. lia.
Qed.

Lemma measure_run_loop_spec fuel : forall start run,
  0 <= start -> 1 <= run -> start + run <= width ->
  (Z.to_nat (width - (start + run)) < fuel)%nat ->
  exists run',
    measure_run_loop fuel row width bpp start run = Some run'
    /\ run <= run' /\ start + run' <= width
    /\ (run_from row bpp start run -> run_from row bpp start run')
    /\ (start + run' < width ->
        slice row (start * bpp) bpp <> slice row ((start + run') * bpp) bpp).
Proof.
  induction fuel as [|fuel IH]; intros start run Hstart Hrun Hle Hfuel; [lia|].
  simpl. rewrite (usize_small (start + run)), u32_small by lia.
  destruct (Z.ltb_spec (start + run) width) as [Hlt|Hge].
  - destruct (pixel_in_row start) as (? & ? & ?); [lia|].
    destruct (pixel_in_row (start + run)) as (? & ? & ?); [lia|].
    pose proof width_bytes_max.
    rewrite !usize_small by lia.
    rewrite pixels_equal_spec by lia. simpl.
    case_bool_decide as Heq; simpl.
    + destruct (IH start (run + 1)) as (run' & -> & ? & ? & Hfrom & Hmax);
        [lia..|].
      exists run'. split_and!; [done|lia|lia| |done].
      intros Hr. apply Hfrom, run_from_S; [lia|done|done].
    + exists run. split_and!; [done|lia|lia|done|done].
  - exists run. split_and!; [done|lia|lia|done|lia].
Qed.

Lemma measure_run_spec start :
  0 <= start < width ->
  exists run,
    measure_run row width bpp start = Some run
    /\ 1 <= run /\ start + run <= width
    /\ run_from row bpp start run
    /\ (start + run < width ->
        slice row (start * bpp) bpp <> slice row ((start + run) * bpp) bpp).
Proof.
  intros Hstart. unfold measure_run.
  destruct (measure_run_loop_spec (S (Z.to_nat width)) start 1)
    as (run & -> & ? & ? & Hfrom & Hmax); [lia..|].
  exists run. split_and!; [done|lia|lia| |done].
  apply Hfrom, run_from_1.
Qed.

#[local] Arguments measure_run : simpl never.

Lemma gather_literals_spec fuel : forall col,
  0 <= col <= width -> (Z.to_nat (width - col) < fuel)%nat ->
  exists col',
    gather_literals fuel row width bpp col = Some col'
    /\ col <= col' <= width.
Proof.
  induction fuel as [|fuel IH]; intros col Hcol Hfuel; [lia|].
  simpl. destruct (Z.ltb_spec col width) as [Hlt|Hge].
  - destruct (measure_run_spec col) as (run & -> & ? & ? & _); [lia|].
    simpl. destruct (Z.geb_spec run 2).
    + exists col. split; [done|lia].
    + rewrite u32_small by lia.
      destruct (IH (col + 1)) as (col' & -> & ?); [lia..|].
      exists col'. split; [done|lia].
  - exists col. split; [done|lia].
Qed.

#[local] Arguments gather_literals : simpl never.
#[local] Arguments write_repeat_blocks : simpl never.
#[local] Arguments write_literal_blocks : simpl never.

Lemma compress_row_loop_spec fuel : forall col,
  0 <= col <= width -> (Z.to_nat (width - col) < fuel)%nat ->
  exists bs,
    row_blocks fuel row width bpp col = Some bs
    /\ Forall (block_ok bpp) bs
    /\ expand bs = slice row (col * bpp) ((width - col) * bpp)
    /\ len (serialize bs) <= (width - col) * (bpp + 2)
    /\ forall out out_pos,
         0 <= out_pos -> out_pos + (width - col) * (bpp + 2) <= len out ->
         len out <= SIZE_MAX ->
         compress_row_loop fuel row width bpp col out out_pos
         = Some (blit out out_pos (serialize bs),
                 out_pos + len (serialize bs)).
Proof.
  induction fuel as [|fuel IH]; intros col Hcol Hfuel; [lia|].
  cbn [row_blocks compress_row_loop].
  destruct (Z.ltb_spec col width) as [Hlt|Hge].
  - destruct (measure_run_spec col)
      as (run & -> & Hrun1 & Hrun & Hfrom & _); [lia|].
    destruct (pixel_in_row col) as (Hpx0 & Hpx1 & Hpx2); [lia|].
    pose proof width_bytes_max as Hwb.
    assert (0 <= (width - col) * bpp) by (apply Z.mul_nonneg_nonneg; lia).
    rewrite !option_bind_Some.
    destruct (Z.geb_spec run 2) as [Hrep|Hlit].
    + (* a run of two or more pixels: repeat blocks *)
      pose proof (ceil_255_le run ltac:(lia)) as Hq.
      remember ((run + 254) / 255) as q eqn:Hq_def.
      assert (q * (1 + bpp) <= run * (1 + bpp))
        by (apply Z.mul_le_mono_nonneg_r; lia).
      assert (0 <= q * (1 + bpp)) by (apply Z.mul_nonneg_nonneg; lia).
      assert (0 <= run * bpp) by (apply Z.mul_nonneg_nonneg; lia).
      assert (0 <= (width - (col + run)) * bpp)
        by (apply Z.mul_nonneg_nonneg; lia).
      set (px := slice row (col * bpp) bpp) in *.
      assert (len px = bpp) as Hpx by (apply len_slice; lia).
      assert (len (serialize (repeat_blocks px run)) = q * (1 + bpp)) as Hlen.
      { rewrite repeat_blocks_len, Hpx by lia. by rewrite Hq_def. }
      destruct (IH (col + run)) as (bs & -> & Hok & Hexp & Hbound & Hrun_rest);
        [lia|lia|].
      rewrite option_bind_Some.
      exists (repeat_blocks px run ++ bs). split_and!.
      * done.
      * apply Forall_app. split; [|done].
        rewrite <- Hpx. apply repeat_blocks_ok. lia.
      * rewrite expand_app, Hexp, repeat_blocks_expand by lia.
        unfold px. rewrite <- run_from_slice by (done || lia).
        replace ((width - col) * bpp)
          with (run * bpp + (width - (col + run)) * bpp) by lia.
        rewrite slice_app by lia. do 2 f_equal. lia.
      * rewrite serialize_app, len_app, Hlen. lia.
      * intros out out_pos Hpos Hout Hmax.
        rewrite option_bind_Some.
        destruct (Z.geb_spec run 2); [|lia].
        rewrite (usize_small (col * bpp)) by lia.
        rewrite write_repeat_blocks_spec by (rewrite <- ?Hq_def; lia).
        rewrite option_bind_Some. rewrite <- Hq_def.
        rewrite u32_small by lia. fold px.
        rewrite Hrun_rest by (rewrite ?len_blit by lia; lia).
        rewrite serialize_app, len_app, Hlen.
        rewrite blit_seq by lia. do 2 f_equal. lia.
    + (* literal pixels up to the next run *)
      destruct (gather_literals_spec (S (Z.to_nat width)) (col + 1))
        as (col' & Hgather & Hcol'); [lia..|].
      rewrite Hgather, option_bind_Some.
      remember (col' - col) as n eqn:Hn_def.
      pose proof (ceil_255_le n ltac:(lia)) as Hq.
      remember ((n + 254) / 255) as q eqn:Hq_def.
      assert (0 <= n * bpp) by (apply Z.mul_nonneg_nonneg; lia).
      assert (n * bpp <= (width - col) * bpp)
        by (apply Z.mul_le_mono_nonneg_r; lia).
      assert (0 <= (width - col') * bpp) by (apply Z.mul_nonneg_nonneg; lia).
      assert ((col + n) * bpp <= len row).
      { assert ((col + n) * bpp <= width * bpp)
          by (apply Z.mul_le_mono_nonneg_r; lia). lia. }
      set (data := slice row (col * bpp) (n * bpp)) in *.
      assert (len data = n * bpp) as Hdata by (apply len_slice; lia).
      pose proof (chunks_bounds n ltac:(lia)) as Hcs.
      pose proof (chunks_sum n ltac:(lia)) as Hsum.
      pose proof (chunks_length n ltac:(lia)) as Hcl.
      rewrite <- Hq_def in Hcl.
      assert (len (serialize (literal_blocks_of bpp (chunks n) data))
              = 2 * q + n * bpp) as Hlen.
      { rewrite literal_blocks_of_len by (rewrite ?Hsum; lia || done).
        rewrite Hsum. lia. }
      destruct (IH col') as (bs & -> & Hok & Hexp & Hbound & Hrun_rest);
        [lia|lia|].
      rewrite option_bind_Some.
      exists (literal_blocks_of bpp (chunks n) data ++ bs). split_and!.
      * done.
      * apply Forall_app. split; [|done].
        apply literal_blocks_of_ok; [lia|done|]. rewrite Hsum. lia.
      * rewrite expand_app, Hexp, literal_blocks_of_expand by (lia || done).
        rewrite Hsum. unfold data. rewrite take_slice by lia.
        replace ((width - col) * bpp)
          with (n * bpp + (width - col') * bpp) by lia.
        rewrite slice_app by lia. do 2 f_equal. lia.
      * rewrite serialize_app, len_app, Hlen. lia.
      * intros out out_pos Hpos Hout Hmax.
        rewrite option_bind_Some.
        destruct (Z.geb_spec run 2); [lia|].
        rewrite u32_small by lia.
        rewrite Hgather, option_bind_Some. rewrite <- Hn_def.
        rewrite (usize_small n) by lia.
        rewrite write_literal_blocks_spec by (rewrite <- ?Hq_def; lia).
        rewrite option_bind_Some. rewrite <- Hq_def. fold data.
        rewrite Hrun_rest by (rewrite ?len_blit by lia; lia).
        rewrite serialize_app, len_app, Hlen.
        rewrite blit_seq by lia. do 2 f_equal. lia.
  - exists []. assert (col = width) as -> by lia.
    rewrite serialize_nil, len_nil, Z.sub_diag.
    split_and!; [done|done|done|lia|].
    intros out out_pos _ _ _. by rewrite blit_nil, Z.add_0_r.
Qed.

(** What [compress_row] leaves in the buffer is the serialisation of a list
    of well-formed blocks that expand to the row, and it is not longer than
    [width * (bpp + 2)] bytes. *)
Lemma compress_row_spec :
  exists bs,
    row_blocks (S (Z.to_nat width)) row width bpp 0 = Some bs
    /\ compressed_row row width bpp = serialize bs
    /\ Forall (block_ok bpp) bs
    /\ expand bs = slice row 0 (width * bpp)
    /\ len (serialize bs) <= width * (bpp + 2)
    /\ forall out,
         width * (bpp + 2) <= len out -> len out <= SIZE_MAX ->
         compress_row row width bpp out
         = Some (blit out 0 (serialize bs), len (serialize bs)).
Proof.
  destruct (compress_row_loop_spec (S (Z.to_nat width)) 0)
    as (bs & Heq & Hok & Hexp & Hbound & Hrun); [lia..|].
  exists bs. rewrite Z.sub_0_r in *.
  split_and!; [done| |done|done|done|].
  - unfold compressed_row. by rewrite Heq.
  - intros out Hout Hmax. unfold compress_row. by rewrite Hrun by lia.
Qed.

End Encoder.

(** ** Decoder: the helpers *)

Lemma slice_blit out pos l :
  0 <= pos -> pos + len l <= len out -> slice (blit out pos l) pos (len l) = l.
Proof.
  unfold len, slice, blit. intros.
  rewrite drop_app_length' by (rewrite length_take; lia).
  rewrite take_app_length' by lia. done.
Qed.

Lemma load_of_slice buf off n b l :
  0 <= off -> slice buf off n = b :: l -> load buf off = Some b.
Proof.
  intros Hoff Hs. rewrite load_lookup by done.
  unfold slice in Hs.
  assert (take (Z.to_nat n) (drop (Z.to_nat off) buf) !! 0%nat = Some b) as Hl
    by (by rewrite Hs).
  apply lookup_take_Some in Hl as [Hl _].
  rewrite lookup_drop in Hl. by rewrite Nat.add_0_r in Hl.
Qed.

Lemma slice_cons_tail buf off n b l :
  0 <= off -> 0 < n -> slice buf off n = b :: l ->
  slice buf (off + 1) (n - 1) = l.
Proof.
  intros Hoff Hn Hs. unfold slice in *.
  destruct (drop (Z.to_nat off) buf) as [|x rest] eqn:Hd.
  - by rewrite take_nil in Hs.
  - replace (Z.to_nat n) with (S (Z.to_nat (n - 1))) in Hs by lia.
    simpl in Hs. inversion Hs; subst.
    replace (Z.to_nat (off + 1)) with (Z.to_nat off + 1)%nat by lia.
    by rewrite <- drop_drop, Hd.
Qed.

Lemma slice_app_inv buf off l1 l2 :
  0 <= off -> slice buf off (len l1 + len l2) = l1 ++ l2 ->
  slice buf off (len l1) = l1 /\ slice buf (off + len l1) (len l2) = l2.
Proof.
  intros Hoff Hs. pose proof (len_nonneg l1). pose proof (len_nonneg l2).
  rewrite slice_app in Hs by lia.
  assert (length (slice buf off (len l1)) = length l1) as Hlen.
  { apply (f_equal length) in Hs. rewrite !length_app in Hs.
    assert (length (slice buf off (len l1)) <= length l1)%nat
      by (unfold slice, len; rewrite length_take; lia).
    assert (length (slice buf (off + len l1) (len l2)) <= length l2)%nat
      by (unfold slice, len; rewrite length_take; lia).
    lia. }
  by apply app_inj_1 in Hs.
Qed.

Lemma slice_bound buf off n l :
  0 <= off -> 0 < n -> slice buf off n = l -> len l = n ->
  off + n <= len buf.
Proof.
  intros Hoff Hn <-. unfold len, slice. rewrite length_take, length_drop. lia.
Qed.

Lemma read_pixel_loop_spec fuel : forall comp bpp k pixel_buffer cp,
  0 <= k <= bpp -> bpp <= len pixel_buffer -> len pixel_buffer <= SIZE_MAX ->
  (Z.to_nat (bpp - k) < fuel)%nat ->
  0 <= cp -> cp + (bpp - k) <= len comp -> cp + (bpp - k) <= SIZE_MAX ->
  read_pixel_loop fuel comp bpp k pixel_buffer cp
  = Some (blit pixel_buffer k (slice comp cp (bpp - k)), cp + (bpp - k)).
Proof.
  induction fuel as [|fuel IH];
    intros comp bpp k pb cp Hk Hpb Hpbmax Hfuel Hcp Hcomp Hmax; [lia|].
  simpl. destruct (Z.ltb_spec k bpp) as [Hlt|Hge].
  - destruct (load_slice comp cp) as (b & -> & Hb); [lia|].
    rewrite option_bind_Some, store_blit by lia.
    rewrite option_bind_Some, !usize_small by lia.
    rewrite IH by len_solve.
    rewrite blit_seq by len_solve.
    f_equal. f_equal; [|lia]. f_equal.
    replace (bpp - k) with (1 + (bpp - (k + 1))) by lia.
    rewrite slice_app, Hb by lia. do 2 f_equal; lia.
  - replace (bpp - k) with 0 by lia.
    rewrite slice_0, blit_nil. do 2 f_equal. lia.
Qed.

Lemma emit_pixel_loop_spec fuel : forall pixel_buffer bpp k out_row op,
  0 <= k <= bpp -> bpp <= len pixel_buffer -> len pixel_buffer <= SIZE_MAX ->
  (Z.to_nat (bpp - k) < fuel)%nat ->
  0 <= op -> op + (bpp - k) <= len out_row -> op + (bpp - k) <= SIZE_MAX ->
  emit_pixel_loop fuel pixel_buffer bpp k out_row op
  = Some (blit out_row op (slice pixel_buffer k (bpp - k)), op + (bpp - k)).
Proof.
  induction fuel as [|fuel IH];
    intros pb bpp k out op Hk Hpb Hpbmax Hfuel Hop Hout Hmax; [lia|].
  simpl. destruct (Z.ltb_spec k bpp) as [Hlt|Hge].
  - destruct (load_slice pb k) as (b & -> & Hb); [lia|].
    rewrite option_bind_Some, store_blit by lia.
    rewrite option_bind_Some, !usize_small by lia.
    rewrite IH by len_solve.
    rewrite blit_seq by len_solve.
    f_equal. f_equal; [|lia]. f_equal.
    replace (bpp - k) with (1 + (bpp - (k + 1))) by lia.
    rewrite slice_app, Hb by lia. do 2 f_equal; lia.
  - replace (bpp - k) with 0 by lia.
    rewrite slice_0, blit_nil. do 2 f_equal. lia.
Qed.

#[local] Arguments emit_pixel_loop : simpl never.

Lemma emit_repeat_loop_spec fuel : forall pixel_buffer bpp repeat_count r out_row op,
  0 <= bpp -> bpp <= len pixel_buffer -> len pixel_buffer <= SIZE_MAX ->
  0 <= r <= repeat_count -> repeat_count <= 255 ->
  (Z.to_nat (repeat_count - r) < fuel)%nat ->
  0 <= op -> op + (repeat_count - r) * bpp <= len out_row ->
  op + (repeat_count - r) * bpp <= SIZE_MAX ->
  emit_repeat_loop fuel pixel_buffer bpp repeat_count r out_row op
  = Some (blit out_row op
            (concat (replicate (Z.to_nat (repeat_count - r))
                       (slice pixel_buffer 0 bpp))),
          op + (repeat_count - r) * bpp).
Proof.
  induction fuel as [|fuel IH];
    intros pb bpp count r out op Hbpp Hpb Hpbmax Hr Hcount Hfuel Hop Hout Hmax;
    [lia|].
  simpl. destruct (Z.ltb_spec r count) as [Hlt|Hge].
  - assert (bpp + (count - (r + 1)) * bpp = (count - r) * bpp) as Hsplit by lia.
    assert (0 <= (count - (r + 1)) * bpp) by (apply Z.mul_nonneg_nonneg; lia).
    rewrite emit_pixel_loop_spec by lia.
    rewrite option_bind_Some, u8_small by lia.
    rewrite Z.sub_0_r.
    assert (len (slice pb 0 bpp) = bpp) as Hpx by (apply len_slice; lia).
    rewrite IH by len_solve.
    rewrite blit_seq by len_solve.
    f_equal. f_equal; [|lia]. f_equal.
    replace (Z.to_nat (count - r)) with (S (Z.to_nat (count - (r + 1)))) by lia.
    done.
  - replace (count - r) with 0 by lia. simpl.
    rewrite blit_nil. do 2 f_equal. lia.
Qed.

Lemma copy_literal_pixel_spec fuel : forall comp bpp k out cp op,
  0 <= k <= bpp -> bpp <= SIZE_MAX -> (Z.to_nat (bpp - k) < fuel)%nat ->
  0 <= cp -> cp + (bpp - k) <= len comp -> cp + (bpp - k) <= SIZE_MAX ->
  0 <= op -> op + (bpp - k) <= len out -> op + (bpp - k) <= SIZE_MAX ->
  copy_literal_pixel fuel comp bpp k (DState out cp op)
  = Some (DState (blit out op (slice comp cp (bpp - k))) (cp + (bpp - k))
            (op + (bpp - k))).
Proof.
  induction fuel as [|fuel IH];
    intros comp bpp k out cp op Hk Hbpp Hfuel Hcp Hcomp Hcmax Hop Hout Hmax;
    [lia|].
  simpl. destruct (Z.ltb_spec k bpp) as [Hlt|Hge].
  - destruct (load_slice comp cp) as (b & -> & Hb); [lia|].
    rewrite option_bind_Some, store_blit by lia.
    rewrite option_bind_Some, !usize_small by lia.
    rewrite IH by len_solve.
    rewrite blit_seq by len_solve.
    f_equal. f_equal; [|lia|lia]. f_equal.
    replace (bpp - k) with (1 + (bpp - (k + 1))) by lia.
    rewrite slice_app, Hb by lia. do 2 f_equal; lia.
  - replace (bpp - k) with 0 by lia.
    rewrite slice_0, blit_nil. do 2 f_equal; lia.
Qed.

#[local] Arguments copy_literal_pixel : simpl never.

Lemma copy_literal_loop_spec fuel : forall comp bpp literal_count p out cp op,
  0 <= bpp <= SIZE_MAX -> 0 <= p <= literal_count -> literal_count <= 255 ->
  (Z.to_nat (literal_count - p) < fuel)%nat ->
  0 <= cp -> cp + (literal_count - p) * bpp <= len comp ->
  cp + (literal_count - p) * bpp <= SIZE_MAX ->
  0 <= op -> op + (literal_count - p) * bpp <= len out ->
  op + (literal_count - p) * bpp <= SIZE_MAX ->
  copy_literal_loop fuel comp bpp literal_count p (DState out cp op)
  = Some (DState (blit out op (slice comp cp ((literal_count - p) * bpp)))
            (cp + (literal_count - p) * bpp)
            (op + (literal_count - p) * bpp)).
Proof.
  induction fuel as [|fuel IH];
    intros comp bpp count p out cp op Hbpp Hp Hcount Hfuel Hcp Hcomp Hcmax Hop
      Hout Hmax; [lia|].
  simpl. destruct (Z.ltb_spec p count) as [Hlt|Hge].
  - assert (bpp + (count - (p + 1)) * bpp = (count - p) * bpp) as Hsplit by lia.
    assert (0 <= (count - (p + 1)) * bpp) by (apply Z.mul_nonneg_nonneg; lia).
    rewrite copy_literal_pixel_spec by lia.
    rewrite option_bind_Some, u8_small by lia.
    rewrite Z.sub_0_r.
    rewrite IH by len_solve.
    rewrite blit_seq by len_solve.
    f_equal. f_equal; [|lia|lia]. f_equal.
    rewrite <- Hsplit. rewrite slice_app by lia. done.
  - replace (count - p) with 0 by lia. simpl.
    rewrite slice_0, blit_nil. do 2 f_equal; lia.
Qed.

#[local] Arguments read_pixel_loop : simpl never.
#[local] Arguments emit_repeat_loop : simpl never.
#[local] Arguments copy_literal_loop : simpl never.

Lemma load_byte buf i b : bytes buf -> load buf i = Some b -> 0 <= b <= 255.
Proof.
  unfold bytes, load. intros Hb Hl. case_bool_decide; [|done].
  eapply Forall_lookup_1 in Hb; [|done]. unfold is_byte in Hb. lia.
Qed.

Lemma load_Some buf i : 0 <= i < len buf -> exists b, load buf i = Some b.
Proof. intros Hi. destruct (load_slice buf i Hi) as (b & ? & _). by exists b. Qed.

(** ** Decoder: one block *)

Section Decoder.

Variables (comp : list Z) (row_len row_bytes bpp : Z).
Hypothesis Hbpp : 1 <= bpp <= 3.
Hypothesis Hrow_len : 0 <= row_len <= len comp.
Hypothesis Hrow_len_max : row_len <= UINT16_MAX.
Hypothesis Hrow_bytes : 0 <= row_bytes <= 3 * UINT32_MAX.

Lemma decompress_repeat_block_spec out cp op repeat_count :
  0 <= cp <= row_len -> 0 <= op <= row_bytes ->
  row_bytes <= len out ->
  0 <= repeat_count <= 255 ->
  decompress_repeat_block comp row_len row_bytes bpp (DState out cp op)
    repeat_count
  = Some
      (if cp + bpp >? row_len then (false, DState out cp op)
       else if op + repeat_count * bpp >? row_bytes
       then (false, DState out (cp + bpp) op)
       else (true,
             DState
               (blit out op
                  (concat (replicate (Z.to_nat repeat_count)
                             (slice comp cp bpp))))
               (cp + bpp) (op + repeat_count * bpp))).
Proof.
  intros Hcp Hop Hout Hcount.
  unfold decompress_repeat_block. simpl.
  rewrite (usize_small (cp + bpp)) by lia.
  destruct (Z.gtb_spec (cp + bpp) row_len) as [Hgt|Hle]; [done|].
  rewrite read_pixel_loop_spec
    by (rewrite ?len_malloc by lia; lia).
  rewrite option_bind_Some. rewrite Z.sub_0_r.
  assert (0 <= repeat_count * bpp <= 255 * 3) as Hreq.
  { split; [apply Z.mul_nonneg_nonneg; lia|].
    apply Z.mul_le_mono_nonneg; lia. }
  rewrite (usize_small (repeat_count * bpp)) by lia.
  rewrite (usize_small (op + repeat_count * bpp)) by lia.
  destruct (Z.gtb_spec (op + repeat_count * bpp) row_bytes) as [Hgt|Hle'];
    [done|].
  assert (len (slice comp cp bpp) = bpp) as Hpx by (apply len_slice; lia).
  rewrite emit_repeat_loop_spec;
    [|lia|rewrite len_blit; rewrite ?len_malloc, ?Hpx; lia
     |rewrite len_blit; rewrite ?len_malloc, ?Hpx; lia|lia..].
  rewrite option_bind_Some, !Z.sub_0_r.
  rewrite <- Hpx at 2.
  rewrite slice_blit by (rewrite ?len_malloc, ?Hpx; lia).
  done.
Qed.

Lemma decompress_literal_block_spec out cp op literal_count :
  0 <= cp <= row_len -> 0 <= op <= row_bytes ->
  row_bytes <= len out ->
  (cp < row_len -> load comp cp = Some literal_count) ->
  0 <= literal_count <= 255 ->
  decompress_literal_block comp row_len row_bytes bpp (DState out cp op)
  = Some
      (if cp >=? row_len then (false, DState out cp op)
       else if literal_count =? 0 then (false, DState out (cp + 1) op)
       else if cp + 1 + literal_count * bpp >? row_len
       then (false, DState out (cp + 1) op)
       else if op + literal_count * bpp >? row_bytes
       then (false, DState out (cp + 1) op)
       else (true,
             DState
               (blit out op (slice comp (cp + 1) (literal_count * bpp)))
               (cp + 1 + literal_count * bpp)
               (op + literal_count * bpp))).
Proof.
  intros Hcp Hop Hout Hload Hcount.
  unfold decompress_literal_block. simpl.
  destruct (Z.geb_spec cp row_len) as [Hge|Hlt]; [done|].
  rewrite Hload by done. rewrite option_bind_Some.
  rewrite (usize_small (cp + 1)) by lia.
  destruct (Z.eqb_spec literal_count 0) as [H0|H0]; [done|].
  assert (0 <= literal_count * bpp <= 255 * 3) as Hneeded.
  { split; [apply Z.mul_nonneg_nonneg; lia|].
    apply Z.mul_le_mono_nonneg; lia. }
  rewrite (usize_small (literal_count * bpp)) by lia.
  rewrite (usize_small (cp + 1 + literal_count * bpp)) by lia.
  destruct (Z.gtb_spec (cp + 1 + literal_count * bpp) row_len) as [Hgt|Hle];
    [done|].
  rewrite (usize_small (op + literal_count * bpp)) by lia.
  destruct (Z.gtb_spec (op + literal_count * bpp) row_bytes) as [Hgt|Hle'];
    [done|].
  rewrite copy_literal_loop_spec by lia.
  rewrite option_bind_Some, !Z.sub_0_r. done.
Qed.

Lemma gtb_false x y : x <= y -> (x >? y) = false.
Proof. intros. destruct (Z.gtb_spec x y); [lia|done]. Qed.

Lemma gtb_true x y : y < x -> (x >? y) = true.
Proof. intros. destruct (Z.gtb_spec x y); [done|lia]. Qed.

Lemma geb_false x y : x < y -> (x >=? y) = false.
Proof. intros. destruct (Z.geb_spec x y); [lia|done]. Qed.

Lemma geb_true x y : y <= x -> (x >=? y) = true.
Proof. intros. destruct (Z.geb_spec x y); [done|lia]. Qed.

Lemma ltb_true x y : x < y -> (x <? y) = true.
Proof. intros. by apply Z.ltb_lt. Qed.

Lemma ltb_false x y : y <= x -> (x <? y) = false.
Proof. intros. by apply Z.ltb_ge. Qed.

Lemma eqb_false x y : x <> y -> (x =? y) = false.
Proof. intros. by apply Z.eqb_neq. Qed.

#[local] Arguments decompress_repeat_block : simpl never.
#[local] Arguments decompress_literal_block : simpl never.

Lemma block_sizes b :
  block_ok bpp b ->
  2 <= len (block_bytes b) /\ 1 <= len (block_pixels b)
  /\ len (block_pixels b) <= 255 * 3.
Proof.
  destruct b as [c px|c pl]; simpl; intros [Hc Hlen].
  - rewrite len_cons, len_concat_replicate, Hlen.
    assert (c * 1 <= c * bpp) by (apply Z.mul_le_mono_nonneg_l; lia).
    assert (c * bpp <= 255 * 3) by (apply Z.mul_le_mono_nonneg; lia).
    lia.
  - rewrite !len_cons, Hlen.
    assert (c * 1 <= c * bpp) by (apply Z.mul_le_mono_nonneg_l; lia).
    assert (c * bpp <= 255 * 3) by (apply Z.mul_le_mono_nonneg; lia).
    lia.
Qed.

(** Decoding runs through a sequence of well-formed blocks that fit both
    the compressed row and the output row. *)
Lemma decompress_row_loop_blocks bs : forall fuel out cp op,
  Forall (block_ok bpp) bs ->
  0 <= cp -> 0 <= op ->
  slice comp cp (len (serialize bs)) = serialize bs ->
  cp + len (serialize bs) <= row_len ->
  op + len (expand bs) <= row_bytes -> row_bytes <= len out ->
  decompress_row_loop (length bs + fuel) comp row_len row_bytes bpp
    (DState out cp op)
  = decompress_row_loop fuel comp row_len row_bytes bpp
      (DState (blit out op (expand bs)) (cp + len (serialize bs))
         (op + len (expand bs))).
Proof.
  induction bs as [|b bs IH]; intros fuel out cp op Hok Hcp Hop Hs Hcl Hol Hout.
  - simpl. rewrite serialize_nil, expand_nil, blit_nil, len_nil, !Z.add_0_r.
    done.
  - inversion Hok as [|? ? Hb Hbs]; subst.
    rewrite serialize_cons, expand_cons, !len_app in *.
    destruct (block_sizes b Hb) as (Hbb & Hbp & Hbp').
    pose proof (len_nonneg (serialize bs)).
    pose proof (len_nonneg (expand bs)).
    apply slice_app_inv in Hs as [Hs1 Hs2]; [|done].
    change (length (b :: bs) + fuel)%nat with (S (length bs + fuel)).
    cbn [decompress_row_loop d_out d_cp d_op].
    rewrite (ltb_true op row_bytes) by lia.
    rewrite (ltb_true cp row_len) by lia.
    cbn [andb].
    rewrite (usize_small (cp + 1)) by lia.
    destruct b as [c px|c pl]; simpl in Hb, Hs1, Hs2, Hbb, Hbp, Hol, Hcl |- *;
      destruct Hb as [Hc Hlen].
    + rewrite (load_of_slice _ _ _ _ _ Hcp Hs1), option_bind_Some.
      apply slice_cons_tail in Hs1; [|lia..].
      rewrite len_cons in *.
      replace (1 + len px - 1) with bpp in Hs1 by lia.
      rewrite (eqb_false c 0) by lia.
      cbn [negb].
      rewrite decompress_repeat_block_spec by lia.
      rewrite len_concat_replicate, Z2Nat.id, Hlen in * by lia.
      rewrite (gtb_false (cp + 1 + bpp) (row_len)) by lia.
      rewrite (gtb_false (op + c * bpp) (row_bytes)) by lia.
      rewrite option_bind_Some. cbn [negb].
      rewrite Hs1.
      assert (len (concat (replicate (Z.to_nat c) px)) = c * bpp) as Hpl
        by (rewrite len_concat_replicate, Z2Nat.id, Hlen; lia).
      rewrite IH;
        [|first [done|lia|rewrite len_blit; lia
                |etrans; [|exact Hs2]; f_equal; lia]..].
      rewrite blit_seq by lia.
      do 2 f_equal; lia.
    + rewrite (load_of_slice _ _ _ _ _ Hcp Hs1), option_bind_Some.
      apply slice_cons_tail in Hs1; [|lia..].
      rewrite !len_cons in *.
      assert (load comp (cp + 1) = Some c) as Hcount
        by (eapply load_of_slice; [|exact Hs1]; lia).
      apply slice_cons_tail in Hs1; [|lia..].
      replace (1 + (1 + len pl) - 1 - 1) with (c * bpp) in Hs1 by lia.
      replace (cp + 1 + 1) with (cp + 2) in Hs1 by lia.
      cbn [Z.eqb negb].
      rewrite (decompress_literal_block_spec _ _ _ c) by (done || lia).
      rewrite (geb_false (cp + 1) (row_len)) by lia.
      rewrite (eqb_false c 0) by lia.
      rewrite (gtb_false (cp + 1 + 1 + c * bpp) (row_len)) by lia.
      rewrite (gtb_false (op + c * bpp) (row_bytes)) by lia.
      rewrite option_bind_Some. cbn [negb].
      replace (cp + 1 + 1) with (cp + 2) by lia.
      rewrite Hs1.
      rewrite IH;
        [|first [done|lia|rewrite len_blit; lia
                |etrans; [|exact Hs2]; f_equal; lia]..].
      rewrite blit_seq by lia.
      do 2 f_equal; lia.
Qed.

Lemma decompress_row_loop_done fuel s :
  row_bytes <= d_op s \/ row_len <= d_cp s ->
  decompress_row_loop (S fuel) comp row_len row_bytes bpp s = Some (true, s).
Proof.
  intros Hdone. cbn [decompress_row_loop].
  destruct (Z.ltb_spec (d_op s) row_bytes), (Z.ltb_spec (d_cp s) row_len);
    try done; lia.
Qed.

Lemma serialize_min_len bs :
  Forall (block_ok bpp) bs -> 2 * Z.of_nat (length bs) <= len (serialize bs).
Proof.
  induction 1 as [|b bs Hb Hbs IH]; [done|].
  rewrite serialize_cons, len_app. destruct (block_sizes b Hb) as (? & _).
  simpl length. lia.
Qed.

(** One turn of the loop on a repeat block. *)
Lemma decompress_row_loop_repeat fuel out cp op tag :
  0 <= cp < row_len -> 0 <= op < row_bytes -> row_bytes <= len out ->
  load comp cp = Some tag -> 1 <= tag <= 255 ->
  decompress_row_loop (S fuel) comp row_len row_bytes bpp (DState out cp op)
  = if cp + 1 + bpp >? row_len then Some (false, DState out (cp + 1) op)
    else if op + tag * bpp >? row_bytes
    then Some (false, DState out (cp + 1 + bpp) op)
    else
      decompress_row_loop fuel comp row_len row_bytes bpp
        (DState
           (blit out op
              (concat (replicate (Z.to_nat tag) (slice comp (cp + 1) bpp))))
           (cp + 1 + bpp) (op + tag * bpp)).
Proof.
  intros Hcp Hop Hout Htag Hrange.
  cbn [decompress_row_loop d_out d_cp d_op].
  rewrite (ltb_true op row_bytes), (ltb_true cp row_len) by lia.
  cbn [andb]. rewrite Htag, option_bind_Some.
  rewrite (eqb_false tag 0) by lia. cbn [negb].
  rewrite (usize_small (cp + 1)) by lia.
  rewrite decompress_repeat_block_spec by lia.
  rewrite option_bind_Some.
  destruct (cp + 1 + bpp >? row_len); [done|].
  by destruct (op + tag * bpp >? row_bytes).
Qed.

(** One turn of the loop on a literal block. *)
Lemma decompress_row_loop_literal fuel out cp op literal_count :
  0 <= cp < row_len -> 0 <= op < row_bytes -> row_bytes <= len out ->
  load comp cp = Some 0 ->
  (cp + 1 < row_len -> load comp (cp + 1) = Some literal_count) ->
  0 <= literal_count <= 255 ->
  decompress_row_loop (S fuel) comp row_len row_bytes bpp (DState out cp op)
  = if cp + 1 >=? row_len then Some (false, DState out (cp + 1) op)
    else if literal_count =? 0 then Some (false, DState out (cp + 1 + 1) op)
    else if cp + 1 + 1 + literal_count * bpp >? row_len
    then Some (false, DState out (cp + 1 + 1) op)
    else if op + literal_count * bpp >? row_bytes
    then Some (false, DState out (cp + 1 + 1) op)
    else
      decompress_row_loop fuel comp row_len row_bytes bpp
        (DState
           (blit out op (slice comp (cp + 1 + 1) (literal_count * bpp)))
           (cp + 1 + 1 + literal_count * bpp) (op + literal_count * bpp)).
Proof.
  intros Hcp Hop Hout Htag Hcount Hrange.
  cbn [decompress_row_loop d_out d_cp d_op].
  rewrite (ltb_true op row_bytes), (ltb_true cp row_len) by lia.
  cbn [andb]. rewrite Htag, option_bind_Some.
  cbn [Z.eqb negb].
  rewrite (usize_small (cp + 1)) by lia.
  rewrite (decompress_literal_block_spec _ _ _ literal_count)
    by (done || lia).
  rewrite option_bind_Some.
  destruct (cp + 1 >=? row_len); [done|].
  destruct (literal_count =? 0); [done|].
  destruct (cp + 1 + 1 + literal_count * bpp >? row_len); [done|].
  by destruct (op + literal_count * bpp >? row_bytes).
Qed.

(** The loop never reads or writes outside [comp] and [out_row], and it
    comes to an end. *)
Lemma decompress_row_loop_safe fuel : forall out cp op,
  bytes comp ->
  0 <= cp <= row_len -> 0 <= op <= row_bytes -> row_bytes <= len out ->
  (Z.to_nat (row_len - cp) < fuel)%nat ->
  exists ok s,
    decompress_row_loop fuel comp row_len row_bytes bpp (DState out cp op)
    = Some (ok, s)
    /\ len (d_out s) = len out.
Proof.
  induction fuel as [|fuel IH]; intros out cp op Hbytes Hcp Hop Hout Hfuel;
    [lia|].
  destruct (decide (op < row_bytes /\ cp < row_len)) as [[Hop' Hcp']|Hdone].
  - destruct (load_Some comp cp) as [tag Htag]; [lia|].
    pose proof (load_byte _ _ _ Hbytes Htag) as Htag_range.
    destruct (decide (tag = 0)) as [->|Hne].
    + assert (exists c, (cp + 1 < row_len -> load comp (cp + 1) = Some c)
                        /\ 0 <= c <= 255) as (c & Hc & Hc_range).
      { destruct (decide (cp + 1 < row_len)) as [Hlt|Hge].
        - destruct (load_Some comp (cp + 1)) as [c Hc]; [lia|].
          exists c. split; [done|]. by eapply load_byte.
        - exists 0. split; [lia|lia]. }
      rewrite (decompress_row_loop_literal _ _ _ _ c) by (done || lia).
      destruct (Z.geb_spec (cp + 1) row_len); [by eauto|].
      destruct (Z.eqb_spec c 0); [by eauto|].
      destruct (Z.gtb_spec (cp + 1 + 1 + c * bpp) row_len); [by eauto|].
      destruct (Z.gtb_spec (op + c * bpp) row_bytes); [by eauto|].
      assert (0 <= c * bpp) by (apply Z.mul_nonneg_nonneg; lia).
      assert (len (slice comp (cp + 1 + 1) (c * bpp)) = c * bpp) as Hpl
        by (apply len_slice; lia).
      destruct (IH (blit out op (slice comp (cp + 1 + 1) (c * bpp)))
                  (cp + 1 + 1 + c * bpp) (op + c * bpp))
        as (ok & s & -> & Hlen);
        [done|lia|lia|rewrite len_blit; lia|lia|].
      exists ok, s. split; [done|]. rewrite Hlen, len_blit; lia.
    + rewrite (decompress_row_loop_repeat _ _ _ _ tag) by (done || lia).
      destruct (Z.gtb_spec (cp + 1 + bpp) row_len); [by eauto|].
      destruct (Z.gtb_spec (op + tag * bpp) row_bytes); [by eauto|].
      assert (0 <= tag * bpp) by (apply Z.mul_nonneg_nonneg; lia).
      assert (len (concat (replicate (Z.to_nat tag) (slice comp (cp + 1) bpp)))
              = tag * bpp) as Hpl.
      { rewrite len_concat_replicate, len_slice by lia. lia. }
      destruct (IH (blit out op
                      (concat (replicate (Z.to_nat tag)
                                 (slice comp (cp + 1) bpp))))
                  (cp + 1 + bpp) (op + tag * bpp))
        as (ok & s & -> & Hlen);
        [done|lia|lia|rewrite len_blit; lia|lia|].
      exists ok, s. split; [done|]. rewrite Hlen, len_blit; lia.
  - rewrite decompress_row_loop_done by (simpl; lia). by eauto.
Qed.

End Decoder.

(** ** Decoder: a row *)

Lemma decompress_row_blocks comp row_len out bpp bs :
  1 <= bpp <= 3 -> Forall (block_ok bpp) bs ->
  slice comp 0 (len (serialize bs)) = serialize bs ->
  len (serialize bs) <= row_len -> row_len <= UINT16_MAX ->
  row_len <= len comp ->
  len (expand bs) <= len out -> len (expand bs) <= 3 * UINT32_MAX ->
  decompress_row comp row_len out (len (expand bs)) bpp
  = Some (true, blit out 0 (expand bs)).
Proof.
  intros Hbpp Hok Hs Hlen Hmax Hcomp Hout Hbytes.
  pose proof (len_nonneg (serialize bs)). pose proof (len_nonneg (expand bs)).
  pose proof (serialize_min_len bpp Hbpp bs Hok) as Hmin.
  unfold decompress_row. rewrite u16_small by lia.
  replace (S (Z.to_nat row_len))
    with (length bs + S (Z.to_nat row_len - length bs))%nat by lia.
  rewrite (decompress_row_loop_blocks comp row_len (len (expand bs)) bpp)
    by (done || lia).
  rewrite decompress_row_loop_done by (simpl; lia).
  rewrite option_bind_Some. cbn [negb d_op d_out].
  by rewrite Z.add_0_l, Z.eqb_refl.
Qed.

(** ** Rows of one repeated pixel *)

Lemma slice_concat_replicate (px : list Z) n i :
  0 <= i < n ->
  slice (concat (replicate (Z.to_nat n) px)) (i * len px) (len px) = px.
Proof.
  intros Hi. pose proof (len_nonneg px).
  replace (Z.to_nat n) with (Z.to_nat i + S (Z.to_nat (n - i - 1)))%nat by lia.
  rewrite replicate_add, concat_app. simpl.
  unfold slice.
  rewrite drop_app_length'.
  - unfold len. rewrite Nat2Z.id. by rewrite take_app_length.
  - assert (len (concat (replicate (Z.to_nat i) px)) = i * len px) as Hl
      by (rewrite len_concat_replicate; lia).
    unfold len in *. lia.
Qed.

Section Constant_row.

Variables (px : list Z) (width bpp : Z).
Hypothesis Hbpp : 1 <= bpp <= 3.
Hypothesis Hpx : len px = bpp.
Hypothesis Hwidth : 2 <= width <= UINT32_MAX.

#[local] Abbreviation row := (constant_row px width).

Lemma constant_row_len : len row = width * bpp.
Proof. unfold constant_row. rewrite len_concat_replicate, Hpx. lia. Qed.

Lemma constant_row_pixel i : 0 <= i < width -> slice row (i * bpp) bpp = px.
Proof.
  intros. unfold constant_row. rewrite <- Hpx.
  by apply slice_concat_replicate.
Qed.

Lemma constant_row_measure_run : measure_run row width bpp 0 = Some width.
Proof.
  pose proof constant_row_len as Hlen.
  destruct (measure_run_spec row width bpp) with (start := 0)
    as (run & Heq & Hrun1 & Hrun & _ & Hmax); [lia..|].
  rewrite Heq. f_equal.
  destruct (decide (run < width)) as [Hlt|]; [|lia].
  exfalso. apply Hmax; [lia|].
  rewrite !constant_row_pixel by lia. done.
Qed.

Lemma constant_row_blocks :
  row_blocks (S (Z.to_nat width)) row width bpp 0
  = Some (repeat_blocks px width).
Proof.
  cbn [row_blocks].
  rewrite (ltb_true 0 width) by lia.
  rewrite constant_row_measure_run, option_bind_Some.
  rewrite (geb_true width 2) by lia.
  rewrite Z.add_0_l.
  destruct (Z.to_nat width) as [|n] eqn:Hn; [lia|].
  cbn [row_blocks]. rewrite (ltb_false width width) by lia.
  rewrite option_bind_Some, app_nil_r.
  change (0 * bpp) with 0. rewrite <- (Z.mul_0_l bpp).
  rewrite constant_row_pixel by lia. done.
Qed.

Lemma constant_row_compressed :
  compressed_row row width bpp = serialize (repeat_blocks px width).
Proof. unfold compressed_row. by rewrite constant_row_blocks. Qed.

Lemma constant_row_compressed_len :
  len (compressed_row row width bpp) = (width + 254) / 255 * (1 + bpp).
Proof.
  rewrite constant_row_compressed, repeat_blocks_len, Hpx by lia. done.
Qed.

End Constant_row.

(** ** Decoder: rejection of malformed rows *)

Lemma expand_max_len bpp bs :
  1 <= bpp <= 3 -> Forall (block_ok bpp) bs ->
  len (expand bs) <= 765 * Z.of_nat (length bs).
Proof.
  intros Hbpp. induction 1 as [|b bs Hb Hbs IH]; [done|].
  rewrite expand_cons, len_app.
  destruct (block_sizes bpp Hbpp b Hb) as (_ & _ & ?).
  simpl length. lia.
Qed.

Section Rejection.

Variables (comp : list Z) (row_len row_bytes bpp : Z) (out_row : list Z).
Variable bs : list block.
Hypothesis Hbpp : 1 <= bpp <= 3.
Hypothesis Hbytes : bytes comp.
Hypothesis Hrow_len : 0 <= row_len <= UINT16_MAX.
Hypothesis Hcomp : row_len <= len comp.
Hypothesis Hrow_bytes : 0 <= row_bytes <= 3 * UINT32_MAX.
Hypothesis Hout : row_bytes <= len out_row.
Hypothesis Hok : Forall (block_ok bpp) bs.
Hypothesis Hprefix : slice comp 0 (len (serialize bs)) = serialize bs.
Hypothesis Hcp : len (serialize bs) <= row_len.
Hypothesis Hop : len (expand bs) <= row_bytes.

(** After the blocks [bs] the loop goes on from the cursors behind them. *)
Lemma decompress_row_prefix :
  exists fuel,
    decompress_row comp row_len out_row row_bytes bpp
    = '(ok, s) ← decompress_row_loop (S fuel) comp row_len row_bytes bpp
                   (DState (blit out_row 0 (expand bs)) (len (serialize bs))
                      (len (expand bs)));
      if negb ok then Some (false, d_out s)
      else if negb (d_op s =? row_bytes) then Some (false, d_out s)
      else Some (true, d_out s).
Proof.
  pose proof (serialize_min_len bpp Hbpp bs Hok) as Hmin.
  pose proof (len_nonneg (serialize bs)). pose proof (len_nonneg (expand bs)).
  exists (Z.to_nat row_len - length bs)%nat.
  unfold decompress_row. rewrite u16_small by lia.
  replace (S (Z.to_nat row_len))
    with (length bs + S (Z.to_nat row_len - length bs))%nat by lia.
  rewrite (decompress_row_loop_blocks comp row_len row_bytes bpp)
    by (done || lia).
  by rewrite !Z.add_0_l.
Qed.

Lemma decompress_row_malformed :
  len (serialize bs) < row_len -> len (expand bs) < row_bytes ->
  malformed comp row_len row_bytes bpp (len (serialize bs))
    (len (expand bs)) ->
  decompress_row comp row_len out_row row_bytes bpp
  = Some (false, blit out_row 0 (expand bs)).
Proof.
  intros Hcp' Hop' Hbad.
  pose proof (len_nonneg (serialize bs)). pose proof (len_nonneg (expand bs)).
  destruct decompress_row_prefix as [fuel ->].
  assert (row_bytes <= len (blit out_row 0 (expand bs)))
    by (rewrite len_blit; lia).
  assert (forall i b, load comp i = Some b -> 0 <= b <= 255) as Hbyte
    by (intros i b; by apply load_byte).
  remember (len (serialize bs)) as cp eqn:Hcp_def.
  remember (len (expand bs)) as op eqn:Hop_def.
  destruct Hbad as [Htag Hlt Hcount|tag Htag Hne Hend|Htag Hend
                   |count Htag Hlt Hcount Hend|tag Htag Hne Hover
                   |count Htag Hlt Hcount Hover].
  - rewrite decompress_row_loop_literal with (literal_count := 0)
      by (done || lia).
    rewrite (geb_false (cp + 1) row_len) by lia. done.
  - pose proof (Hbyte _ _ Htag).
    rewrite decompress_row_loop_repeat with (tag := tag)
      by (done || lia).
    rewrite (gtb_true (cp + 1 + bpp) row_len) by lia. done.
  - rewrite decompress_row_loop_literal with (literal_count := 0)
      by (done || lia).
    rewrite (geb_true (cp + 1) row_len) by lia. done.
  - pose proof (Hbyte _ _ Hcount).
    rewrite decompress_row_loop_literal with (literal_count := count)
      by (done || lia).
    rewrite (geb_false (cp + 1) row_len) by lia.
    destruct (count =? 0); [done|].
    rewrite (gtb_true (cp + 1 + 1 + count * bpp) row_len) by lia. done.
  - pose proof (Hbyte _ _ Htag).
    rewrite decompress_row_loop_repeat with (tag := tag)
      by (done || lia).
    destruct (cp + 1 + bpp >? row_len); [done|].
    rewrite (gtb_true (op + tag * bpp) row_bytes) by lia. done.
  - pose proof (Hbyte _ _ Hcount).
    rewrite decompress_row_loop_literal with (literal_count := count)
      by (done || lia).
    rewrite (geb_false (cp + 1) row_len) by lia.
    destruct (count =? 0); [done|].
    destruct (cp + 1 + 1 + count * bpp >? row_len); [done|].
    rewrite (gtb_true (op + count * bpp) row_bytes) by lia. done.
Qed.

Lemma decompress_row_short :
  len (serialize bs) = row_len -> len (expand bs) <> row_bytes ->
  decompress_row comp row_len out_row row_bytes bpp
  = Some (false, blit out_row 0 (expand bs)).
Proof.
  intros Hcp' Hop'.
  destruct decompress_row_prefix as [fuel ->].
  rewrite decompress_row_loop_done by (simpl; lia).
  rewrite option_bind_Some. cbn [negb d_op d_out].
  by rewrite (eqb_false (len (expand bs)) row_bytes) by lia.
Qed.

End Rejection.

(** ** Encoding a row and decoding it again *)

Lemma blit_all out l : len l = len out -> blit out 0 l = l.
Proof.
  unfold len, blit. intros Hl. simpl.
  rewrite drop_ge by lia. by rewrite app_nil_r.
Qed.

Lemma take_blit_0 out l :
  len l <= len out -> take (Z.to_nat (len l)) (blit out 0 l) = l.
Proof.
  unfold len, blit. intros Hl. simpl.
  rewrite Nat2Z.id. by rewrite take_app_length.
Qed.

Lemma slice_all l n : n = len l -> slice l 0 n = l.
Proof. intros ->. unfold slice, len. simpl. by rewrite Nat2Z.id, firstn_all. Qed.

Lemma slice_app_0 l extra : slice (l ++ extra) 0 (len l) = l.
Proof.
  unfold slice, len. change (Z.to_nat 0) with 0%nat.
  rewrite drop_0, Nat2Z.id. apply take_app_length.
Qed.

Lemma slice_blit_0 out l : len l <= len out -> slice (blit out 0 l) 0 (len l) = l.
Proof. intros. apply slice_blit; lia. Qed.

Lemma compress_decompress_row row width bpp out out_row :
  1 <= bpp <= 3 -> 0 <= width <= UINT32_MAX ->
  width * bpp <= len row -> len row <= SIZE_MAX ->
  len out = width * (bpp + 2) -> width * bpp <= len out_row ->
  let c := compressed_row row width bpp in
  len c <= width * (bpp + 2)
  /\ compress_row row width bpp out = Some (blit out 0 c, len c)
  /\ (len c <= UINT16_MAX ->
      forall comp, slice comp 0 (len c) = c -> len c <= len comp ->
      decompress_row comp (len c) out_row (width * bpp) bpp
      = Some (true, blit out_row 0 (slice row 0 (width * bpp)))).
Proof.
  intros Hbpp Hwidth Hrow Hrow_max Hout Hout_row c.
  destruct (compress_row_spec row width bpp Hbpp Hwidth Hrow Hrow_max)
    as (bs & _ & Hc & Hok & Hexp & Hbound & Hrun).
  subst c. rewrite Hc.
  assert (width * (bpp + 2) <= 5 * UINT32_MAX).
  { rewrite (Z.mul_comm 5). apply Z.mul_le_mono_nonneg; lia. }
  split_and!; [done|apply Hrun; lia|].
  intros Hshort comp Hcomp Hlen.
  assert (len (expand bs) = width * bpp) as Hexp_len.
  { rewrite Hexp. apply len_slice; [lia| |lia].
    apply Z.mul_nonneg_nonneg; lia. }
  pose proof (width_bytes_max width bpp Hbpp Hwidth).
  rewrite <- Hexp, <- Hexp_len.
  apply decompress_row_blocks; (done || lia).
Qed.

(** C8.  For a row of [width >= 1] pixels of [bpp] bytes, [bpp] being 1 or 3,
    [compress_row] stays inside an output buffer of [width * (bpp + 2)] bytes
    (it returns, which in this model excludes an access outside a buffer) and
    the number of bytes it returns is at most [width * (bpp + 2)]. *)
Theorem compress_row_worst_case row width bpp out :
  1 <= width <= UINT32_MAX -> bpp = 1 \/ bpp = 3 ->
  len row = width * bpp -> len out = width * (bpp + 2) ->
  exists out' n,
    compress_row row width bpp out = Some (out', n)
    /\ 0 <= n <= width * (bpp + 2)
    /\ len out' = len out.
Proof.
  intros Hwidth Hbpp Hrow Hout.
  assert (width * bpp <= 3 * UINT32_MAX) by (apply width_bytes_max; lia).
  destruct (compress_decompress_row row width bpp out (malloc (width * bpp)))
    as (Hbound & Hrun & _); [lia..|rewrite len_malloc; lia|].
  eexists _, _. split; [exact Hrun|].
  pose proof (len_nonneg (compressed_row row width bpp)).
  split; [lia|]. rewrite len_blit; lia.
Qed.

Lemma compress_row_worst_case_witness :
  exists out' n,
    compress_row [10; 10; 10; 50] 4 1 (malloc 12) = Some (out', n)
    /\ 0 <= n <= 4 * (1 + 2)
    /\ len out' = len (malloc 12).
Proof.
  apply (compress_row_worst_case [10; 10; 10; 50] 4 1 (malloc 12));
    [lia|by left|reflexivity|reflexivity].
Defined.

(** C6 (as amended).  For the GRAY8 row [10,10,10,50] of width 4,
    [compress_row] writes the five bytes [03 0A 00 01 32]: a repeat block of
    count 3 with pixel 0x0A, then a literal block made of the tag 0, the
    count 1 and the pixel 0x32; [decompress_row] on these five bytes gives
    back [10,10,10,50]. *)
Theorem scenario_gray8_row :
  compress_row [10; 10; 10; 50] 4 1 (malloc (4 * (1 + 2)))
  = Some (blit (malloc (4 * (1 + 2))) 0
            (serialize [Repeat 3 [10]; Literal 1 [50]]), 5)
  /\ serialize [Repeat 3 [10]; Literal 1 [50]] = [3; 10; 0; 1; 50]
  /\ decompress_row [3; 10; 0; 1; 50] 5 (malloc 4) 4 1
     = Some (true, [10; 10; 10; 50]).
Proof. by vm_compute. Qed.

(** The stream [03 0A 00 32] of the scenario is not what [compress_row]
    writes, and [decompress_row] rejects it: its third and fourth byte read
    as a literal block of 50 pixels. *)
Lemma scenario_gray8_row_claimed_stream :
  (forall out', compress_row [10; 10; 10; 50] 4 1 (malloc (4 * (1 + 2)))
               = Some (out', 4) -> False)
  /\ (exists out' n,
        compress_row [10; 10; 10; 50] 4 1 (malloc (4 * (1 + 2)))
        = Some (out', n)
        /\ take (Z.to_nat n) out' <> [3; 10; 0; 50])
  /\ decompress_row [3; 10; 0; 50] 4 (malloc 4) 4 1
     = Some (false, [10; 10; 10; 0]).
Proof.
  split_and!.
  - intros out'. vm_compute. congruence.
  - eexists _, _. split; [by vm_compute|]. vm_compute. congruence.
  - by vm_compute.
Qed.

(** C9.  [decompress_row] asks for the output cursor to reach the length of
    the row and for nothing else: a compressed row made of blocks that fill
    the output row and of any further bytes, all counted in the declared
    length, is decoded with success and the further bytes are not looked
    at. *)
Theorem decompress_row_ignores_trailing_bytes bpp bs extra out_row :
  bpp = 1 \/ bpp = 3 -> Forall (block_ok bpp) bs ->
  len (serialize bs) + len extra <= UINT16_MAX ->
  len (expand bs) <= len out_row ->
  decompress_row (serialize bs ++ extra) (len (serialize bs) + len extra)
    out_row (len (expand bs)) bpp
  = Some (true, blit out_row 0 (expand bs)).
Proof.
  intros Hbpp Hok Hlen Hout.
  assert (1 <= bpp <= 3) as Hbpp' by lia.
  pose proof (len_nonneg extra).
  pose proof (serialize_min_len bpp Hbpp' bs Hok).
  pose proof (expand_max_len bpp bs Hbpp' Hok).
  apply decompress_row_blocks; [done|done| |lia|lia| |done|lia].
  - apply slice_app_0.
  - rewrite len_app. lia.
Qed.

Lemma decompress_row_ignores_trailing_bytes_witness :
  decompress_row ([3; 10; 0; 1; 50] ++ [99; 98; 97]) (5 + 3) (malloc 4) 4 1
  = Some (true, [10; 10; 10; 50]).
Proof.
  apply (decompress_row_ignores_trailing_bytes 1
           [Repeat 3 [10]; Literal 1 [50]] [99; 98; 97] (malloc 4)).
  - by left.
  - repeat first [apply Forall_nil|apply Forall_cons; split];
      first [exact I|split; [lia|reflexivity]].
  - vm_compute. congruence.
  - vm_compute. congruence.
Defined.

(** C2.  [decompress_row] returns [FALSE], without an access outside a
    buffer and leaving in the output row only the blocks decoded before,
    when after some well-formed blocks the next block is malformed
    ([malformed]: a literal block of count 0; a repeat pixel, a literal count
    or a literal payload that runs past the declared length of the compressed
    row; a block whose pixels run past [width * bpp] in the output), or when
    the compressed row ends with the output row not filled. *)
Theorem decompress_row_rejects_malformed comp row_len out_row width bpp bs :
  bpp = 1 \/ bpp = 3 -> 0 <= width <= UINT32_MAX ->
  bytes comp -> 0 <= row_len <= UINT16_MAX -> row_len <= len comp ->
  width * bpp <= len out_row ->
  Forall (block_ok bpp) bs ->
  slice comp 0 (len (serialize bs)) = serialize bs ->
  len (serialize bs) <= row_len -> len (expand bs) <= width * bpp ->
  (len (serialize bs) < row_len /\ len (expand bs) < width * bpp
   /\ malformed comp row_len (width * bpp) bpp (len (serialize bs))
        (len (expand bs)))
  \/ (len (serialize bs) = row_len /\ len (expand bs) <> width * bpp) ->
  decompress_row comp row_len out_row (width * bpp) bpp
  = Some (false, blit out_row 0 (expand bs)).
Proof.
  intros Hbpp Hwidth Hbytes Hrow_len Hcomp Hout Hok Hprefix Hcp Hop Hbad.
  assert (1 <= bpp <= 3) as Hbpp' by lia.
  assert (0 <= width * bpp <= 3 * UINT32_MAX).
  { split; [apply Z.mul_nonneg_nonneg; lia|apply width_bytes_max; lia]. }
  destruct Hbad as [(Hcp' & Hop' & Hbad)|[Hcp' Hop']].
  - by apply decompress_row_malformed.
  - by apply decompress_row_short.
Qed.

Lemma decompress_row_rejects_malformed_witness :
  decompress_row [3; 10; 0; 0; 7] 5 (malloc 4) (4 * 1) 1
  = Some (false, blit (malloc 4) 0 (expand [Repeat 3 [10]])).
Proof.
  apply (decompress_row_rejects_malformed [3; 10; 0; 0; 7] 5 (malloc 4) 4 1
           [Repeat 3 [10]]).
  - by left.
  - lia.
  - repeat first [apply Forall_nil|apply Forall_cons; split];
      first [exact I|unfold is_byte; lia].
  - lia.
  - vm_compute. congruence.
  - vm_compute. congruence.
  - repeat first [apply Forall_nil|apply Forall_cons; split];
      first [exact I|split; [lia|reflexivity]].
  - reflexivity.
  - vm_compute. congruence.
  - vm_compute. congruence.
  - left. split_and!; [by vm_compute|by vm_compute|].
    apply literal_count_zero; [reflexivity|by vm_compute|reflexivity].
Defined.

(** ** Decoder: a compressed row cut short *)

Lemma slice_agree (a b : list Z) R off n :
  slice a 0 R = slice b 0 R -> 0 <= off -> 0 <= n -> off + n <= R ->
  slice a off n = slice b off n.
Proof.
  intros Hab Hoff Hn HR. unfold slice in *.
  change (Z.to_nat 0) with 0%nat in Hab. rewrite !drop_0 in Hab.
  assert (forall l : list Z,
            take (Z.to_nat n) (drop (Z.to_nat off) l)
            = take (Z.to_nat n) (drop (Z.to_nat off) (take (Z.to_nat R) l)))
    as Hcut.
  { intros l. rewrite skipn_firstn_comm, take_take. f_equal. lia. }
  by rewrite (Hcut a), (Hcut b), Hab.
Qed.

Lemma serialize_singleton b : serialize [b] = block_bytes b.
Proof. unfold serialize. simpl. by rewrite app_nil_r. Qed.

Lemma expand_singleton b : expand [b] = block_pixels b.
Proof. unfold expand. simpl. by rewrite app_nil_r. Qed.

Section Truncated.

Variables (comp all : list Z) (row_len row_bytes bpp : Z).
Hypothesis Hbpp : 1 <= bpp <= 3.
Hypothesis Hrow_len : 0 <= row_len <= len comp.
Hypothesis Hrow_len_max : row_len <= UINT16_MAX.
Hypothesis Hrow_bytes : 0 <= row_bytes <= 3 * UINT32_MAX.
Hypothesis Hagree : slice comp 0 row_len = slice all 0 row_len.

(** When the declared length [row_len] ends inside the blocks [bs], the
    loop ends before the output row is full. *)
Lemma decompress_row_loop_truncated bs : forall fuel out cp op,
  Forall (block_ok bpp) bs ->
  0 <= cp <= row_len -> row_len < cp + len (serialize bs) ->
  slice all cp (len (serialize bs)) = serialize bs ->
  0 <= op -> op + len (expand bs) <= row_bytes -> row_bytes <= len out ->
  (Z.to_nat (row_len - cp) < fuel)%nat ->
  exists ok s,
    decompress_row_loop fuel comp row_len row_bytes bpp (DState out cp op)
    = Some (ok, s)
    /\ (ok = true -> d_op s <> row_bytes).
Proof.
  induction bs as [|b bs IH];
    intros fuel out cp op Hok Hcp Hcut Hall Hop Hfit Hout Hfuel.
  { rewrite serialize_nil, len_nil in Hcut. lia. }
  inversion Hok as [|? ? Hb Hbs]; subst.
  rewrite serialize_cons, expand_cons, !len_app in *.
  destruct (block_sizes bpp Hbpp b Hb) as (Hbb & Hbp & Hbp').
  pose proof (len_nonneg (serialize bs)). pose proof (len_nonneg (expand bs)).
  apply slice_app_inv in Hall as [Hblock Hrest]; [|lia].
  destruct fuel as [|fuel]; [lia|].
  destruct (decide (cp = row_len)) as [->|Hne].
  { rewrite decompress_row_loop_done by (simpl; lia).
    eexists _, _. split; [done|]. simpl. lia. }
  destruct (decide (cp + len (block_bytes b) <= row_len)) as [Hin|Hcross].
  - (* the block lies inside the declared length *)
    assert (slice comp cp (len (block_bytes b)) = block_bytes b) as Hb_comp.
    { rewrite (slice_agree comp all row_len) by (done || lia). done. }
    assert (decompress_row_loop (S fuel) comp row_len row_bytes bpp
              (DState out cp op)
            = decompress_row_loop fuel comp row_len row_bytes bpp
                (DState (blit out op (block_pixels b))
                   (cp + len (block_bytes b)) (op + len (block_pixels b))))
      as ->.
    { rewrite <- (serialize_singleton b), <- (expand_singleton b).
      apply (decompress_row_loop_blocks comp row_len row_bytes bpp Hbpp
               Hrow_len Hrow_len_max Hrow_bytes [b] fuel out cp op);
        rewrite ?serialize_singleton, ?expand_singleton;
        [by apply Forall_singleton|lia|lia|done|lia|lia|lia]. }
    apply IH; [done|lia|lia| |lia|lia|rewrite len_blit; lia|lia].
    done.
  - (* the declared length ends inside the block *)
    assert (op < row_bytes) by lia.
    destruct b as [c px|c pl]; simpl in Hb, Hblock, Hbb, Hbp, Hcross;
      destruct Hb as [Hc Hlen]; rewrite ?len_cons in *.
    + assert (load comp cp = Some c) as Htag.
      { destruct (load_slice comp cp) as (t & Ht & Hs); [lia|].
        rewrite (slice_agree comp all row_len) in Hs by (done || lia).
        assert (slice all cp 1 = [c]) as Hs'.
        { replace 1 with (len [c]) by done.
          eapply proj1, (slice_app_inv all cp [c] px); [lia|].
          rewrite len_cons, len_nil.
          etrans; [|exact Hblock]. f_equal; lia. }
        rewrite Hs' in Hs. congruence. }
      rewrite decompress_row_loop_repeat with (tag := c) by (done || lia).
      rewrite (gtb_true (cp + 1 + bpp) row_len) by lia.
      eexists _, _. split; [done|]. done.
    + assert (load comp cp = Some 0) as Htag.
      { destruct (load_slice comp cp) as (t & Ht & Hs); [lia|].
        rewrite (slice_agree comp all row_len) in Hs by (done || lia).
        assert (slice all cp 1 = [0]) as Hs'.
        { replace 1 with (len [0]) by done.
          eapply proj1, (slice_app_inv all cp [0] (c :: pl)); [lia|].
          rewrite !len_cons, len_nil.
          etrans; [|exact Hblock]. f_equal; lia. }
        rewrite Hs' in Hs. congruence. }
      assert (cp + 1 < row_len -> load comp (cp + 1) = Some c) as Hcount.
      { intros Hlt.
        destruct (load_slice comp (cp + 1)) as (t & Ht & Hs); [lia|].
        rewrite (slice_agree comp all row_len) in Hs by (done || lia).
        assert (slice all (cp + 1) 1 = [c]) as Hs'.
        { apply slice_cons_tail in Hblock; [|lia..].
          replace 1 with (len [c]) by done.
          eapply proj1, (slice_app_inv all (cp + 1) [c] pl); [lia|].
          rewrite len_cons, len_nil.
          etrans; [|exact Hblock]. f_equal; lia. }
        rewrite Hs' in Hs. congruence. }
      rewrite decompress_row_loop_literal with (literal_count := c)
        by (done || lia).
      destruct (Z.geb_spec (cp + 1) row_len);
        [eexists _, _; split; done|].
      rewrite (eqb_false c 0) by lia.
      rewrite (gtb_true (cp + 1 + 1 + c * bpp) row_len) by lia.
      eexists _, _. split; done.
Qed.

End Truncated.

(** A compressed row is not decoded from a declared length shorter than
    itself. *)
Lemma decompress_row_truncated comp row_len out_row bpp bs :
  1 <= bpp <= 3 -> Forall (block_ok bpp) bs ->
  u16 row_len < len (serialize bs) -> u16 row_len <= len comp ->
  slice comp 0 (u16 row_len) = slice (serialize bs) 0 (u16 row_len) ->
  len (expand bs) <= len out_row -> len (expand bs) <= 3 * UINT32_MAX ->
  exists out',
    decompress_row comp row_len out_row (len (expand bs)) bpp
    = Some (false, out').
Proof.
  intros Hbpp Hok Hcut Hcomp Hagree Hout Hmax.
  assert (0 <= u16 row_len <= UINT16_MAX) as Hrange.
  { unfold u16. pose proof (Z.mod_pos_bound row_len 65536 ltac:(lia)). lia. }
  pose proof (len_nonneg (expand bs)).
  unfold decompress_row.
  destruct (decompress_row_loop_truncated comp (serialize bs) (u16 row_len)
              (len (expand bs)) bpp Hbpp ltac:(lia) ltac:(lia) ltac:(lia)
              Hagree bs (S (Z.to_nat (u16 row_len))) out_row 0 0)
    as (ok & s & -> & Hfull); [done|lia|lia| |lia|lia|lia| |].
  - by apply slice_all.
  - lia.
  - rewrite option_bind_Some. destruct ok; cbn [negb]; [|by eauto].
    rewrite (eqb_false (d_op s) (len (expand bs))) by (by apply Hfull).
    by eauto.
Qed.

(** ** Image codec *)

Lemma usize_range x : 0 <= usize x <= SIZE_MAX.
Proof.
  unfold usize.
  pose proof (Z.mod_pos_bound x 18446744073709551616 ltac:(lia)). lia.
Qed.

Lemma usize_add_l a b : usize (usize a + b) = usize (a + b).
Proof. unfold usize. by rewrite Zplus_mod_idemp_l. Qed.

Lemma usize_add_r a b : usize (a + usize b) = usize (a + b).
Proof. unfold usize. by rewrite Zplus_mod_idemp_r. Qed.

Lemma land_255_byte x : 0 <= Z.land x 255 <= 255.
Proof.
  change (Z.land x 255) with (Z.land x (Z.ones 8)).
  rewrite Z.land_ones by lia. change (2 ^ 8) with 256.
  pose proof (Z.mod_pos_bound x 256 ltac:(lia)). lia.
Qed.

Lemma le16_value x :
  Z.lor (Z.land x 255) (Z.shiftl (Z.land (Z.shiftr x 8) 255) 8) = u16 x.
Proof.
  unfold u16. change 65536 with (2 ^ 16).
  rewrite <- Z.land_ones by lia.
  apply Z.bits_inj'. intros n Hn.
  rewrite Z.lor_spec, !Z.land_spec.
  change 255 with (Z.ones 8).
  destruct (Z.lt_ge_cases n 8) as [H8|H8].
  - rewrite Z.shiftl_spec_low by lia.
    rewrite !Z.ones_spec_low by lia.
    by rewrite orb_false_r.
  - rewrite Z.shiftl_spec by lia. rewrite Z.land_spec, Z.shiftr_spec by lia.
    rewrite (Z.ones_spec_high 8 n) by lia.
    rewrite andb_false_r. simpl.
    replace (n - 8 + 8) with n by lia.
    destruct (Z.lt_ge_cases n 16).
    + by rewrite !Z.ones_spec_low by lia.
    + by rewrite !Z.ones_spec_high by lia.
Qed.

Lemma read_le_u16_prefix x :
  read_le_u16 [Z.land x 255; Z.land (Z.shiftr x 8) 255] 0 = Some (u16 x).
Proof.
  unfold read_le_u16, load. simpl.
  f_equal. rewrite le16_value. unfold u16. by rewrite Z.mod_mod.
Qed.

Lemma fwrite_spec buf n out :
  0 <= n <= len buf -> fwrite buf n out = Some (out ++ take (Z.to_nat n) buf).
Proof. intros. unfold fwrite. by rewrite bool_decide_eq_true_2. Qed.

Lemma fread_spec pre data post :
  fread (len data) (mkFILE (pre ++ data ++ post) (len pre))
  = (data, mkFILE (pre ++ data ++ post) (len pre + len data)).
Proof.
  unfold fread, len. simpl. rewrite !Nat2Z.id.
  rewrite drop_app_length, take_app_length. done.
Qed.

Lemma compressed_stream_nil pixels width bpp r :
  compressed_stream pixels width bpp r 0 = [].
Proof. done. Qed.

Lemma compressed_stream_cons pixels width bpp r count :
  0 < count ->
  compressed_stream pixels width bpp r count
  = row_record (row_view pixels (width * bpp) r) width bpp
    ++ compressed_stream pixels width bpp (r + 1) (count - 1).
Proof.
  intros Hc. unfold compressed_stream.
  rewrite seqZ_cons by done. rewrite fmap_cons. simpl.
  rewrite <- Z.add_1_r, <- Z.sub_1_r. done.
Qed.

Section Image.

Variables (pixels : list Z) (width height bpp : Z).
Hypothesis Hbpp : 1 <= bpp <= 3.
Hypothesis Hwidth : 0 <= width <= UINT32_MAX.
Hypothesis Hheight : 0 <= height <= UINT32_MAX.
Hypothesis Hpixels : len pixels = width * bpp * height.
Hypothesis Hpixels_max : len pixels <= SIZE_MAX.

Lemma row_in_image r :
  0 <= r < height ->
  0 <= r * (width * bpp)
  /\ r * (width * bpp) + width * bpp <= len pixels
  /\ 0 <= width * bpp.
Proof.
  intros Hr.
  assert (0 <= width * bpp) by (apply Z.mul_nonneg_nonneg; lia).
  assert ((r + 1) * (width * bpp) <= height * (width * bpp))
    by (apply Z.mul_le_mono_nonneg_r; lia).
  split; [apply Z.mul_nonneg_nonneg; lia|]. lia.
Qed.

Lemma row_view_len r :
  0 <= r < height ->
  width * bpp <= len (row_view pixels (width * bpp) r)
  /\ len (row_view pixels (width * bpp) r) <= SIZE_MAX.
Proof.
  intros Hr. destruct (row_in_image r Hr) as (? & ? & ?).
  unfold row_view, len in *. rewrite length_drop. lia.
Qed.

Lemma row_view_slice r :
  0 <= r < height ->
  slice (row_view pixels (width * bpp) r) 0 (width * bpp)
  = slice pixels (r * (width * bpp)) (width * bpp).
Proof. intros Hr. unfold slice, row_view. by rewrite drop_0. Qed.

Lemma compressed_row_len_bound r :
  0 <= r < height ->
  0 <= len (compressed_row (row_view pixels (width * bpp) r) width bpp)
    <= width * (bpp + 2).
Proof.
  intros Hr. destruct (row_view_len r Hr) as [? ?].
  destruct (compress_row_spec (row_view pixels (width * bpp) r) width bpp)
    as (bs & _ & -> & _ & _ & ? & _); [done..|].
  pose proof (len_nonneg (serialize bs)). lia.
Qed.

Lemma aif_write_compressed_rows_loop_spec fuel : forall r buffer out total,
  0 <= r <= height -> (Z.to_nat (height - r) < fuel)%nat ->
  len buffer = width * (bpp + 2) -> 0 <= total <= SIZE_MAX ->
  aif_write_compressed_rows_loop fuel pixels width height bpp (width * bpp)
    buffer r out total
  = Some (out ++ compressed_stream pixels width bpp r (height - r),
          usize (total
                 + len (compressed_stream pixels width bpp r (height - r)))).
Proof.
  induction fuel as [|fuel IH]; intros r buffer out total Hr Hfuel Hbuf Htotal;
    [lia|].
  cbn [aif_write_compressed_rows_loop].
  destruct (Z.ltb_spec r height) as [Hlt|Hge].
  - destruct (row_in_image r) as (? & ? & ?); [lia|].
    destruct (row_view_len r) as [? ?]; [lia|].
    pose proof (compressed_row_len_bound r ltac:(lia)) as Hc.
    assert (width * (bpp + 2) <= 5 * UINT32_MAX).
    { rewrite (Z.mul_comm 5). apply Z.mul_le_mono_nonneg; lia. }
    rewrite (usize_small (r * (width * bpp))) by lia.
    fold (row_view pixels (width * bpp) r).
    destruct (compress_decompress_row (row_view pixels (width * bpp) r)
                width bpp buffer (malloc (width * bpp)))
      as (_ & -> & _); [done..|rewrite len_malloc; lia|].
    rewrite option_bind_Some.
    set (c := compressed_row (row_view pixels (width * bpp) r) width bpp) in *.
    rewrite !u8_small
      by (match goal with
          | |- _ <= Z.land ?x 255 < _ => pose proof (land_255_byte x); lia
          end).
    rewrite fwrite_spec by (vm_compute; split; congruence).
    rewrite option_bind_Some.
    rewrite fwrite_spec by (rewrite len_blit; lia).
    rewrite option_bind_Some.
    rewrite take_blit_0 by lia.
    rewrite u32_small by lia.
    rewrite IH by (rewrite ?len_blit; first [lia|apply usize_range]).
    rewrite (compressed_stream_cons _ _ _ r) by lia.
    replace (height - (r + 1)) with (height - r - 1) by lia.
    unfold row_record. fold c. simpl.
    rewrite <- !(assoc_L (++)). simpl.
    f_equal. f_equal.
    rewrite usize_add_r, usize_add_l. f_equal.
    rewrite !len_cons, len_app. lia.
  - assert (r = height) as -> by lia.
    rewrite Z.sub_diag, compressed_stream_nil, app_nil_r, len_nil, Z.add_0_r.
    by rewrite usize_small by lia.
Qed.

Lemma u16_idem x : u16 (u16 x) = u16 x.
Proof. unfold u16. by rewrite Z.mod_mod. Qed.

Lemma fread_slice n file pos :
  fread n (mkFILE file pos)
  = (slice file pos n, mkFILE file (pos + len (slice file pos n))).
Proof. done. Qed.

Lemma defined_Some {A} (a : A) : defined (Some a) = Done a.
Proof. done. Qed.

Lemma outcome_bind_Done {A B} (f : A -> outcome B) (a : A) :
  Done a ≫= f = f a.
Proof. done. Qed.

#[local] Arguments decompress_row : simpl never.
#[local] Arguments fread : simpl never.
#[local] Arguments read_le_u16 : simpl never.

#[local] Abbreviation decoded_upto := (decoded_upto pixels (width * bpp)).

Lemma decoded_upto_next full r :
  0 <= r < height -> decoded_upto full r ->
  decoded_upto
    (take (Z.to_nat (r * (width * bpp))) full
     ++ blit (drop (Z.to_nat (r * (width * bpp))) full) 0
          (slice pixels (r * (width * bpp)) (width * bpp)))
    (r + 1).
Proof.
  intros Hr [Hfull Htake].
  destruct (row_in_image r Hr) as (Hoff & Hrow_end & Hrb).
  set (rowdata := slice pixels (r * (width * bpp)) (width * bpp)).
  assert (len rowdata = width * bpp) as Hrowdata by (apply len_slice; lia).
  assert (len (drop (Z.to_nat (r * (width * bpp))) full)
          = len pixels - r * (width * bpp)) as Hdrop_len.
  { unfold len in *. rewrite length_drop. lia. }
  split.
  - rewrite len_app, len_blit by lia.
    unfold len in *. rewrite length_take. lia.
  - replace ((r + 1) * (width * bpp))
      with (r * (width * bpp) + width * bpp) by lia.
    rewrite Z2Nat.inj_add by lia.
    rewrite <- (take_take_drop pixels).
    fold (slice pixels (r * (width * bpp)) (width * bpp)). fold rowdata.
    rewrite <- Htake.
    assert (length (take (Z.to_nat (r * (width * bpp))) full)
            = Z.to_nat (r * (width * bpp))) as Hlen_take
      by (rewrite length_take; unfold len in *; lia).
    rewrite take_app_add' by done.
    f_equal. unfold blit. simpl.
    rewrite <- Hrowdata. unfold len. rewrite Nat2Z.id.
    by rewrite take_app_length.
Qed.

(** The record of row [r] as the loop of [aif_decompress_image] finds it
    at position [pos] of the file. *)
Lemma record_in_file file pos r :
  0 <= r < height -> 0 <= pos ->
  slice file pos (len (compressed_stream pixels width bpp r (height - r)))
  = compressed_stream pixels width bpp r (height - r) ->
  let c := compressed_row (row_view pixels (width * bpp) r) width bpp in
  slice file pos 2 = [Z.land (len c) 255; Z.land (Z.shiftr (len c) 8) 255]
  /\ slice file (pos + 2) (len c) = c
  /\ slice file (pos + 2 + len c)
       (len (compressed_stream pixels width bpp (r + 1) (height - (r + 1))))
     = compressed_stream pixels width bpp (r + 1) (height - (r + 1))
  /\ len (compressed_stream pixels width bpp r (height - r))
     = 2 + len c
       + len (compressed_stream pixels width bpp (r + 1) (height - (r + 1))).
Proof.
  intros Hr Hpos Hfile c.
  rewrite (compressed_stream_cons _ _ _ r) in Hfile |- * by lia.
  replace (height - r - 1) with (height - (r + 1)) in * by lia.
  unfold row_record in Hfile |- *. fold c in Hfile |- *.
  cbv zeta in Hfile |- *.
  rewrite <- !(assoc_L (++)) in Hfile |- *.
  rewrite !len_app. rewrite len_app in Hfile.
  apply slice_app_inv in Hfile as [Hprefix Hfile]; [|done].
  rewrite len_app in Hfile.
  apply slice_app_inv in Hfile as [Hdata Hfile]; [|unfold len; simpl; lia].
  change (len [Z.land (len c) 255; Z.land (Z.shiftr (len c) 8) 255])
    with 2 in *.
  split_and!; [done|done| |lia].
  etrans; [|exact Hfile]. f_equal; lia.
Qed.

(** One turn of the loop on a row whose compressed length fits 16 bits. *)
Lemma aif_decompress_image_loop_row fuel r file pos full :
  0 <= r < height ->
  len (compressed_row (row_view pixels (width * bpp) r) width bpp)
    <= UINT16_MAX ->
  0 <= pos ->
  slice file pos (len (compressed_stream pixels width bpp r (height - r)))
  = compressed_stream pixels width bpp r (height - r) ->
  decoded_upto full r ->
  exists full',
    decoded_upto full' (r + 1)
    /\ aif_decompress_image_loop (S fuel) (mkFILE file pos) height bpp
         (width * bpp) full r
       = aif_decompress_image_loop fuel
           (mkFILE file
              (pos + 2
               + len (compressed_row (row_view pixels (width * bpp) r)
                        width bpp)))
           height bpp (width * bpp) full' (r + 1).
Proof.
  intros Hr Hc16 Hpos Hfile Hdec.
  destruct (record_in_file file pos r Hr Hpos Hfile)
    as (Hprefix & Hdata & _ & _).
  destruct (row_in_image r) as (Hoff & Hrow_end & Hrb); [lia|].
  destruct (row_view_len r) as [Hview Hview_max]; [lia|].
  pose proof (compressed_row_len_bound r ltac:(lia)) as Hc.
  set (view := row_view pixels (width * bpp) r) in *.
  set (c := compressed_row view width bpp) in *.
  eexists. split; [by apply (decoded_upto_next full r)|].
  destruct Hdec as [Hfull Htake].
  cbn [aif_decompress_image_loop].
  rewrite (ltb_true r height) by lia.
  rewrite fread_slice, Hprefix. cbv beta iota.
  change (len [Z.land (len c) 255; Z.land (Z.shiftr (len c) 8) 255]) with 2.
  change (2 <? 2) with false. cbv iota.
  rewrite read_le_u16_prefix, defined_Some, outcome_bind_Done.
  rewrite (u16_small (len c)) by lia.
  rewrite fread_slice, Hdata. cbv beta iota.
  rewrite (ltb_false (len c) (len c)) by lia.
  rewrite (usize_small (r * (width * bpp))) by lia.
  assert (len (drop (Z.to_nat (r * (width * bpp))) full)
          = len pixels - r * (width * bpp)) as Hdrop_len.
  { unfold len in *. rewrite length_drop. lia. }
  destruct (compress_decompress_row view width bpp
              (malloc (width * (bpp + 2)))
              (drop (Z.to_nat (r * (width * bpp))) full))
    as (_ & _ & Hdecode); [done..| | |].
  { rewrite len_malloc; [done|]. apply Z.mul_nonneg_nonneg; lia. }
  { lia. }
  fold c in Hdecode.
  rewrite (Hdecode Hc16 c) by (by apply slice_all || lia).
  rewrite defined_Some, outcome_bind_Done. cbv beta iota.
  cbn [negb]. rewrite u32_small by lia.
  unfold view. rewrite row_view_slice by lia. done.
Qed.

(** One turn of the loop on a row whose compressed length does not fit 16
    bits: the length read back is too short and the row is rejected. *)
Lemma aif_decompress_image_loop_long_row fuel r file pos full :
  0 <= r < height ->
  UINT16_MAX
    < len (compressed_row (row_view pixels (width * bpp) r) width bpp) ->
  0 <= pos ->
  slice file pos (len (compressed_stream pixels width bpp r (height - r)))
  = compressed_stream pixels width bpp r (height - r) ->
  decoded_upto full r ->
  aif_decompress_image_loop (S fuel) (mkFILE file pos) height bpp
    (width * bpp) full r
  = Exit InvalidCompressedData.
Proof.
  intros Hr Hlong Hpos Hfile [Hfull Htake].
  destruct (record_in_file file pos r Hr Hpos Hfile)
    as (Hprefix & Hdata & _ & _).
  destruct (row_in_image r) as (Hoff & Hrow_end & Hrb); [lia|].
  destruct (row_view_len r) as [Hview Hview_max]; [lia|].
  destruct (compress_row_spec (row_view pixels (width * bpp) r) width bpp)
    as (bs & _ & Hc & Hok & Hexp & _ & _); [done..|].
  set (view := row_view pixels (width * bpp) r) in *.
  set (c := compressed_row view width bpp) in *.
  assert (0 <= u16 (len c) <= UINT16_MAX) as Hwrap.
  { unfold u16. pose proof (Z.mod_pos_bound (len c) 65536 ltac:(lia)). lia. }
  assert (slice file (pos + 2) (u16 (len c)) = slice c 0 (u16 (len c)))
    as Hcut.
  { rewrite <- (take_slice file (pos + 2) (len c)) by lia.
    rewrite Hdata. unfold slice. by rewrite drop_0. }
  assert (len (slice file (pos + 2) (u16 (len c))) = u16 (len c)) as Hcut_len.
  { rewrite Hcut. apply len_slice; lia. }
  assert (len (expand bs) = width * bpp) as Hexp_len.
  { rewrite Hexp. apply len_slice; lia. }
  pose proof (width_bytes_max width bpp Hbpp Hwidth).
  cbn [aif_decompress_image_loop].
  rewrite (ltb_true r height) by lia.
  rewrite fread_slice, Hprefix. cbv beta iota.
  change (len [Z.land (len c) 255; Z.land (Z.shiftr (len c) 8) 255]) with 2.
  change (2 <? 2) with false. cbv iota.
  rewrite read_le_u16_prefix, defined_Some, outcome_bind_Done.
  rewrite fread_slice. cbv beta iota.
  rewrite Hcut_len, (ltb_false (u16 (len c)) (u16 (len c))) by lia.
  rewrite (usize_small (r * (width * bpp))) by lia.
  assert (len (drop (Z.to_nat (r * (width * bpp))) full)
          = len pixels - r * (width * bpp)) as Hdrop_len.
  { unfold len in *. rewrite length_drop. lia. }
  destruct (decompress_row_truncated
              (slice file (pos + 2) (u16 (len c))) (u16 (len c))
              (drop (Z.to_nat (r * (width * bpp))) full) bpp bs)
    as (out' & Hfail).
  - done.
  - done.
  - rewrite u16_idem, <- Hc. lia.
  - rewrite u16_idem. lia.
  - rewrite u16_idem, <- Hc, Hcut. unfold slice.
    rewrite !drop_0, take_take. f_equal. lia.
  - lia.
  - lia.
  - rewrite Hexp_len in Hfail. rewrite Hfail.
    by rewrite defined_Some, outcome_bind_Done.
Qed.

Lemma aif_decompress_image_loop_spec fuel : forall r file pos full,
  0 <= r <= height -> (Z.to_nat (height - r) < fuel)%nat ->
  (forall r', r <= r' < height ->
     len (compressed_row (row_view pixels (width * bpp) r') width bpp)
     <= UINT16_MAX) ->
  0 <= pos ->
  slice file pos (len (compressed_stream pixels width bpp r (height - r)))
  = compressed_stream pixels width bpp r (height - r) ->
  decoded_upto full r ->
  aif_decompress_image_loop fuel (mkFILE file pos) height bpp (width * bpp)
    full r
  = Done (pixels,
          mkFILE file
            (pos + len (compressed_stream pixels width bpp r (height - r)))).
Proof.
  induction fuel as [|fuel IH];
    intros r file pos full Hr Hfuel Hshort Hpos Hfile Hdec; [lia|].
  destruct (decide (r < height)) as [Hlt|Hge].
  - destruct (aif_decompress_image_loop_row fuel r file pos full)
      as (full' & Hdec' & ->); [lia|by apply Hshort; lia|done..|].
    destruct (record_in_file file pos r ltac:(lia) Hpos Hfile)
      as (_ & _ & Hrest & Hlen).
    pose proof (len_nonneg (compressed_row (row_view pixels (width * bpp) r)
                              width bpp)).
    rewrite IH; [|lia|lia|intros; apply Hshort; lia|lia|done|done].
    do 3 f_equal. lia.
  - assert (r = height) as -> by lia.
    cbn [aif_decompress_image_loop]. rewrite (ltb_false height height) by lia.
    rewrite Z.sub_diag, compressed_stream_nil, len_nil, Z.add_0_r.
    destruct Hdec as [Hfull Htake].
    do 2 f_equal.
    rewrite <- (firstn_all full), <- (firstn_all pixels).
    replace (length full) with (Z.to_nat (height * (width * bpp)))
      by (unfold len in *; lia).
    replace (length pixels) with (Z.to_nat (height * (width * bpp)))
      by (unfold len in *; lia).
    done.
Qed.

(** The first row whose compressed length does not fit 16 bits stops
    [aif_decompress_image]. *)
Lemma aif_decompress_image_loop_long fuel : forall r r0 file pos full,
  0 <= r <= r0 -> r0 < height -> (Z.to_nat (height - r) < fuel)%nat ->
  (forall r', r <= r' < r0 ->
     len (compressed_row (row_view pixels (width * bpp) r') width bpp)
     <= UINT16_MAX) ->
  UINT16_MAX
    < len (compressed_row (row_view pixels (width * bpp) r0) width bpp) ->
  0 <= pos ->
  slice file pos (len (compressed_stream pixels width bpp r (height - r)))
  = compressed_stream pixels width bpp r (height - r) ->
  decoded_upto full r ->
  aif_decompress_image_loop fuel (mkFILE file pos) height bpp (width * bpp)
    full r
  = Exit InvalidCompressedData.
Proof.
  induction fuel as [|fuel IH];
    intros r r0 file pos full Hr Hr0 Hfuel Hshort Hlong Hpos Hfile Hdec; [lia|].
  destruct (decide (r = r0)) as [->|Hne].
  - apply aif_decompress_image_loop_long_row; (done || lia).
  - destruct (aif_decompress_image_loop_row fuel r file pos full)
      as (full' & Hdec' & ->); [lia|by apply Hshort; lia|done..|].
    destruct (record_in_file file pos r ltac:(lia) Hpos Hfile)
      as (_ & _ & Hrest & Hlen).
    pose proof (len_nonneg (compressed_row (row_view pixels (width * bpp) r)
                              width bpp)).
    apply (IH (r + 1) r0); [lia|lia|lia|intros; apply Hshort; lia|done|lia
                           |done|done].
Qed.

End Image.

Lemma compress_row_len_spec row width bpp :
  1 <= bpp <= 3 -> 0 <= width <= UINT32_MAX ->
  width * bpp <= len row -> len row <= SIZE_MAX ->
  compress_row_len row width bpp = len (compressed_row row width bpp).
Proof.
  intros Hbpp Hwidth Hrow Hmax. unfold compress_row_len.
  assert (0 <= width * (bpp + 2)) by (apply Z.mul_nonneg_nonneg; lia).
  destruct (compress_decompress_row row width bpp (malloc (width * (bpp + 2)))
              (malloc (width * bpp)))
    as (_ & -> & _); [done..|by rewrite len_malloc| |done].
  rewrite len_malloc; [lia|]. apply Z.mul_nonneg_nonneg; lia.
Qed.

Section Image_codec.

Variables (pixels : list Z) (width height bpp : Z).
Hypothesis Hbpp : 1 <= bpp <= 3.
Hypothesis Hwidth : 0 <= width <= UINT32_MAX.
Hypothesis Hheight : 0 <= height <= UINT32_MAX.
Hypothesis Hpixels : len pixels = width * bpp * height.
Hypothesis Hpixels_max : len pixels <= SIZE_MAX.

Lemma image_sizes :
  usize (width * bpp) = width * bpp
  /\ usize (width * usize (bpp + 2)) = width * (bpp + 2)
  /\ usize (usize (width * bpp) * height) = len pixels
  /\ 0 <= width * bpp /\ 0 <= width * (bpp + 2).
Proof.
  pose proof (width_bytes_max width bpp Hbpp Hwidth).
  assert (0 <= width * bpp) by (apply Z.mul_nonneg_nonneg; lia).
  assert (0 <= width * (bpp + 2) <= 5 * UINT32_MAX).
  { split; [apply Z.mul_nonneg_nonneg; lia|].
    rewrite (Z.mul_comm 5). apply Z.mul_le_mono_nonneg; lia. }
  pose proof (len_nonneg pixels).
  rewrite (usize_small (bpp + 2)), (usize_small (width * bpp)) by lia.
  rewrite !usize_small by lia. rewrite Hpixels. lia.
Qed.

Lemma aif_write_compressed_rows_spec out :
  aif_write_compressed_rows out pixels width height bpp
  = Some (out ++ compressed_stream pixels width bpp 0 height,
          usize (len (compressed_stream pixels width bpp 0 height))).
Proof.
  destruct image_sizes as (Hrb & Hmax_row & _ & ? & ?).
  unfold aif_write_compressed_rows. cbv zeta.
  rewrite Hrb, Hmax_row.
  rewrite (aif_write_compressed_rows_loop_spec pixels width height bpp)
    by (done || rewrite ?len_malloc; lia).
  by rewrite Z.sub_0_r, Z.add_0_l.
Qed.

Lemma decoded_upto_malloc :
  decoded_upto pixels (width * bpp) (malloc (len pixels)) 0.
Proof.
  split; [apply len_malloc, len_nonneg|]. done.
Qed.

Lemma aif_decompress_image_spec file pos :
  (forall r, 0 <= r < height ->
     len (compressed_row (row_view pixels (width * bpp) r) width bpp)
     <= UINT16_MAX) ->
  0 <= pos ->
  slice file pos (len (compressed_stream pixels width bpp 0 height))
  = compressed_stream pixels width bpp 0 height ->
  aif_decompress_image (mkFILE file pos) width height bpp
  = Done (pixels,
          mkFILE file
            (pos + len (compressed_stream pixels width bpp 0 height))).
Proof.
  intros Hshort Hpos Hfile.
  destruct image_sizes as (Hrb & _ & Htotal & ? & ?).
  unfold aif_decompress_image. cbv zeta. rewrite Htotal, Hrb.
  rewrite (aif_decompress_image_loop_spec pixels width height bpp)
    by (first [done|lia|rewrite Z.sub_0_r; done
              |apply decoded_upto_malloc|intros; apply Hshort; lia]).
  by rewrite Z.sub_0_r.
Qed.

Lemma aif_decompress_image_long file pos r0 :
  0 <= r0 < height ->
  (forall r, 0 <= r < r0 ->
     len (compressed_row (row_view pixels (width * bpp) r) width bpp)
     <= UINT16_MAX) ->
  UINT16_MAX
    < len (compressed_row (row_view pixels (width * bpp) r0) width bpp) ->
  0 <= pos ->
  slice file pos (len (compressed_stream pixels width bpp 0 height))
  = compressed_stream pixels width bpp 0 height ->
  aif_decompress_image (mkFILE file pos) width height bpp
  = Exit InvalidCompressedData.
Proof.
  intros Hr0 Hshort Hlong Hpos Hfile.
  destruct image_sizes as (Hrb & _ & Htotal & ? & ?).
  unfold aif_decompress_image. cbv zeta. rewrite Htotal, Hrb.
  apply (aif_decompress_image_loop_long pixels width height bpp Hbpp Hwidth
           Hheight Hpixels Hpixels_max _ 0 r0);
    first [done|lia|rewrite Z.sub_0_r; done|apply decoded_upto_malloc
          |intros; apply Hshort; lia].
Qed.

End Image_codec.

(** ** Rows whose compressed length does not fit the 16-bit length *)

Lemma slice_app_mid (pre l : list Z) : slice (pre ++ l) (len pre) (len l) = l.
Proof.
  unfold slice, len. rewrite !Nat2Z.id.
  rewrite drop_app_length. apply firstn_all.
Qed.

Lemma slice_blit_prefix out l n :
  0 <= n <= len l -> slice (blit out 0 l) 0 n = slice l 0 n.
Proof.
  unfold slice, blit, len. intros Hn.
  change (Z.to_nat 0) with 0%nat. rewrite take_0, !drop_0, app_nil_l.
  by rewrite take_app_le by lia.
Qed.

(** A row whose compressed length exceeds 65535 is decoded from no declared
    length at all. *)
Lemma long_row_not_decoded row width bpp buffer out_row :
  1 <= bpp <= 3 -> 0 <= width <= UINT32_MAX ->
  width * bpp <= len row -> len row <= SIZE_MAX ->
  len buffer = width * (bpp + 2) -> width * bpp <= len out_row ->
  UINT16_MAX < compress_row_len row width bpp ->
  exists comp,
    compress_row row width bpp buffer
    = Some (comp, compress_row_len row width bpp)
    /\ forall row_len, exists out',
         decompress_row comp row_len out_row (width * bpp) bpp
         = Some (false, out').
Proof.
  intros Hbpp Hwidth Hrow Hmax Hbuf Hout Hlong.
  rewrite compress_row_len_spec in * by done.
  destruct (compress_row_spec row width bpp Hbpp Hwidth Hrow Hmax)
    as (bs & _ & Hc & Hok & Hexp & Hbound & Hrun).
  rewrite Hc in *.
  assert (0 <= width * bpp) by (apply Z.mul_nonneg_nonneg; lia).
  assert (width * (bpp + 2) <= 5 * UINT32_MAX).
  { rewrite (Z.mul_comm 5). apply Z.mul_le_mono_nonneg; lia. }
  pose proof (width_bytes_max width bpp Hbpp Hwidth).
  assert (len (expand bs) = width * bpp) as Hexp_len.
  { rewrite Hexp. apply len_slice; lia. }
  eexists. split; [apply Hrun; lia|].
  intros row_len.
  assert (0 <= u16 row_len <= UINT16_MAX) as Hwrap.
  { unfold u16. pose proof (Z.mod_pos_bound row_len 65536 ltac:(lia)). lia. }
  rewrite <- Hexp_len.
  apply decompress_row_truncated; [done|done|lia| | |lia|lia].
  - rewrite len_blit; lia.
  - apply slice_blit_prefix. lia.
Qed.

(** ** The claims on the round trip *)

(** C1 (as amended).  In an image of rows of [width >= 1] pixels of [bpp]
    bytes, [bpp] being 1 or 3: for every row whose compressed length is at
    most 65535, [decompress_row] on what [compress_row] wrote for the row,
    with the returned length as declared length and [width * bpp] as output
    length, succeeds and gives back the row; and when this holds of every
    row, [aif_decompress_image] on the stream written by
    [aif_write_compressed_rows] gives back the image. *)
Theorem rle_round_trip pixels width height bpp :
  1 <= width <= UINT32_MAX -> 0 <= height <= UINT32_MAX ->
  bpp = 1 \/ bpp = 3 ->
  len pixels = width * bpp * height -> len pixels <= SIZE_MAX ->
  (forall r buffer out_row,
     0 <= r < height ->
     len buffer = width * (bpp + 2) -> len out_row = width * bpp ->
     exists comp comp_len,
       compress_row (row_view pixels (width * bpp) r) width bpp buffer
       = Some (comp, comp_len)
       /\ (comp_len <= UINT16_MAX ->
           decompress_row comp comp_len out_row (width * bpp) bpp
           = Some (true, slice pixels (r * (width * bpp)) (width * bpp))))
  /\ ((forall r, 0 <= r < height ->
         compress_row_len (row_view pixels (width * bpp) r) width bpp
         <= UINT16_MAX) ->
      forall out, exists stream total,
        aif_write_compressed_rows out pixels width height bpp
        = Some (out ++ stream, total)
        /\ aif_decompress_image (mkFILE (out ++ stream) (len out)) width
             height bpp
           = Done (pixels, mkFILE (out ++ stream) (len out + len stream))).
Proof.
  intros Hwidth Hheight Hbpp Hpixels Hmax.
  assert (1 <= bpp <= 3) as Hbpp' by lia.
  assert (0 <= width <= UINT32_MAX) as Hwidth' by lia.
  split.
  - intros r buffer out_row Hr Hbuf Hout.
    destruct (row_view_len pixels width height bpp Hbpp' Hwidth' Hpixels Hmax r
                Hr)
      as [Hview Hview_max].
    destruct (compress_decompress_row (row_view pixels (width * bpp) r) width
                bpp buffer out_row)
      as (Hbound & Hrun & Hdec); [done..|lia|].
    eexists _, _. split; [exact Hrun|]. intros Hshort.
    rewrite (Hdec Hshort); [|apply slice_blit_0; lia|rewrite len_blit; lia].
    f_equal. f_equal.
    assert (0 <= width * bpp) by (apply Z.mul_nonneg_nonneg; lia).
    destruct (row_in_image pixels width height bpp Hbpp' Hwidth' Hpixels r Hr)
      as (? & ? & ?).
    rewrite (row_view_slice pixels width height bpp r Hr).
    apply blit_all. rewrite len_slice; lia.
  - intros Hshort out.
    eexists _, _. split.
    + by apply aif_write_compressed_rows_spec.
    + apply aif_decompress_image_spec; [done..| | |].
      * intros r Hr.
        destruct (row_view_len pixels width height bpp Hbpp' Hwidth' Hpixels Hmax r
                Hr)
          as [Hview Hview_max].
        rewrite <- compress_row_len_spec by done. by apply Hshort.
      * apply len_nonneg.
      * apply slice_app_mid.
Qed.

Lemma rle_round_trip_witness :
  (exists comp comp_len,
     compress_row (row_view [10; 10; 10; 50; 1; 2; 3; 4] (4 * 1) 1) 4 1
       (malloc 12)
     = Some (comp, comp_len)
     /\ (comp_len <= UINT16_MAX ->
         decompress_row comp comp_len (malloc 4) (4 * 1) 1
         = Some (true, slice [10; 10; 10; 50; 1; 2; 3; 4] (1 * (4 * 1)) (4 * 1))))
  /\ (exists stream total,
        aif_write_compressed_rows [65; 73] [10; 10; 10; 50; 1; 2; 3; 4] 4 2 1
        = Some ([65; 73] ++ stream, total)
        /\ aif_decompress_image (mkFILE ([65; 73] ++ stream) (len [65; 73])) 4
             2 1
           = Done ([10; 10; 10; 50; 1; 2; 3; 4],
                   mkFILE ([65; 73] ++ stream) (len [65; 73] + len stream))).
Proof.
  destruct (rle_round_trip [10; 10; 10; 50; 1; 2; 3; 4] 4 2 1) as [Hrow Himage];
    [lia|lia|by left|reflexivity|vm_compute; congruence|].
  split.
  - apply Hrow; [lia|reflexivity|reflexivity].
  - apply Himage. intros r Hr.
    assert (r = 0 \/ r = 1) as [->| ->] by lia; vm_compute; congruence.
Defined.

Lemma row_view_0 pixels row_bytes : row_view pixels row_bytes 0 = pixels.
Proof. done. Qed.

(** An image of one row of identical pixels whose compressed length [n]
    exceeds 65535 is written, and is not read back. *)
Lemma constant_image_not_decoded px width bpp n out :
  1 <= bpp <= 3 -> len px = bpp -> 2 <= width <= UINT32_MAX ->
  n = (width + 254) / 255 * (1 + bpp) -> UINT16_MAX < n ->
  len (constant_row px width) = width * bpp * 1
  /\ compress_row_len (constant_row px width) width bpp = n
  /\ (exists comp,
        compress_row (constant_row px width) width bpp
          (malloc (width * (bpp + 2)))
        = Some (comp, n)
        /\ forall row_len, exists out',
             decompress_row comp row_len (malloc (width * bpp)) (width * bpp)
               bpp
             = Some (false, out'))
  /\ (exists stream total,
        aif_write_compressed_rows out (constant_row px width) width 1 bpp
        = Some (out ++ stream, total)
        /\ aif_decompress_image (mkFILE (out ++ stream) (len out)) width 1 bpp
           = Exit InvalidCompressedData).
Proof.
  intros Hbpp Hpx Hwidth Hn Hlong.
  pose proof (constant_row_len px width bpp Hpx Hwidth) as Hlen.
  pose proof (constant_row_compressed_len px width bpp Hbpp Hpx Hwidth) as Hc.
  pose proof (width_bytes_max width bpp Hbpp ltac:(lia)) as Hwb.
  assert (0 <= width * bpp) by (apply Z.mul_nonneg_nonneg; lia).
  assert (0 <= width * (bpp + 2)) by (apply Z.mul_nonneg_nonneg; lia).
  assert (compress_row_len (constant_row px width) width bpp = n) as Hn'.
  { rewrite compress_row_len_spec by lia. lia. }
  split_and!.
  - lia.
  - exact Hn'.
  - rewrite <- Hn'.
    apply long_row_not_decoded; rewrite ?len_malloc by lia; lia.
  - eexists _, _. split.
    + apply aif_write_compressed_rows_spec; lia.
    + apply (aif_decompress_image_long (constant_row px width) width 1 bpp)
        with (r0 := 0); [lia..| | | |].
      * intros r Hr. lia.
      * rewrite row_view_0. lia.
      * apply len_nonneg.
      * apply slice_app_mid.
Qed.

(** The round trip of C1 fails on a row of 4177920 black RGB8 pixels: its
    compressed length is 65536, so that neither [decompress_row] with that
    number as declared length nor [aif_decompress_image] on the stream that
    [aif_write_compressed_rows] wrote gives back the row. *)
Lemma rle_round_trip_fails_on_long_row :
  len (constant_row [0; 0; 0] 4177920) = 4177920 * 3 * 1
  /\ compress_row_len (constant_row [0; 0; 0] 4177920) 4177920 3 = 65536
  /\ (exists comp,
        compress_row (constant_row [0; 0; 0] 4177920) 4177920 3
          (malloc (4177920 * (3 + 2)))
        = Some (comp, 65536)
        /\ forall row_len, exists out',
             decompress_row comp row_len (malloc (4177920 * 3)) (4177920 * 3)
               3
             = Some (false, out'))
  /\ (exists stream total,
        aif_write_compressed_rows [] (constant_row [0; 0; 0] 4177920) 4177920
          1 3
        = Some ([] ++ stream, total)
        /\ aif_decompress_image (mkFILE ([] ++ stream) (len [])) 4177920 1 3
           = Exit InvalidCompressedData).
Proof.
  apply (constant_image_not_decoded [0; 0; 0] 4177920 3 65536 []).
  - lia.
  - reflexivity.
  - lia.
  - reflexivity.
  - lia.
Qed.

(** ** Runs longer than 255 pixels *)

(** C7 (as amended).  For a row of [width > 255] copies of a pixel of [bpp]
    bytes, [bpp] being 1 or 3, [compress_row] writes repeat blocks only, one
    for each count in [chunks width]: there are [ceil(width / 255)] of them,
    every count is between 1 and 255 and the counts sum to [width]; when the
    bytes written are at most 65535, [decompress_row] on them gives back the
    row. *)
Theorem repeat_run_splitting px width bpp out out_row :
  255 < width <= UINT32_MAX -> bpp = 1 \/ bpp = 3 -> len px = bpp ->
  len out = width * (bpp + 2) -> len out_row = width * bpp ->
  let stream := serialize ((fun c => Repeat c px) <$> chunks width) in
  compress_row (constant_row px width) width bpp out
  = Some (blit out 0 stream, len stream)
  /\ Z.of_nat (length (chunks width)) = (width + 254) / 255
  /\ Forall (fun c => 1 <= c <= 255) (chunks width)
  /\ sum_counts (chunks width) = width
  /\ (len stream <= UINT16_MAX ->
      decompress_row (blit out 0 stream) (len stream) out_row (width * bpp) bpp
      = Some (true, constant_row px width)).
Proof.
  intros Hwidth Hbpp Hpx Hout Hout_row stream.
  assert (1 <= bpp <= 3) as Hbpp' by lia.
  pose proof (constant_row_len px width bpp Hpx ltac:(lia)) as Hlen.
  pose proof (constant_row_compressed px width bpp Hbpp' Hpx ltac:(lia)) as Hc.
  pose proof (width_bytes_max width bpp Hbpp' ltac:(lia)) as Hwb.
  fold (repeat_blocks px width) in stream. subst stream.
  destruct (compress_decompress_row (constant_row px width) width bpp out
              out_row) as (Hbound & Hrun & Hdec); [lia..|].
  rewrite Hc in Hbound, Hrun, Hdec.
  split_and!.
  - exact Hrun.
  - apply chunks_length. lia.
  - apply chunks_bounds. lia.
  - apply chunks_sum. lia.
  - intros Hshort.
    rewrite (Hdec Hshort); [|apply slice_blit_0; lia|rewrite len_blit; lia].
    do 2 f_equal. rewrite slice_all by lia. apply blit_all. lia.
Qed.

Lemma repeat_run_splitting_witness :
  let stream := serialize ((fun c => Repeat c [7]) <$> chunks 300) in
  compress_row (constant_row [7] 300) 300 1 (malloc 900)
  = Some (blit (malloc 900) 0 stream, len stream)
  /\ Z.of_nat (length (chunks 300)) = (300 + 254) / 255
  /\ Forall (fun c => 1 <= c <= 255) (chunks 300)
  /\ sum_counts (chunks 300) = 300
  /\ (len stream <= UINT16_MAX ->
      decompress_row (blit (malloc 900) 0 stream) (len stream) (malloc 300)
        (300 * 1) 1
      = Some (true, constant_row [7] 300)).
Proof.
  apply (repeat_run_splitting [7] 300 1 (malloc 900) (malloc 300));
    [lia|by left|reflexivity|reflexivity|reflexivity].
Defined.

(** The decoding of C7 fails on the row of 4177920 black RGB8 pixels:
    [compress_row] writes 16384 repeat blocks, 65536 bytes, and
    [decompress_row] does not give back the row whatever length is
    declared. *)
Lemma repeat_run_splitting_fails_on_long_run :
  255 < 4177920 <= UINT32_MAX
  /\ exists comp,
       compress_row (constant_row [0; 0; 0] 4177920) 4177920 3
         (malloc (4177920 * (3 + 2)))
       = Some (comp, 65536)
       /\ forall row_len, exists out',
            decompress_row comp row_len (malloc (4177920 * 3)) (4177920 * 3) 3
            = Some (false, out').
Proof.
  split; [lia|].
  apply (constant_image_not_decoded [0; 0; 0] 4177920 3 65536 []).
  - lia.
  - reflexivity.
  - lia.
  - reflexivity.
  - lia.
Qed.

(** ** The length prefix of a row *)

Lemma read_le_u16_record x payload :
  read_le_u16 ([Z.land x 255; Z.land (Z.shiftr x 8) 255] ++ payload) 0
  = Some (u16 x).
Proof. rewrite <- (read_le_u16_prefix x). done. Qed.

(** C10.  [aif_write_compressed_rows] writes, row after row, the two bytes
    [comp_len & 0xFF] and [(comp_len >> 8) & 0xFF] and then the [comp_len]
    bytes of the compressed row.  Read as a little-endian number the two
    bytes are [comp_len mod 65536]: the compressed length itself when it is
    at most 65535, and another number when it exceeds 65535, which happens
    (a row of 4177920 black RGB8 pixels has [comp_len = 65536]). *)
Theorem row_length_prefix_wraps pixels width height bpp out :
  1 <= width <= UINT32_MAX -> 0 <= height <= UINT32_MAX ->
  bpp = 1 \/ bpp = 3 ->
  len pixels = width * bpp * height -> len pixels <= SIZE_MAX ->
  (exists total,
     aif_write_compressed_rows out pixels width height bpp
     = Some (out
             ++ concat
                  ((fun r => row_record (row_view pixels (width * bpp) r)
                               width bpp) <$> seqZ 0 height),
             total))
  /\ (forall r, 0 <= r < height ->
        let row := row_view pixels (width * bpp) r in
        let comp_len := compress_row_len row width bpp in
        exists payload,
          row_record row width bpp
          = [Z.land comp_len 255; Z.land (Z.shiftr comp_len 8) 255] ++ payload
          /\ len payload = comp_len
          /\ (forall buffer, len buffer = width * (bpp + 2) ->
                compress_row row width bpp buffer
                = Some (blit buffer 0 payload, comp_len))
          /\ read_le_u16 (row_record row width bpp) 0
             = Some (comp_len mod 65536)
          /\ (comp_len <= UINT16_MAX ->
              read_le_u16 (row_record row width bpp) 0 = Some comp_len)
          /\ (UINT16_MAX < comp_len ->
              read_le_u16 (row_record row width bpp) 0 <> Some comp_len))
  /\ (exists row width bpp,
        (bpp = 1 \/ bpp = 3) /\ 1 <= width <= UINT32_MAX
        /\ len row = width * bpp
        /\ UINT16_MAX < compress_row_len row width bpp).
Proof.
  intros Hwidth Hheight Hbpp Hpixels Hmax.
  assert (1 <= bpp <= 3) as Hbpp' by lia.
  assert (0 <= width <= UINT32_MAX) as Hwidth' by lia.
  split_and!.
  - eexists. by apply aif_write_compressed_rows_spec.
  - intros r Hr row comp_len.
    destruct (row_view_len pixels width height bpp Hbpp' Hwidth' Hpixels Hmax r
                Hr) as [Hview Hview_max].
    fold row in Hview, Hview_max.
    pose proof (compress_row_len_spec row width bpp Hbpp' Hwidth' Hview
                  Hview_max) as Hlen.
    fold comp_len in Hlen.
    pose proof (len_nonneg (compressed_row row width bpp)) as Hnonneg.
    exists (compressed_row row width bpp).
    assert (read_le_u16 (row_record row width bpp) 0
            = Some (comp_len mod 65536)) as Hread.
    { unfold row_record. cbv zeta. rewrite <- Hlen.
      apply read_le_u16_record. }
    split_and!.
    + unfold row_record. cbv zeta. by rewrite <- Hlen.
    + done.
    + intros buffer Hbuf.
      destruct (compress_decompress_row row width bpp buffer
                  (malloc (width * bpp)))
        as (_ & -> & _); [done..| |by rewrite Hlen].
      rewrite len_malloc; [lia|]. apply Z.mul_nonneg_nonneg; lia.
    + exact Hread.
    + intros Hshort. rewrite Hread, Z.mod_small by lia. done.
    + intros Hlong. rewrite Hread. intros [= Heq].
      pose proof (Z.mod_pos_bound comp_len 65536 ltac:(lia)). lia.
  - exists (constant_row [0; 0; 0] 4177920), 4177920, 3.
    destruct (constant_image_not_decoded [0; 0; 0] 4177920 3 65536 [])
      as (Hlen & Hlong & _); [lia|reflexivity|lia|reflexivity|lia|].
    split; [by right|]. split; [lia|]. split; [exact Hlen|lia].
Qed.

Lemma row_length_prefix_wraps_witness :
  exists total,
    aif_write_compressed_rows [] [10; 10; 10; 50] 4 1 1
    = Some ([]
            ++ concat
                 ((fun r => row_record (row_view [10; 10; 10; 50] (4 * 1) r) 4
                              1) <$> seqZ 0 1),
            total).
Proof.
  destruct (row_length_prefix_wraps [10; 10; 10; 50] 4 1 1 [])
    as (Hwritten & _ & _);
    [lia|lia|by left|reflexivity|vm_compute; congruence|].
  exact Hwritten.
Defined.

(** ** Checksum *)

Lemma outcome_bind_Done' {A B} (f : A -> outcome B) (a : A) : Done a ≫= f = f a.
Proof. done. Qed.

Lemma mask_checksum_field_len f : len (mask_checksum_field f) = len f.
Proof. unfold mask_checksum_field, len. by rewrite !length_insert. Qed.

Lemma mask_checksum_field_lookup f pos b :
  0 <= pos -> load f pos = Some b ->
  load (mask_checksum_field f) pos
  = Some (if (pos =? 4) || (pos =? 5) then 0 else b).
Proof.
  intros Hpos Hb. rewrite load_lookup in * by done.
  pose proof (lookup_lt_Some _ _ _ Hb) as Hlt.
  unfold mask_checksum_field.
  destruct (Z.eqb_spec pos 4) as [->|H4]; simpl.
  { change (Z.to_nat 4) with 4%nat in *.
    rewrite list_lookup_insert_eq; [done|]. by rewrite length_insert. }
  rewrite list_lookup_insert_ne by lia.
  destruct (Z.eqb_spec pos 5) as [->|H5]; simpl.
  { change (Z.to_nat 5) with 5%nat in *.
    by rewrite list_lookup_insert_eq. }
  by rewrite list_lookup_insert_ne by lia.
Qed.

Lemma mask_checksum_field_bytes f : bytes f -> bytes (mask_checksum_field f).
Proof.
  intros Hb. unfold mask_checksum_field, bytes.
  apply Forall_insert; [apply Forall_insert; [done|]|]; unfold is_byte; lia.
Qed.

Lemma mask_checksum_field_insert f v4 v5 :
  mask_checksum_field (<[4%nat := v4]> (<[5%nat := v5]> f))
  = mask_checksum_field f.
Proof.
  unfold mask_checksum_field.
  rewrite (list_insert_insert_ne _ 5 4) by lia.
  by rewrite !list_insert_insert_eq.
Qed.

Lemma checksum_step_range sums byte :
  0 <= fst (checksum_step sums byte) < 256
  /\ 0 <= snd (checksum_step sums byte) < 256.
Proof.
  unfold checksum_step. simpl.
  split; apply Z.mod_pos_bound; lia.
Qed.

Lemma checksum_foldl_range bs : forall sums,
  0 <= fst sums < 256 -> 0 <= snd sums < 256 ->
  0 <= fst (foldl checksum_step sums bs) < 256
  /\ 0 <= snd (foldl checksum_step sums bs) < 256.
Proof.
  induction bs as [|b bs IH]; intros sums H1 H2; [done|].
  simpl. apply IH; apply checksum_step_range.
Qed.

Lemma compute_checksum_loop_spec fuel : forall f file_size pos sum1 sum2,
  bytes f -> file_size <= len f -> file_size <= INT_MAX ->
  0 <= pos -> (Z.to_nat (file_size - pos) < fuel)%nat ->
  0 <= sum1 < 256 -> 0 <= sum2 < 256 ->
  compute_checksum_loop fuel f file_size pos sum1 sum2
  = Done (foldl checksum_step (sum1, sum2)
            (slice (mask_checksum_field f) pos (file_size - pos))).
Proof.
  induction fuel as [|fuel IH];
    intros f file_size pos sum1 sum2 Hbytes Hsize Hint Hpos Hfuel H1 H2; [lia|].
  cbn [compute_checksum_loop].
  destruct (Z.ltb_spec pos file_size) as [Hlt|Hge].
  - destruct (load_Some f pos) as [b Hb]; [lia|].
    pose proof (load_byte _ _ _ Hbytes Hb) as Hb_range.
    pose proof (mask_checksum_field_lookup f pos b Hpos Hb) as Hmask.
    rewrite Hb.
    rewrite (usize_small pos) by lia.
    change (usize (AIF_CHECKSUM_OFFSET + 1)) with 5.
    change AIF_CHECKSUM_OFFSET with 4.
    rewrite int32_small by lia.
    set (byte := if (pos =? 4) || (pos =? 5) then 0 else b) in *.
    assert (0 <= byte <= 255) as Hbyte_range.
    { unfold byte. destruct ((pos =? 4) || (pos =? 5)); lia. }
    rewrite (Z.rem_mod_nonneg (sum1 + byte) 256) by lia.
    pose proof (Z.mod_pos_bound (sum1 + byte) 256 ltac:(lia)).
    rewrite Z.rem_mod_nonneg by lia.
    rewrite IH; [|done|lia|lia|lia|lia|apply Z.mod_pos_bound; lia
                 |apply Z.mod_pos_bound; lia].
    f_equal.
    replace (file_size - pos) with (1 + (file_size - (pos + 1))) by lia.
    rewrite slice_app by lia.
    destruct (load_slice (mask_checksum_field f) pos) as (b' & Hb' & ->).
    { rewrite mask_checksum_field_len. lia. }
    rewrite Hmask in Hb'. inversion Hb'; subst b'. done.
  - replace (file_size - pos) with (file_size - pos) by lia.
    unfold slice. rewrite Z2Nat.nonpos by lia. done.
Qed.


Lemma checksum_spec_value f file_size :
  let sums := checksum_sums (take (Z.to_nat file_size) (mask_checksum_field f)) in
  checksum_spec f file_size = snd sums * 256 + fst sums
  /\ 0 <= fst sums < 256 /\ 0 <= snd sums < 256.
Proof.
  intros sums. unfold checksum_spec. fold sums.
  destruct (checksum_foldl_range
              (take (Z.to_nat file_size) (mask_checksum_field f)) (0, 0))
    as [H1 H2]; [simpl; lia..|].
  fold (checksum_sums (take (Z.to_nat file_size) (mask_checksum_field f)))
    in H1, H2.
  fold sums in H1, H2.
  split; [|done].
  destruct sums as [sum1 sum2]. simpl in *.
  rewrite Z.shiftl_mul_pow2 by lia. change (2 ^ 8) with 256.
  rewrite <- Z.lxor_lor, <- Z.add_nocarry_lxor; [done| |].
  all: apply Z.bits_inj'; intros n Hn; rewrite Z.land_spec, Z.bits_0.
  all: destruct (Z.lt_ge_cases n 8).
  all: try (replace (sum2 * 256) with (Z.shiftl sum2 8)
              by (rewrite Z.shiftl_mul_pow2 by lia; done);
            rewrite Z.shiftl_spec_low by lia; done).
  all: rewrite (Z.bits_above_log2 sum1 n), andb_false_r; [done|lia|].
  all: destruct (decide (sum1 = 0)) as [->|]; [simpl; lia|].
  all: apply Z.log2_lt_pow2; [lia|].
  all: assert (2 ^ 8 <= 2 ^ n) by (apply Z.pow_le_mono_r; lia).
  all: change (2 ^ 8) with 256 in *; lia.
Qed.

Lemma checksum_spec_range f file_size : 0 <= checksum_spec f file_size < 65536.
Proof.
  destruct (checksum_spec_value f file_size) as (-> & H1 & H2). lia.
Qed.

(** [compute_checksum] runs the two sums of the specification. *)
Lemma compute_checksum_eq f file_size :
  bytes f -> file_size <= len f -> file_size <= INT_MAX ->
  compute_checksum f file_size = Done (checksum_spec f file_size).
Proof.
  intros Hbytes Hsize Hint. unfold compute_checksum.
  rewrite compute_checksum_loop_spec by (done || lia).
  rewrite outcome_bind_Done', Z.sub_0_r.
  unfold slice. change (Z.to_nat 0) with 0%nat. rewrite drop_0.
  pose proof (checksum_spec_range f file_size) as Hrange.
  unfold checksum_spec, checksum_sums in *.
  destruct (foldl checksum_step (0, 0)
              (take (Z.to_nat file_size) (mask_checksum_field f)))
    as [sum1 sum2].
  cbn [fst snd] in *. f_equal. apply u16_small. lia.
Qed.

(** C3.  On a file of bytes [f] that holds at least [file_size] bytes,
    [compute_checksum] runs the two sums of the specification, [sum1 =
    (sum1 + byte) mod 256] and [sum2 = (sum2 + sum1) mod 256], over the bytes
    at the offsets [0 .. file_size - 1] with the two bytes at the offsets 4
    and 5 taken as zero, and returns [(sum2 << 8) | sum1], the 16-bit number
    whose high byte is [sum2] and whose low byte is [sum1]. *)
Theorem compute_checksum_spec f file_size :
  bytes f -> file_size <= len f -> file_size <= INT_MAX ->
  compute_checksum f file_size = Done (checksum_spec f file_size)
  /\ (let sums := checksum_sums
                    (take (Z.to_nat file_size) (mask_checksum_field f)) in
      checksum_spec f file_size = snd sums * 256 + fst sums
      /\ 0 <= fst sums < 256 /\ 0 <= snd sums < 256).
Proof.
  intros Hbytes Hsize Hint. split.
  - by apply compute_checksum_eq.
  - apply checksum_spec_value.
Qed.

Lemma compute_checksum_spec_witness :
  compute_checksum [65; 73; 70; 0; 171; 205; 2; 0] 8
  = Done (checksum_spec [65; 73; 70; 0; 171; 205; 2; 0] 8).
Proof.
  apply (compute_checksum_spec [65; 73; 70; 0; 171; 205; 2; 0] 8).
  - repeat first [apply Forall_nil|apply Forall_cons; split];
      first [exact I|unfold is_byte; lia].
  - vm_compute. congruence.
  - lia.
Defined.

(** The bytes of the checksum field do not count. *)
Lemma compute_checksum_field f file_size v4 v5 :
  bytes f -> 0 <= v4 < 256 -> 0 <= v5 < 256 ->
  file_size <= len f -> file_size <= INT_MAX ->
  compute_checksum (<[4%nat := v4]> (<[5%nat := v5]> f)) file_size
  = compute_checksum f file_size.
Proof.
  intros Hbytes H4 H5 Hsize Hint.
  rewrite (compute_checksum_eq f file_size) by done.
  rewrite compute_checksum_eq.
  - unfold checksum_spec. by rewrite mask_checksum_field_insert.
  - apply Forall_insert; [apply Forall_insert|]; done.
  - unfold len in *. by rewrite !length_insert.
  - done.
Qed.

(** C4.  The end of every operation: the checksum [c] of the file written
    ([header] and [data]) is computed, its low and high byte are stored at
    the offsets 4 and 5 of the header and the header is written again.  The
    checksum of the resulting file is [c] again, and it is the number the
    file now holds in its checksum field. *)
Theorem checksum_fixed_point header data :
  len header = AIF_HEADER_SIZE -> bytes (header ++ data) ->
  AIF_HEADER_SIZE + len data <= INT_MAX ->
  exists c file',
    compute_checksum (header ++ data) (len (header ++ data)) = Done c
    /\ patch_checksum header (header ++ data) (len data) = Done file'
    /\ file'
       = <[4%nat := Z.land c 255]>
           (<[5%nat := Z.land (Z.shiftr c 8) 255]> (header ++ data))
    /\ read_le_u16 file' AIF_CHECKSUM_OFFSET = Some c
    /\ compute_checksum file' (len file') = Done c.
Proof.
  intros Hheader Hbytes Hint.
  change AIF_HEADER_SIZE with 20 in *. change AIF_CHECKSUM_OFFSET with 4.
  pose proof (len_nonneg data) as Hdata.
  set (file := header ++ data).
  assert (len file = 20 + len data) as Hfile
    by (unfold file; rewrite len_app; lia).
  pose proof (compute_checksum_eq file (len file) Hbytes ltac:(lia)
                ltac:(lia)) as Hc.
  pose proof (checksum_spec_range file (len file)) as Hc_range.
  set (c := checksum_spec file (len file)) in *.
  pose proof (land_255_byte c) as Hlo.
  pose proof (land_255_byte (Z.shiftr c 8)) as Hhi.
  set (lo := Z.land c 255) in *. set (hi := Z.land (Z.shiftr c 8) 255) in *.
  assert (<[4%nat := lo]> (<[5%nat := hi]> file)
          = <[5%nat := hi]> (<[4%nat := lo]> header) ++ data) as Hfile'.
  { unfold file.
    rewrite (list_insert_insert_ne _ 4 5) by lia.
    by rewrite !insert_app_l
      by (rewrite ?length_insert; unfold len in *; lia). }
  exists c, (<[4%nat := lo]> (<[5%nat := hi]> file)).
  assert (compute_checksum (<[4%nat := lo]> (<[5%nat := hi]> file))
            (len (<[4%nat := lo]> (<[5%nat := hi]> file))) = Done c) as Hfixed.
  { replace (len (<[4%nat := lo]> (<[5%nat := hi]> file))) with (len file)
      by (unfold len; by rewrite !length_insert).
    rewrite compute_checksum_field by (done || lia). exact Hc. }
  split_and!; [exact Hc| |done| |exact Hfixed].
  - unfold patch_checksum.
    rewrite (int32_small (len data)) by lia.
    rewrite (usize_small (len data)) by lia.
    change AIF_HEADER_SIZE with 20. change AIF_CHECKSUM_OFFSET with 4.
    rewrite (usize_small (20 + len data)) by lia.
    rewrite (int32_small (20 + len data)) by lia.
    rewrite <- Hfile. fold file. rewrite Hc, outcome_bind_Done'.
    fold lo hi. rewrite !u8_small by lia.
    unfold store.
    rewrite bool_decide_eq_true_2 by lia.
    cbn [defined]. rewrite outcome_bind_Done'.
    rewrite bool_decide_eq_true_2
      by (unfold len in *; rewrite length_insert; lia).
    cbn [defined]. rewrite outcome_bind_Done'.
    f_equal. rewrite Hfile'. f_equal.
    unfold file. change (Z.to_nat 20) with 20%nat.
    rewrite drop_app_length'; [done|]. unfold len in *. lia.
  - unfold read_le_u16.
    rewrite !load_lookup by lia.
    change (Z.to_nat 4) with 4%nat. change (Z.to_nat (4 + 1)) with 5%nat.
    rewrite list_lookup_insert_eq
      by (rewrite length_insert; unfold len in *; lia).
    rewrite option_bind_Some.
    rewrite list_lookup_insert_ne by lia.
    rewrite list_lookup_insert_eq by (unfold len in *; lia).
    rewrite option_bind_Some.
    unfold lo, hi. rewrite le16_value.
    by rewrite u16_idem, u16_small by lia.
Qed.

Lemma checksum_fixed_point_witness :
  exists c file',
    compute_checksum
      ([65; 73; 70; 0; 0; 0; 2; 0; 4; 0; 0; 0; 1; 0; 0; 0; 20; 0; 0; 0]
       ++ [10; 10; 10; 50])
      (len ([65; 73; 70; 0; 0; 0; 2; 0; 4; 0; 0; 0; 1; 0; 0; 0; 20; 0; 0; 0]
            ++ [10; 10; 10; 50]))
    = Done c
    /\ patch_checksum
         [65; 73; 70; 0; 0; 0; 2; 0; 4; 0; 0; 0; 1; 0; 0; 0; 20; 0; 0; 0]
         ([65; 73; 70; 0; 0; 0; 2; 0; 4; 0; 0; 0; 1; 0; 0; 0; 20; 0; 0; 0]
          ++ [10; 10; 10; 50])
         (len [10; 10; 10; 50])
       = Done file'
    /\ file'
       = <[4%nat := Z.land c 255]>
           (<[5%nat := Z.land (Z.shiftr c 8) 255]>
              ([65; 73; 70; 0; 0; 0; 2; 0; 4; 0; 0; 0; 1; 0; 0; 0; 20; 0; 0; 0]
               ++ [10; 10; 10; 50]))
    /\ read_le_u16 file' AIF_CHECKSUM_OFFSET = Some c
    /\ compute_checksum file' (len file') = Done c.
Proof.
  apply (checksum_fixed_point
           [65; 73; 70; 0; 0; 0; 2; 0; 4; 0; 0; 0; 1; 0; 0; 0; 20; 0; 0; 0]
           [10; 10; 10; 50]).
  - reflexivity.
  - repeat first [apply Forall_nil|apply Forall_cons; split];
      first [exact I|unfold is_byte; lia].
  - vm_compute. congruence.
Defined.

(** ** Header validation of the operations *)

Lemma aif_open_and_read_header_spec content :
  AIF_HEADER_SIZE <= len content ->
  aif_open_and_read_header (Some content)
  = Done (mkFILE content AIF_HEADER_SIZE,
          take (Z.to_nat AIF_HEADER_SIZE) content, int32 (len content)).
Proof.
  intros Hlen. unfold aif_open_and_read_header, fread. cbn [f_pos f_bytes].
  change (Z.to_nat 0) with 0%nat. rewrite drop_0.
  assert (len (take (Z.to_nat AIF_HEADER_SIZE) content) = AIF_HEADER_SIZE)
    as ->.
  { unfold len in *. rewrite length_take.
    change AIF_HEADER_SIZE with 20 in *. lia. }
  by rewrite Z.ltb_irrefl.
Qed.

Lemma aif_magic_valid_cons h0 h1 h2 h3 h :
  aif_magic_valid (h0 :: h1 :: h2 :: h3 :: h)
  = Some ((h0 =? 65) && (h1 =? 73) && (h2 =? 70) && (h3 =? 0)).
Proof.
  unfold aif_magic_valid.
  change (load (h0 :: h1 :: h2 :: h3 :: h) 0) with (Some h0).
  change (load (h0 :: h1 :: h2 :: h3 :: h) 1) with (Some h1).
  change (load (h0 :: h1 :: h2 :: h3 :: h) 2) with (Some h2).
  change (load (h0 :: h1 :: h2 :: h3 :: h) 3) with (Some h3).
  rewrite !option_bind_Some.
  destruct (h0 =? 65); [|done]. destruct (h1 =? 73); [|done].
  by destruct (h2 =? 70).
Qed.

(** What the operations read from the header of a file that holds one, and
    what the checks make of each violation. *)
Lemma header_fields content :
  AIF_HEADER_SIZE <= len content ->
  exists pixel_format compression width height magic_ok,
    let header := take (Z.to_nat AIF_HEADER_SIZE) content in
    load header AIF_PXL_FMT_OFFSET = Some pixel_format
    /\ load header AIF_COMPRESSION_OFFSET = Some compression
    /\ read_le_u32 header AIF_WIDTH_OFFSET = Some width
    /\ read_le_u32 header AIF_HEIGHT_OFFSET = Some height
    /\ aif_magic_valid header = Some magic_ok
    /\ (violates content InvalidMagic -> magic_ok = false)
    /\ (violates content InvalidPixelFormat ->
        aif_format_valid pixel_format = false)
    /\ (violates content InvalidCompression ->
        negb (compression =? AIF_COMPRESSION_NONE)
        && negb (compression =? AIF_COMPRESSION_RLE) = true)
    /\ (violates content InvalidDimensions ->
        negb (aif_dim_valid width) || negb (aif_dim_valid height) = true).
Proof.
  intros Hlen. change AIF_HEADER_SIZE with 20 in *.
  do 20 (destruct content as [|? content];
         [unfold len in Hlen; simpl in Hlen; lia|]).
  clear Hlen. change (Z.to_nat 20) with 20%nat. cbn [take].
  eexists _, _, _, _, _. cbn zeta.
  split; [reflexivity|]. split; [reflexivity|].
  split; [reflexivity|]. split; [reflexivity|].
  split; [apply aif_magic_valid_cons|].
  split_and!.
  - intros Hv. apply not_true_is_false. intros Hok.
    apply Hv. vm_compute slice.
    repeat (apply andb_prop in Hok as [Hok ?]).
    unfold AIF_MAGIC. repeat f_equal; lia.
  - intros [Hrgb Hgray]. vm_compute in Hrgb, Hgray.
    unfold aif_format_valid.
    change AIF_FMT_RGB8 with 1. change AIF_FMT_GRAY8 with 2.
    destruct (Z.eqb_spec z5 1) as [->|]; [done|].
    destruct (Z.eqb_spec z5 2) as [->|]; done.
  - intros [Hnone Hrle]. vm_compute in Hnone, Hrle.
    change AIF_COMPRESSION_NONE with 0. change AIF_COMPRESSION_RLE with 1.
    destruct (Z.eqb_spec z6 0) as [->|]; [done|].
    destruct (Z.eqb_spec z6 1) as [->|]; done.
  - intros [Hw|Hh]; vm_compute in Hw || vm_compute in Hh.
    + injection Hw as -> -> -> ->. reflexivity.
    + injection Hh as -> -> -> ->. apply orb_true_iff. by right.
Qed.

Ltac reject_header content Hlen v Hv :=
  let Hmagic := fresh "Hmagic" in
  let Hformat := fresh "Hformat" in
  let Hcompression := fresh "Hcompression" in
  let Hdim := fresh "Hdim" in
  destruct (header_fields content Hlen)
    as (pixel_format & compression & width & height & magic_ok & Hpf & Hco
        & Hw & Hh & Hok & Hmagic & Hformat & Hcompression & Hdim);
  cbn zeta in Hpf, Hco, Hw, Hh, Hok;
  rewrite aif_open_and_read_header_spec by done;
  cbn [mbind outcome_bind];
  rewrite Hpf, ?Hco, Hw, Hh, Hok;
  cbn [defined mbind outcome_bind];
  destruct v;
  [specialize (Hmagic Hv); rewrite Hmagic
  |specialize (Hformat Hv); rewrite Hformat
  |try (specialize (Hcompression Hv); rewrite Hcompression)
  |specialize (Hdim Hv); rewrite Hdim];
  repeat match goal with
         | |- (if ?b then _ else _) = _ =>
             destruct b eqn:?; [try reflexivity|]
         end;
  try reflexivity; try (cbn [negb] in *; congruence).

(** [brighten], [convert-color] and [compress] leave with the message of an
    invalid file on each of the four violations, before the pixels are
    read. *)
Lemma stage2_brighten_rejects brighten_rgb amount content v :
  AIF_HEADER_SIZE <= len content -> violates content v ->
  stage2_brighten brighten_rgb amount (Some content) = Exit NotValidAIF.
Proof.
  intros Hlen Hv. unfold stage2_brighten. reject_header content Hlen v Hv.
Qed.

Lemma stage3_convert_color_rejects color content v :
  AIF_HEADER_SIZE <= len content -> violates content v ->
  stage3_convert_color color (Some content) = Exit NotValidAIF.
Proof.
  intros Hlen Hv. unfold stage3_convert_color. reject_header content Hlen v Hv.
Qed.

Lemma stage5_compress_rejects content v :
  AIF_HEADER_SIZE <= len content -> violates content v ->
  stage5_compress (Some content) = Exit NotValidAIF.
Proof.
  intros Hlen Hv. unfold stage5_compress. reject_header content Hlen v Hv.
Qed.

(** [decompress] does so on three of them. *)
Lemma stage4_decompress_rejects content v :
  AIF_HEADER_SIZE <= len content -> v <> InvalidCompression ->
  violates content v ->
  stage4_decompress (Some content) = Exit NotValidAIF.
Proof.
  intros Hlen Hne Hv. unfold stage4_decompress.
  reject_header content Hlen v Hv.
Qed.

(** C5.  The four violations are fatal for [brighten], [convert-color] and
    [compress], and three of them for [decompress]; but [stage4_decompress]
    never reads the compression byte of the header.  The file below is a
    GRAY8 image of width 4 and height 1 whose compression byte is 7, neither
    NONE nor RLE: [compress] leaves with the message of an invalid file,
    while [decompress] decodes its row and writes an output file, with the
    compression byte set to NONE and the checksum stored. *)
Theorem stage4_decompress_accepts_invalid_compression :
  let content :=
    [65; 73; 70; 0; 0; 0; 2; 7; 4; 0; 0; 0; 1; 0; 0; 0; 20; 0; 0; 0;
     5; 0; 3; 10; 0; 1; 50] in
  violates content InvalidCompression
  /\ stage5_compress (Some content) = Exit NotValidAIF
  /\ stage4_decompress (Some content)
     = Done [65; 73; 70; 0; 59; 71; 2; 0; 4; 0; 0; 0; 1; 0; 0; 0; 20; 0; 0; 0;
             10; 10; 10; 50].
Proof.
  cbn zeta. split; [|split].
  - split; vm_compute; discriminate.
  - vm_compute. reflexivity.
  - vm_compute. reflexivity.
Qed.

(** * Further properties *)

(** ** The decoder on any input *)

Section Decoder_parse.

Variables (comp : list Z) (row_len row_bytes bpp : Z).
Hypothesis Hbpp : 1 <= bpp <= 3.
Hypothesis Hbytes : bytes comp.
Hypothesis Hrow_len : 0 <= row_len <= len comp.
Hypothesis Hrow_len_max : row_len <= UINT16_MAX.
Hypothesis Hrow_bytes : 0 <= row_bytes <= 3 * UINT32_MAX.

(** The loop of [decompress_row] reads blocks as long as it can: what it
    leaves is the output of the blocks read, and when it stops with [FALSE]
    the bytes at the cursor are no block that fits. *)
Lemma decompress_row_loop_parse fuel : forall out cp op,
  0 <= cp <= row_len -> 0 <= op <= row_bytes -> row_bytes <= len out ->
  (Z.to_nat (row_len - cp) < fuel)%nat ->
  exists ok s bs,
    decompress_row_loop fuel comp row_len row_bytes bpp (DState out cp op)
    = Some (ok, s)
    /\ Forall (block_ok bpp) bs
    /\ slice comp cp (len (serialize bs)) = serialize bs
    /\ cp + len (serialize bs) <= row_len
    /\ op + len (expand bs) <= row_bytes
    /\ d_out s = blit out op (expand bs)
    /\ (ok = true ->
        d_op s = op + len (expand bs) /\ d_cp s = cp + len (serialize bs)
        /\ (d_op s = row_bytes \/ d_cp s = row_len))
    /\ (ok = false ->
        malformed comp row_len row_bytes bpp (cp + len (serialize bs))
          (op + len (expand bs))).
Proof.
  induction fuel as [|fuel IH]; intros out cp op Hcp Hop Hout Hfuel; [lia|].
  destruct (decide (op < row_bytes /\ cp < row_len)) as [[Hop' Hcp']|Hdone].
  - destruct (load_slice comp cp) as (tag & Htag & Htag_slice); [lia|].
    pose proof (load_byte _ _ _ Hbytes Htag) as Htag_range.
    destruct (decide (tag = 0)) as [->|Hne].
    + assert (exists c, (cp + 1 < row_len ->
                         load comp (cp + 1) = Some c
                         /\ slice comp (cp + 1) 1 = [c])
                        /\ 0 <= c <= 255) as (c & Hc & Hc_range).
      { destruct (decide (cp + 1 < row_len)) as [Hlt|Hge].
        - destruct (load_slice comp (cp + 1)) as (c & Hc & Hcs); [lia|].
          exists c. split; [done|]. by eapply load_byte.
        - exists 0. split; [lia|lia]. }
      rewrite (decompress_row_loop_literal comp row_len row_bytes bpp Hbpp
                 Hrow_len Hrow_len_max Hrow_bytes _ _ _ _ c)
        by (done || lia || (intros; by apply Hc)).
      destruct (Z.geb_spec (cp + 1) row_len).
      { exists false, (DState out (cp + 1) op), [].
        rewrite blit_nil, !Z.add_0_r. split_and!; try done; try lia.
        intros _. by apply literal_count_past_end; [|lia]. }
      destruct Hc as [Hc Hc_slice]; [lia|].
      destruct (Z.eqb_spec c 0) as [->|Hc0].
      { exists false, (DState out (cp + 1 + 1) op), [].
        rewrite blit_nil, !Z.add_0_r. split_and!; try done; try lia.
        intros _. by apply literal_count_zero; [|lia|]. }
      destruct (Z.gtb_spec (cp + 1 + 1 + c * bpp) row_len).
      { exists false, (DState out (cp + 1 + 1) op), [].
        rewrite blit_nil, !Z.add_0_r. split_and!; try done; try lia.
        intros _. apply (literal_payload_past_end _ _ _ _ _ _ c); [done|lia|done|lia]. }
      destruct (Z.gtb_spec (op + c * bpp) row_bytes).
      { exists false, (DState out (cp + 1 + 1) op), [].
        rewrite blit_nil, !Z.add_0_r. split_and!; try done; try lia.
        intros _. apply (literal_output_overrun _ _ _ _ _ _ c); [done|lia|done|lia]. }
      assert (0 <= c * bpp) by (apply Z.mul_nonneg_nonneg; lia).
      set (payload := slice comp (cp + 1 + 1) (c * bpp)).
      assert (len payload = c * bpp) as Hpl by (apply len_slice; lia).
      destruct (IH (blit out op payload) (cp + 1 + 1 + c * bpp) (op + c * bpp))
        as (ok & s & bs & -> & Hok & Hser & Hcp_end & Hop_end & Hout' & Htrue
            & Hfalse);
        [lia|lia|rewrite len_blit; lia|lia|].
      pose proof (len_nonneg (serialize bs)). pose proof (len_nonneg (expand bs)).
      exists ok, s, (Literal c payload :: bs).
      rewrite serialize_cons, expand_cons. cbn [block_bytes block_pixels].
      rewrite !len_app, !len_cons, Hpl.
      split_and!; try done; try lia.
      * apply Forall_cons. split; [|done]. split; [lia|done].
      * replace (1 + (1 + c * bpp) + len (serialize bs))
          with (1 + (1 + (c * bpp + len (serialize bs)))) by lia.
        rewrite (slice_app comp cp 1) by lia. rewrite Htag_slice.
        rewrite (slice_app comp (cp + 1) 1) by lia. rewrite Hc_slice.
        rewrite (slice_app comp (cp + 1 + 1) (c * bpp)) by lia.
        fold payload. by rewrite Hser.
      * rewrite Hout'. apply blit_seq; lia.
      * intros Hk. destruct (Htrue Hk) as (-> & -> & Hor). split_and!; lia.
      * intros Hk. specialize (Hfalse Hk).
        by replace (cp + (1 + (1 + c * bpp) + len (serialize bs)))
          with (cp + 1 + 1 + c * bpp + len (serialize bs)) by lia;
        replace (op + (c * bpp + len (expand bs)))
          with (op + c * bpp + len (expand bs)) by lia.
    + rewrite (decompress_row_loop_repeat comp row_len row_bytes bpp Hbpp
                 Hrow_len Hrow_len_max Hrow_bytes _ _ _ _ tag)
        by (done || lia).
      destruct (Z.gtb_spec (cp + 1 + bpp) row_len).
      { exists false, (DState out (cp + 1) op), [].
        rewrite blit_nil, !Z.add_0_r. split_and!; try done; try lia.
        intros _. apply (repeat_pixel_past_end _ _ _ _ _ _ tag); [done|done|lia]. }
      destruct (Z.gtb_spec (op + tag * bpp) row_bytes).
      { exists false, (DState out (cp + 1 + bpp) op), [].
        rewrite blit_nil, !Z.add_0_r. split_and!; try done; try lia.
        intros _. apply (repeat_output_overrun _ _ _ _ _ _ tag); [done|done|lia]. }
      assert (0 <= tag * bpp) by (apply Z.mul_nonneg_nonneg; lia).
      set (pixel := slice comp (cp + 1) bpp).
      assert (len pixel = bpp) as Hpx by (apply len_slice; lia).
      assert (len (concat (replicate (Z.to_nat tag) pixel)) = tag * bpp) as Hpl.
      { rewrite len_concat_replicate, Hpx. lia. }
      destruct (IH (blit out op (concat (replicate (Z.to_nat tag) pixel)))
                  (cp + 1 + bpp) (op + tag * bpp))
        as (ok & s & bs & -> & Hok & Hser & Hcp_end & Hop_end & Hout' & Htrue
            & Hfalse);
        [lia|lia|rewrite len_blit; lia|lia|].
      pose proof (len_nonneg (serialize bs)). pose proof (len_nonneg (expand bs)).
      exists ok, s, (Repeat tag pixel :: bs).
      rewrite serialize_cons, expand_cons. cbn [block_bytes block_pixels].
      rewrite !len_app, !len_cons, Hpl, Hpx.
      split_and!; try done; try lia.
      * apply Forall_cons. split; [|done]. split; [lia|done].
      * replace (1 + bpp + len (serialize bs))
          with (1 + (bpp + len (serialize bs))) by lia.
        rewrite (slice_app comp cp 1) by lia. rewrite Htag_slice.
        rewrite (slice_app comp (cp + 1) bpp) by lia.
        fold pixel. by rewrite Hser.
      * rewrite Hout'. apply blit_seq; lia.
      * intros Hk. destruct (Htrue Hk) as (-> & -> & Hor). split_and!; lia.
      * intros Hk. specialize (Hfalse Hk).
        by replace (cp + (1 + bpp + len (serialize bs)))
          with (cp + 1 + bpp + len (serialize bs)) by lia;
        replace (op + (tag * bpp + len (expand bs)))
          with (op + tag * bpp + len (expand bs)) by lia.
  - rewrite (decompress_row_loop_done comp row_len row_bytes bpp)
      by (simpl; lia).
    exists true, (DState out cp op), [].
    rewrite blit_nil. cbn [d_out d_op d_cp]. rewrite !Z.add_0_r.
    split_and!; try done; lia.
Qed.

End Decoder_parse.

Lemma drop_blit_0 out l n :
  len l <= n -> n <= len out ->
  drop (Z.to_nat n) (blit out 0 l) = drop (Z.to_nat n) out.
Proof.
  intros Hl Hn. pose proof (len_nonneg l). unfold blit, len in *.
  change (Z.to_nat 0) with 0%nat. rewrite take_0, app_nil_l, Nat.add_0_l.
  rewrite drop_app_ge by lia. rewrite drop_drop. f_equal. lia.
Qed.

(** What [decompress_row] returns on any compressed row: the blocks it has
    read, and why it stopped. *)
Lemma decompress_row_parse comp row_len out_row row_bytes bpp :
  1 <= bpp <= 3 -> bytes comp -> 0 <= row_len <= UINT16_MAX ->
  row_len <= len comp -> 0 <= row_bytes <= 3 * UINT32_MAX ->
  row_bytes <= len out_row ->
  exists ok bs,
    decompress_row comp row_len out_row row_bytes bpp
    = Some (ok, blit out_row 0 (expand bs))
    /\ Forall (block_ok bpp) bs
    /\ slice comp 0 (len (serialize bs)) = serialize bs
    /\ len (serialize bs) <= row_len
    /\ len (expand bs) <= row_bytes
    /\ (ok = true -> len (expand bs) = row_bytes)
    /\ (ok = false ->
        malformed comp row_len row_bytes bpp (len (serialize bs))
          (len (expand bs))
        \/ (len (serialize bs) = row_len /\ len (expand bs) < row_bytes)).
Proof.
  intros Hbpp Hbytes Hrow_len Hcomp Hrow_bytes Hout.
  unfold decompress_row. rewrite u16_small by lia.
  destruct (decompress_row_loop_parse comp row_len row_bytes bpp Hbpp Hbytes
              ltac:(lia) ltac:(lia) Hrow_bytes (S (Z.to_nat row_len)) out_row
              0 0)
    as (ok & s & bs & -> & Hok & Hser & Hcp & Hop & Hs & Htrue & Hfalse);
    [lia..|].
  rewrite !Z.add_0_l in *. rewrite option_bind_Some.
  destruct ok; cbn [negb].
  - destruct Htrue as (Hop' & Hcp' & Hor); [done|].
    destruct (Z.eqb_spec (d_op s) row_bytes) as [Heq|Hne]; cbn [negb].
    + exists true, bs. rewrite Hs. split_and!; try done; lia.
    + exists false, bs. rewrite Hs. split_and!; try done.
      intros _. right. lia.
  - exists false, bs. rewrite Hs. split_and!; try done.
    intros _. left. by apply Hfalse.
Qed.

(** [decompress_row] is safe on every compressed row: whatever the bytes
    of [comp] are, it returns without an access outside [comp] (which may
    hold [row_len] bytes and no more) or outside [out_row]; the output row
    keeps its length, and its bytes from [row_bytes] on are left as they
    were. *)
Theorem decompress_row_memory_safe comp row_len out_row row_bytes bpp :
  bpp = 1 \/ bpp = 3 -> bytes comp -> 0 <= row_len <= UINT16_MAX ->
  row_len <= len comp -> 0 <= row_bytes <= 3 * UINT32_MAX ->
  row_bytes <= len out_row ->
  exists ok out',
    decompress_row comp row_len out_row row_bytes bpp = Some (ok, out')
    /\ len out' = len out_row
    /\ drop (Z.to_nat row_bytes) out' = drop (Z.to_nat row_bytes) out_row.
Proof.
  intros Hbpp Hbytes Hrow_len Hcomp Hrow_bytes Hout.
  destruct (decompress_row_parse comp row_len out_row row_bytes bpp)
    as (ok & bs & Hrun & _ & _ & _ & Hlen & _); [lia|done..|].
  pose proof (len_nonneg (expand bs)).
  exists ok, (blit out_row 0 (expand bs)). split_and!.
  - exact Hrun.
  - apply len_blit; lia.
  - apply drop_blit_0; lia.
Qed.

Lemma decompress_row_memory_safe_witness :
  exists ok out',
    decompress_row [7; 1; 2; 0; 9] 5 (malloc 6) 4 1 = Some (ok, out')
    /\ len out' = len (malloc 6)
    /\ drop (Z.to_nat 4) out' = drop (Z.to_nat 4) (malloc 6).
Proof.
  apply (decompress_row_memory_safe [7; 1; 2; 0; 9] 5 (malloc 6) 4 1).
  - by left.
  - repeat first [apply Forall_nil|apply Forall_cons; split];
      first [exact I|unfold is_byte; lia].
  - lia.
  - vm_compute. congruence.
  - lia.
  - vm_compute. congruence.
Defined.

(** [decompress_row] accepts well-formed rows only: when it returns [TRUE],
    the compressed row starts with a sequence of blocks, each a repeat block
    [count, pixel] or a literal block [0, count, pixels] with a count from 1
    to 255, that lies within the declared length and whose pixels are
    [row_bytes] bytes; the output row holds these pixels. *)
Theorem decompress_row_accepts_blocks_only comp row_len out_row row_bytes bpp
    out' :
  bpp = 1 \/ bpp = 3 -> bytes comp -> 0 <= row_len <= UINT16_MAX ->
  row_len <= len comp -> 0 <= row_bytes <= 3 * UINT32_MAX ->
  row_bytes <= len out_row ->
  decompress_row comp row_len out_row row_bytes bpp = Some (true, out') ->
  exists bs,
    Forall (block_ok bpp) bs
    /\ slice comp 0 (len (serialize bs)) = serialize bs
    /\ len (serialize bs) <= row_len
    /\ len (expand bs) = row_bytes
    /\ out' = blit out_row 0 (expand bs).
Proof.
  intros Hbpp Hbytes Hrow_len Hcomp Hrow_bytes Hout Hrun.
  destruct (decompress_row_parse comp row_len out_row row_bytes bpp)
    as (ok & bs & Hrun' & Hok & Hser & Hlen & _ & Htrue & _); [lia|done..|].
  rewrite Hrun in Hrun'. injection Hrun' as <- ->.
  exists bs. split_and!; try done. by apply Htrue.
Qed.

Lemma decompress_row_accepts_blocks_only_witness :
  exists bs,
    Forall (block_ok 1) bs
    /\ slice [3; 10; 0; 1; 50] 0 (len (serialize bs)) = serialize bs
    /\ len (serialize bs) <= 5
    /\ len (expand bs) = 4
    /\ [10; 10; 10; 50] = blit (malloc 4) 0 (expand bs).
Proof.
  apply (decompress_row_accepts_blocks_only [3; 10; 0; 1; 50] 5 (malloc 4) 4
           1 [10; 10; 10; 50]).
  - by left.
  - repeat first [apply Forall_nil|apply Forall_cons; split];
      first [exact I|unfold is_byte; lia].
  - lia.
  - vm_compute. congruence.
  - lia.
  - vm_compute. congruence.
  - reflexivity.
Defined.

(** [decompress_row] rejects for the reasons of its checks only: when it
    returns [FALSE], it has read a sequence of well-formed blocks and then
    either the bytes at the cursor are no block that fits (a literal count
    of 0, a block that ends after the declared length, or pixels that end
    after the output row), or the declared length is used up before the
    output row is full. *)
Theorem decompress_row_rejects_only_malformed comp row_len out_row row_bytes
    bpp out' :
  bpp = 1 \/ bpp = 3 -> bytes comp -> 0 <= row_len <= UINT16_MAX ->
  row_len <= len comp -> 0 <= row_bytes <= 3 * UINT32_MAX ->
  row_bytes <= len out_row ->
  decompress_row comp row_len out_row row_bytes bpp = Some (false, out') ->
  exists bs,
    Forall (block_ok bpp) bs
    /\ slice comp 0 (len (serialize bs)) = serialize bs
    /\ len (serialize bs) <= row_len
    /\ len (expand bs) <= row_bytes
    /\ out' = blit out_row 0 (expand bs)
    /\ (malformed comp row_len row_bytes bpp (len (serialize bs))
          (len (expand bs))
        \/ (len (serialize bs) = row_len /\ len (expand bs) < row_bytes)).
Proof.
  intros Hbpp Hbytes Hrow_len Hcomp Hrow_bytes Hout Hrun.
  destruct (decompress_row_parse comp row_len out_row row_bytes bpp)
    as (ok & bs & Hrun' & Hok & Hser & Hlen & Hexp & _ & Hfalse);
    [lia|done..|].
  rewrite Hrun in Hrun'. injection Hrun' as <- ->.
  exists bs. split_and!; try done. by apply Hfalse.
Qed.

Lemma decompress_row_rejects_only_malformed_witness :
  exists bs,
    Forall (block_ok 1) bs
    /\ slice [3; 10; 0; 50] 0 (len (serialize bs)) = serialize bs
    /\ len (serialize bs) <= 4
    /\ len (expand bs) <= 4
    /\ [10; 10; 10; 0] = blit (malloc 4) 0 (expand bs)
    /\ (malformed [3; 10; 0; 50] 4 4 1 (len (serialize bs)) (len (expand bs))
        \/ (len (serialize bs) = 4 /\ len (expand bs) < 4)).
Proof.
  apply (decompress_row_rejects_only_malformed [3; 10; 0; 50] 4 (malloc 4) 4
           1 [10; 10; 10; 0]).
  - by left.
  - repeat first [apply Forall_nil|apply Forall_cons; split];
      first [exact I|unfold is_byte; lia].
  - lia.
  - vm_compute. congruence.
  - lia.
  - vm_compute. congruence.
  - reflexivity.
Defined.

(** ** The pixel loops of [stage2_brighten] and [stage3_convert_color] *)

Lemma store_insert buf i v :
  0 <= i < len buf -> store buf i v = Some (<[Z.to_nat i := v]> buf).
Proof. intros. unfold store. by rewrite bool_decide_eq_true_2. Qed.

Lemma int16_small x : -32768 <= x < 32768 -> int16 x = x.
Proof. intros. unfold int16. rewrite Z.mod_small; lia. Qed.

Lemma quot_percent_range amount b :
  -100 <= amount <= 100 -> 0 <= b ->
  - b <= Z.quot (b * amount) 100 <= b
  /\ (0 <= amount -> 0 <= Z.quot (b * amount) 100)
  /\ (amount <= 0 -> Z.quot (b * amount) 100 <= 0).
Proof.
  intros Hamount Hb.
  destruct (decide (amount = 0)) as [->|Hne].
  { rewrite Z.mul_0_r. change (Z.quot 0 100) with 0. lia. }
  destruct (Z.le_gt_cases 0 amount) as [Hpos|Hneg].
  - assert (0 <= b * amount) by (apply Z.mul_nonneg_nonneg; lia).
    rewrite Z.quot_div_nonneg by lia.
    assert (0 <= b * amount / 100) by (apply Z.div_pos; lia).
    assert (b * amount / 100 <= b).
    { apply Z.div_le_upper_bound; [lia|].
      rewrite (Z.mul_comm 100). apply Z.mul_le_mono_nonneg_l; lia. }
    lia.
  - replace (b * amount) with (- (b * - amount)) by ring.
    assert (0 <= b * - amount) by (apply Z.mul_nonneg_nonneg; lia).
    rewrite Z.quot_opp_l by lia. rewrite Z.quot_div_nonneg by lia.
    assert (0 <= b * - amount / 100) by (apply Z.div_pos; lia).
    assert (b * - amount / 100 <= b).
    { apply Z.div_le_upper_bound; [lia|].
      rewrite (Z.mul_comm 100). apply Z.mul_le_mono_nonneg_l; lia. }
    lia.
Qed.

Lemma brighten_gray_value amount b :
  -100 <= amount <= 100 -> 0 <= b <= 255 ->
  let val := int16 b in
  let val := int16 (val + Z.quot (val * amount) 100) in
  let val := if val >? 255 then 255 else val in
  let val := if val <? 0 then 0 else val in
  u8 val = brighten_gray amount b.
Proof.
  intros Hamount Hb. cbn zeta. unfold brighten_gray.
  rewrite (int16_small b) by lia.
  pose proof (quot_percent_range amount b Hamount ltac:(lia)) as Hq.
  rewrite int16_small by lia.
  destruct (Z.gtb_spec (b + Z.quot (b * amount) 100) 255).
  - change (255 <? 0) with false. cbn iota. rewrite u8_small; lia.
  - destruct (Z.ltb_spec (b + Z.quot (b * amount) 100) 0); [lia|].
    rewrite u8_small; lia.
Qed.

Lemma brighten_gray_loop_spec fuel amount : forall pixel_data pixel_bytes i,
  -100 <= amount <= 100 ->
  0 <= i <= pixel_bytes -> pixel_bytes <= len pixel_data ->
  len pixel_data <= SIZE_MAX ->
  Forall (fun b => 0 <= b <= 255) (drop (Z.to_nat i) pixel_data) ->
  (Z.to_nat (pixel_bytes - i) < fuel)%nat ->
  brighten_gray_loop fuel amount pixel_data pixel_bytes i
  = Some (take (Z.to_nat i) pixel_data
          ++ (brighten_gray amount
                <$> slice pixel_data i (pixel_bytes - i))
          ++ drop (Z.to_nat pixel_bytes) pixel_data).
Proof.
  induction fuel as [|fuel IH];
    intros pixel_data pixel_bytes i Hamount Hi Hbytes Hmax Hdata Hfuel; [lia|].
  cbn [brighten_gray_loop].
  destruct (Z.ltb_spec i pixel_bytes) as [Hlt|Hge].
  - destruct (load_slice pixel_data i) as (b & Hb & Hbs); [lia|].
    rewrite Hb, option_bind_Some.
    assert (0 <= b <= 255) as Hb_range.
    { rewrite load_lookup in Hb by lia.
      apply (Forall_lookup_1 _ _ 0%nat b) in Hdata; [done|].
      rewrite lookup_drop. by rewrite Nat.add_0_r. }
    pose proof (brighten_gray_value amount b Hamount Hb_range) as Hval.
    cbn zeta in Hval. rewrite Hval.
    rewrite store_insert, option_bind_Some by lia.
    rewrite usize_small by lia.
    rewrite IH; try lia.
    + f_equal.
      assert (length pixel_data = Z.to_nat (len pixel_data)) as Hlen
        by (unfold len; lia).
      replace (Z.to_nat (i + 1)) with (S (Z.to_nat i)) by lia.
      rewrite (take_S_r _ _ (brighten_gray amount b))
        by (apply list_lookup_insert_eq; unfold len in *; lia).
      rewrite take_insert_ge by lia.
      rewrite drop_insert_lt by lia.
      rewrite <- app_assoc. f_equal. cbn [app]. 
      replace (pixel_bytes - i) with (1 + (pixel_bytes - (i + 1))) by lia.
      rewrite (slice_app pixel_data i 1) by lia. rewrite Hbs.
      cbn [fmap list_fmap app]. f_equal. f_equal. 
      unfold slice. f_equal.
      replace (Z.to_nat (i + 1)) with (S (Z.to_nat i)) by lia.
      by rewrite drop_insert_lt by lia.
    + unfold len in *. rewrite length_insert. lia.
    + unfold len in *. rewrite length_insert. lia.
    + replace (Z.to_nat (i + 1)) with (S (Z.to_nat i)) by lia.
      rewrite drop_insert_lt by lia.
      rewrite <- (Nat.add_1_r (Z.to_nat i)), <- drop_drop.
      by apply Forall_drop.
  - assert (i = pixel_bytes) as -> by lia.
    rewrite Z.sub_diag, slice_0. cbn [fmap list_fmap app].
    by rewrite take_drop.
Qed.

Lemma bytes_range l : bytes l -> Forall (fun b => 0 <= b <= 255) l.
Proof.
  intros Hl. eapply Forall_impl; [exact Hl|]. unfold is_byte. intros; lia.
Qed.

(** The GRAY8 loop of [stage2_brighten] replaces each of the first
    [pixel_bytes] bytes [b] by [b + b * amount / 100] (the quotient truncated
    towards zero), cut off at 255, and leaves the rest of the buffer. *)
Theorem brighten_gray_loop_pixels amount pixel_data pixel_bytes :
  -100 <= amount <= 100 -> bytes pixel_data ->
  0 <= pixel_bytes <= len pixel_data -> len pixel_data <= SIZE_MAX ->
  brighten_gray_loop (S (Z.to_nat pixel_bytes)) amount pixel_data pixel_bytes 0
  = Some (((fun b => Z.min 255 (b + Z.quot (b * amount) 100))
             <$> take (Z.to_nat pixel_bytes) pixel_data)
          ++ drop (Z.to_nat pixel_bytes) pixel_data).
Proof.
  intros Hamount Hbytes Hsize Hmax.
  rewrite brighten_gray_loop_spec; try lia.
  - change (Z.to_nat 0) with 0%nat. rewrite take_0, app_nil_l, Z.sub_0_r.
    f_equal. f_equal. unfold slice. change (Z.to_nat 0) with 0%nat.
    rewrite drop_0. apply Forall_fmap_ext_1.
    apply Forall_take. eapply Forall_impl; [exact Hbytes|].
    intros b Hb. unfold is_byte in Hb. unfold brighten_gray.
    pose proof (quot_percent_range amount b Hamount ltac:(lia)). lia.
  - change (Z.to_nat 0) with 0%nat. rewrite drop_0. by apply bytes_range.
Qed.

Lemma brighten_gray_loop_pixels_witness :
  brighten_gray_loop (S (Z.to_nat 3)) 50 [10; 200; 255; 7] 3 0
  = Some (((fun b => Z.min 255 (b + Z.quot (b * 50) 100))
             <$> take (Z.to_nat 3) [10; 200; 255; 7])
          ++ drop (Z.to_nat 3) [10; 200; 255; 7]).
Proof.
  apply (brighten_gray_loop_pixels 50 [10; 200; 255; 7] 3).
  - lia.
  - repeat first [apply Forall_nil|apply Forall_cons; split];
      first [exact I|unfold is_byte; lia].
  - vm_compute. split; congruence.
  - vm_compute. congruence.
Defined.

(** Brightening a GRAY8 image keeps every byte a byte; a positive amount
    darkens no pixel, a negative amount brightens none, the amount 0 leaves
    the image as it is and the amount -100 makes it black. *)
Theorem brighten_gray_loop_direction amount pixel_data :
  -100 <= amount <= 100 -> bytes pixel_data -> len pixel_data <= SIZE_MAX ->
  exists out,
    brighten_gray_loop (S (Z.to_nat (len pixel_data))) amount pixel_data
      (len pixel_data) 0
    = Some out
    /\ bytes out
    /\ (0 <= amount -> Forall2 Z.le pixel_data out)
    /\ (amount <= 0 -> Forall2 Z.le out pixel_data)
    /\ (amount = 0 -> out = pixel_data)
    /\ (amount = -100 -> out = replicate (length pixel_data) 0).
Proof.
  intros Hamount Hbytes Hmax. pose proof (len_nonneg pixel_data).
  rewrite brighten_gray_loop_spec; try lia; cycle 1.
  { change (Z.to_nat 0) with 0%nat. rewrite drop_0. by apply bytes_range. }
  eexists. split; [reflexivity|].
  change (Z.to_nat 0) with 0%nat. rewrite take_0, app_nil_l, Z.sub_0_r.
  rewrite slice_all by done.
  rewrite drop_ge, app_nil_r by (unfold len; lia).
  clear Hmax H. induction Hbytes as [|b l Hb Hl IH]; cbn [fmap list_fmap].
  { split_and!; try done; constructor. }
  destruct IH as (IH1 & IH2 & IH3 & IH4 & IH5).
  unfold is_byte in Hb.
  pose proof (quot_percent_range amount b Hamount ltac:(lia)) as (Hq & Hq1 & Hq2).
  assert (0 <= brighten_gray amount b <= 255) by (unfold brighten_gray; lia).
  split_and!.
  - apply Forall_cons. split; [unfold is_byte; lia|done].
  - intros Hpos. apply Forall2_cons. split; [|by apply IH2].
    unfold brighten_gray. specialize (Hq1 Hpos). lia.
  - intros Hneg. apply Forall2_cons. split; [|by apply IH3].
    unfold brighten_gray. specialize (Hq2 Hneg). lia.
  - intros ->. rewrite IH4 by done. f_equal.
    unfold brighten_gray. rewrite Z.mul_0_r. change (Z.quot 0 100) with 0. lia.
  - intros ->. rewrite IH5 by done. cbn [length replicate]. f_equal.
    unfold brighten_gray.
    replace (b * -100) with (- b * 100) by ring. rewrite Z.quot_mul by lia.
    lia.
Qed.

Lemma brighten_gray_loop_direction_witness :
  exists out,
    brighten_gray_loop (S (Z.to_nat (len [10; 200; 255]))) (-30)
      [10; 200; 255] (len [10; 200; 255]) 0
    = Some out
    /\ bytes out
    /\ (0 <= -30 -> Forall2 Z.le [10; 200; 255] out)
    /\ (-30 <= 0 -> Forall2 Z.le out [10; 200; 255])
    /\ (-30 = 0 -> out = [10; 200; 255])
    /\ (-30 = -100 -> out = replicate (length [10; 200; 255]) 0).
Proof.
  apply (brighten_gray_loop_direction (-30) [10; 200; 255]).
  - lia.
  - repeat first [apply Forall_nil|apply Forall_cons; split];
      first [exact I|unfold is_byte; lia].
  - vm_compute. congruence.
Defined.

Lemma luminance_range r g b :
  0 <= r <= 255 -> 0 <= g <= 255 -> 0 <= b <= 255 ->
  Z.quot (r * 299 + g * 587 + b * 114) 1000 = luminance r g b
  /\ 0 <= luminance r g b <= 255.
Proof.
  intros Hr Hg Hb. unfold luminance.
  rewrite Z.quot_div_nonneg by lia. split; [done|].
  split; [apply Z.div_pos; lia|].
  apply Z.div_le_upper_bound; lia.
Qed.

Lemma rgb_to_gray_loop_spec fuel pixel_data out_size :
  forall done rest out_pixels j,
  pixel_data = done ++ rest -> len done = 3 * j ->
  len rest = 3 * (out_size - j) -> Forall (fun b => 0 <= b <= 255) rest ->
  0 <= j <= out_size -> len out_pixels = out_size ->
  3 * out_size <= SIZE_MAX ->
  (Z.to_nat (out_size - j) < fuel)%nat ->
  rgb_to_gray_loop fuel pixel_data out_pixels out_size (3 * j) j
  = Some (take (Z.to_nat j) out_pixels ++ rgb_to_gray_pixels rest).
Proof.
  induction fuel as [|fuel IH];
    intros done rest out_pixels j -> Hdone Hrest Hbytes Hj Hout Hmax Hfuel;
    [lia|].
  cbn [rgb_to_gray_loop].
  destruct (Z.ltb_spec j out_size) as [Hlt|Hge].
  - destruct rest as [|r [|g [|b rest]]];
      try (rewrite ?len_cons, ?len_nil in Hrest; lia).
    rewrite !len_cons in Hrest.
    apply Forall_cons in Hbytes as [Hr Hbytes].
    apply Forall_cons in Hbytes as [Hg Hbytes].
    apply Forall_cons in Hbytes as [Hb Hbytes].
    rewrite !usize_small by lia.
    assert (length done = Z.to_nat (3 * j)) as Hdone' by (unfold len in *; lia).
    rewrite !load_lookup by lia.
    rewrite (lookup_app_r done) by lia.
    rewrite (lookup_app_r done) by lia.
    rewrite (lookup_app_r done) by lia.
    replace (Z.to_nat (3 * j) - length done)%nat with 0%nat by lia.
    replace (Z.to_nat (3 * j + 1) - length done)%nat with 1%nat by lia.
    replace (Z.to_nat (3 * j + 2) - length done)%nat with 2%nat by lia.
    cbn [lookup list_lookup]. rewrite !option_bind_Some.
    destruct (luminance_range r g b Hr Hg Hb) as [-> Hlum].
    rewrite u8_small by lia.
    rewrite store_insert, option_bind_Some by lia.
    replace (3 * j + 3) with (3 * (j + 1)) by lia.
    rewrite (IH (done ++ [r; g; b]) rest); try lia.
    + f_equal. cbn [rgb_to_gray_pixels].
      replace (Z.to_nat (j + 1)) with (S (Z.to_nat j)) by lia.
      rewrite (take_S_r _ _ (luminance r g b))
        by (apply list_lookup_insert_eq; unfold len in *; lia).
      rewrite take_insert_ge by lia.
      by rewrite <- app_assoc.
    + by rewrite <- app_assoc.
    + rewrite len_app, !len_cons, len_nil. lia.
    + done.
    + unfold len in *. rewrite length_insert. lia.
  - assert (j = out_size) as -> by lia.
    destruct rest; [|rewrite len_cons in Hrest; pose proof (len_nonneg rest); lia].
    cbn [rgb_to_gray_pixels]. rewrite app_nil_r.
    rewrite take_ge; [done|unfold len in *; lia].
Qed.

Lemma gray_to_rgb_loop_spec fuel pixel_data in_size :
  forall done rest out_pixels i,
  pixel_data = done ++ rest -> len done = i -> len rest = in_size - i ->
  0 <= i <= in_size -> len out_pixels = 3 * in_size ->
  3 * in_size <= SIZE_MAX ->
  (Z.to_nat (in_size - i) < fuel)%nat ->
  gray_to_rgb_loop fuel pixel_data out_pixels in_size i (3 * i)
  = Some (take (Z.to_nat (3 * i)) out_pixels ++ gray_to_rgb_pixels rest).
Proof.
  induction fuel as [|fuel IH];
    intros done rest out_pixels i -> Hdone Hrest Hi Hout Hmax Hfuel; [lia|].
  cbn [gray_to_rgb_loop].
  destruct (Z.ltb_spec i in_size) as [Hlt|Hge].
  - destruct rest as [|g rest]; [rewrite len_nil in Hrest; lia|].
    rewrite len_cons in Hrest.
    rewrite !usize_small by lia.
    assert (length done = Z.to_nat i) as Hdone' by (unfold len in *; lia).
    rewrite load_lookup by lia.
    rewrite (lookup_app_r done) by lia.
    replace (Z.to_nat i - length done)%nat with 0%nat by lia.
    cbn [lookup list_lookup]. rewrite option_bind_Some.
    assert (length out_pixels = Z.to_nat (3 * in_size)) as Hout'
      by (unfold len in *; lia).
    rewrite store_insert, option_bind_Some by lia.
    rewrite store_insert, option_bind_Some
      by (unfold len; rewrite length_insert; lia).
    rewrite store_insert, option_bind_Some
      by (unfold len; rewrite !length_insert; lia).
    replace (3 * i + 3) with (3 * (i + 1)) by lia.
    rewrite (IH (done ++ [g]) rest); try lia.
    + f_equal. cbn [gray_to_rgb_pixels].
      replace (Z.to_nat (3 * (i + 1))) with (S (S (S (Z.to_nat (3 * i)))))
        by lia.
      replace (Z.to_nat (3 * i + 1)) with (S (Z.to_nat (3 * i))) by lia.
      replace (Z.to_nat (3 * i + 2)) with (S (S (Z.to_nat (3 * i)))) by lia.
      rewrite (take_S_r _ _ g)
        by (apply list_lookup_insert_eq; rewrite !length_insert; lia).
      rewrite take_insert_ge by lia.
      rewrite (take_S_r _ _ g).
      2:{ rewrite list_lookup_insert_eq; [done|]. rewrite length_insert. lia. }
      rewrite take_insert_ge by lia.
      rewrite (take_S_r _ _ g).
      2:{ rewrite list_lookup_insert_eq; [done|]. lia. }
      rewrite take_insert_ge by lia.
      by rewrite <- !app_assoc.
    + by rewrite <- app_assoc.
    + rewrite len_app, !len_cons, len_nil. lia.
    + unfold len in *. rewrite !length_insert. lia.
  - assert (i = in_size) as -> by lia.
    destruct rest; [|rewrite len_cons in Hrest; pose proof (len_nonneg rest); lia].
    cbn [gray_to_rgb_pixels]. rewrite app_nil_r.
    rewrite take_ge; [done|unfold len in *; lia].
Qed.

Lemma gray_to_rgb_pixels_len l : len (gray_to_rgb_pixels l) = 3 * len l.
Proof.
  induction l as [|g l IH]; [done|].
  cbn [gray_to_rgb_pixels]. rewrite !len_cons, IH. lia.
Qed.

Lemma gray_to_rgb_pixels_bytes l : bytes l -> bytes (gray_to_rgb_pixels l).
Proof.
  induction 1 as [|g l Hg Hl IH]; [constructor|].
  cbn [gray_to_rgb_pixels]. by repeat (apply Forall_cons; split).
Qed.

Lemma rgb_to_gray_pixels_props k : forall l,
  (length l <= k)%nat ->
  (forall n, len l = 3 * n -> len (rgb_to_gray_pixels l) = n)
  /\ (bytes l -> bytes (rgb_to_gray_pixels l)).
Proof.
  induction k as [|k IH]; intros l Hk.
  - destruct l; [|simpl in Hk; lia]. split; [|intros _; constructor].
    intros n Hn. rewrite len_nil in *. cbn [rgb_to_gray_pixels].
    rewrite len_nil. lia.
  - destruct l as [|r [|g [|b l]]]; cbn [rgb_to_gray_pixels].
    + split; [|intros _; constructor]. intros n Hn. rewrite len_nil in *. lia.
    + split; [|intros _; constructor]. intros n Hn. rewrite ?len_cons, ?len_nil in *. lia.
    + split; [|intros _; constructor]. intros n Hn. rewrite ?len_cons, ?len_nil in *. lia.
    + destruct (IH l) as [IH1 IH2]; [simpl in Hk; lia|]. split.
      * intros n Hn. rewrite !len_cons in *.
        rewrite (IH1 (n - 1)); lia.
      * intros Hl.
        apply Forall_cons in Hl as [Hr Hl]. apply Forall_cons in Hl as [Hg Hl].
        apply Forall_cons in Hl as [Hb Hl]. unfold is_byte in *.
        pose proof (luminance_range r g b ltac:(lia) ltac:(lia) ltac:(lia)).
        apply Forall_cons. split; [unfold is_byte; lia|by apply IH2].
Qed.

Lemma rgb_to_gray_pixels_len l n :
  len l = 3 * n -> len (rgb_to_gray_pixels l) = n.
Proof. by apply (rgb_to_gray_pixels_props (length l)). Qed.

Lemma rgb_to_gray_pixels_bytes l : bytes l -> bytes (rgb_to_gray_pixels l).
Proof. by apply (rgb_to_gray_pixels_props (length l)). Qed.

Lemma rgb_to_gray_to_rgb l :
  bytes l -> rgb_to_gray_pixels (gray_to_rgb_pixels l) = l.
Proof.
  induction 1 as [|g l Hg Hl IH]; [done|].
  cbn [gray_to_rgb_pixels rgb_to_gray_pixels]. rewrite IH. f_equal.
  unfold luminance. replace (g * 299 + g * 587 + g * 114) with (g * 1000) by lia.
  by rewrite Z.div_mul.
Qed.

(** The RGB8 loop of [stage3_convert_color] writes for each pixel the gray
    level [(r * 299 + g * 587 + b * 114) / 1000], which is a byte. *)
Theorem rgb_to_gray_loop_pixels pixel_data out_size :
  bytes pixel_data -> 0 <= out_size -> len pixel_data = 3 * out_size ->
  len pixel_data <= SIZE_MAX ->
  rgb_to_gray_loop (S (Z.to_nat out_size)) pixel_data (malloc out_size)
    out_size 0 0
  = Some (rgb_to_gray_pixels pixel_data)
  /\ len (rgb_to_gray_pixels pixel_data) = out_size
  /\ bytes (rgb_to_gray_pixels pixel_data).
Proof.
  intros Hbytes Hsize Hlen Hmax. split_and!.
  - change 0 with (3 * 0) at 1.
    rewrite (rgb_to_gray_loop_spec _ pixel_data out_size [] pixel_data);
      try done; try lia.
    + by apply bytes_range.
    + by apply len_malloc.
  - by apply rgb_to_gray_pixels_len.
  - by apply rgb_to_gray_pixels_bytes.
Qed.

Lemma rgb_to_gray_loop_pixels_witness :
  rgb_to_gray_loop (S (Z.to_nat 2)) [255; 0; 0; 10; 20; 30] (malloc 2) 2 0 0
  = Some (rgb_to_gray_pixels [255; 0; 0; 10; 20; 30])
  /\ len (rgb_to_gray_pixels [255; 0; 0; 10; 20; 30]) = 2
  /\ bytes (rgb_to_gray_pixels [255; 0; 0; 10; 20; 30]).
Proof.
  apply (rgb_to_gray_loop_pixels [255; 0; 0; 10; 20; 30] 2).
  - repeat first [apply Forall_nil|apply Forall_cons; split];
      first [exact I|unfold is_byte; lia].
  - lia.
  - reflexivity.
  - vm_compute. congruence.
Defined.

(** The GRAY8 loop of [stage3_convert_color] writes each gray level three
    times, as the red, green and blue byte of a pixel. *)
Theorem gray_to_rgb_loop_pixels pixel_data in_size :
  0 <= in_size -> len pixel_data = in_size -> 3 * in_size <= SIZE_MAX ->
  gray_to_rgb_loop (S (Z.to_nat in_size)) pixel_data (malloc (3 * in_size))
    in_size 0 0
  = Some (concat ((fun g => [g; g; g]) <$> pixel_data)).
Proof.
  intros Hsize Hlen Hmax.
  change 0 with (3 * 0) at 2.
  rewrite (gray_to_rgb_loop_spec _ pixel_data in_size [] pixel_data);
    try done; try lia.
  - change (Z.to_nat (3 * 0)) with 0%nat. rewrite take_0, app_nil_l.
    f_equal. clear. induction pixel_data as [|g l IH]; [done|].
    cbn [gray_to_rgb_pixels fmap list_fmap concat app]. by rewrite IH.
  - apply len_malloc. lia.
Qed.

Lemma gray_to_rgb_loop_pixels_witness :
  gray_to_rgb_loop (S (Z.to_nat 2)) [7; 200] (malloc (3 * 2)) 2 0 0
  = Some (concat ((fun g => [g; g; g]) <$> [7; 200])).
Proof.
  apply (gray_to_rgb_loop_pixels [7; 200] 2).
  - lia.
  - reflexivity.
  - lia.
Defined.

(** Converting GRAY8 pixels to RGB8 and the result back to GRAY8, with the
    two loops of [stage3_convert_color], gives the pixels back. *)
Theorem gray_to_rgb_to_gray_loops pixel_data n :
  bytes pixel_data -> len pixel_data = n -> 3 * n <= SIZE_MAX ->
  exists rgb,
    gray_to_rgb_loop (S (Z.to_nat n)) pixel_data (malloc (3 * n)) n 0 0
    = Some rgb
    /\ len rgb = 3 * n
    /\ rgb_to_gray_loop (S (Z.to_nat n)) rgb (malloc n) n 0 0
       = Some pixel_data.
Proof.
  intros Hbytes Hlen Hmax. pose proof (len_nonneg pixel_data).
  exists (gray_to_rgb_pixels pixel_data).
  assert (len (gray_to_rgb_pixels pixel_data) = 3 * n) as Hrgb
    by (rewrite gray_to_rgb_pixels_len; lia).
  split_and!.
  - change 0 with (3 * 0) at 2.
    rewrite (gray_to_rgb_loop_spec _ pixel_data n [] pixel_data);
      try done; try lia.
    apply len_malloc. lia.
  - done.
  - change 0 with (3 * 0) at 1.
    rewrite (rgb_to_gray_loop_spec _ (gray_to_rgb_pixels pixel_data) n []
               (gray_to_rgb_pixels pixel_data)); try done; try lia.
    + change (Z.to_nat (3 * 0)) with 0%nat. rewrite take_0, app_nil_l.
      by rewrite rgb_to_gray_to_rgb.
    + apply bytes_range. by apply gray_to_rgb_pixels_bytes.
    + apply len_malloc. lia.
Qed.

Lemma gray_to_rgb_to_gray_loops_witness :
  exists rgb,
    gray_to_rgb_loop (S (Z.to_nat 3)) [0; 128; 255] (malloc (3 * 3)) 3 0 0
    = Some rgb
    /\ len rgb = 3 * 3
    /\ rgb_to_gray_loop (S (Z.to_nat 3)) rgb (malloc 3) 3 0 0
       = Some [0; 128; 255].
Proof.
  apply (gray_to_rgb_to_gray_loops [0; 128; 255] 3).
  - repeat first [apply Forall_nil|apply Forall_cons; split];
      first [exact I|unfold is_byte; lia].
  - reflexivity.
  - lia.
Defined.

(** ** Bytes and shifts *)

Lemma lor_shiftl_add hi lo n :
  0 <= n -> 0 <= lo < 2 ^ n -> Z.lor (Z.shiftl hi n) lo = hi * 2 ^ n + lo.
Proof.
  intros Hn Hlo. rewrite Z.shiftl_mul_pow2 by lia.
  rewrite <- Z.lxor_lor, <- Z.add_nocarry_lxor; [done| |].
  all: apply Z.bits_inj'; intros i Hi; rewrite Z.land_spec, Z.bits_0.
  all: destruct (Z.lt_ge_cases i n).
  all: try (rewrite Z.mul_pow2_bits_low by lia; done).
  all: rewrite <- (Z.mod_small lo (2 ^ n)) by lia.
  all: rewrite Z.mod_pow2_bits_high by lia.
  all: apply andb_false_r.
Qed.

Lemma rgb_colour_pack r g b :
  0 <= r <= 255 -> 0 <= g <= 255 -> 0 <= b <= 255 ->
  u32 (Z.lor (Z.lor (Z.shiftl r 16) (Z.shiftl g 8)) b) = rgb_colour r g b
  /\ 0 <= rgb_colour r g b < 16777216.
Proof.
  intros Hr Hg Hb. unfold rgb_colour.
  rewrite (Z.shiftl_mul_pow2 g 8) by lia.
  rewrite (lor_shiftl_add r (g * 2 ^ 8) 16) by lia.
  replace (r * 2 ^ 16 + g * 2 ^ 8) with ((r * 256 + g) * 2 ^ 8) by lia.
  rewrite <- (Z.shiftl_mul_pow2 (r * 256 + g) 8) by lia.
  rewrite (lor_shiftl_add (r * 256 + g) b 8) by lia.
  rewrite u32_small by lia. lia.
Qed.

Lemma mod_div_mod c k m :
  0 < k -> 0 < m ->
  ((c mod (k * 256 * m)) / k) mod 256 = (c / k) mod 256.
Proof.
  intros Hk Hm.
  assert (0 < k * 256 * m) as Hpos by (apply Z.mul_pos_pos; lia).
  rewrite (Z.div_mod c (k * 256 * m)) at 2 by lia.
  replace (k * 256 * m * (c / (k * 256 * m)) + c mod (k * 256 * m))
    with (c mod (k * 256 * m) + (c / (k * 256 * m) * m * 256) * k) by ring.
  rewrite Z.div_add by lia.
  rewrite Z.add_comm, Z.mul_comm, Z.add_comm.
  replace (c mod (k * 256 * m) / k + c / (k * 256 * m) * m * 256)
    with (c mod (k * 256 * m) / k + (c / (k * 256 * m) * m) * 256) by ring.
  by rewrite Z.mod_add by lia.
Qed.

Lemma colour_unpack c :
  u8 (Z.land (Z.shiftr (u32 c) 16) 255) = (c / 65536) mod 256
  /\ u8 (Z.land (Z.shiftr (u32 c) 8) 255) = (c / 256) mod 256
  /\ u8 (Z.land (u32 c) 255) = c mod 256.
Proof.
  unfold u8, u32.
  change 255 with (Z.ones 8). rewrite !Z.land_ones by lia.
  rewrite !Z.shiftr_div_pow2 by lia.
  change (2 ^ 8) with 256. change (2 ^ 16) with 65536.
  rewrite !Z.mod_mod by lia.
  split_and!.
  - change 4294967296 with (65536 * 256 * 256). by apply mod_div_mod.
  - change 4294967296 with (256 * 256 * 65536). by apply mod_div_mod.
  - pose proof (mod_div_mod c 1 16777216 ltac:(lia) ltac:(lia)) as Hm.
    by rewrite !Z.div_1_r in Hm.
Qed.

Lemma brighten_rgb_loop_spec brighten_rgb fuel amount n :
  forall pixel_data rest j,
  len rest = 3 * (n - j) ->
  Forall (fun b => 0 <= b <= 255) rest -> len pixel_data = 3 * n ->
  0 <= j <= n -> 3 * n <= SIZE_MAX ->
  drop (Z.to_nat (3 * j)) pixel_data = rest ->
  (Z.to_nat (n - j) < fuel)%nat ->
  brighten_rgb_loop brighten_rgb fuel amount pixel_data (3 * n) (3 * j)
  = Some (take (Z.to_nat (3 * j)) pixel_data
          ++ map_rgb_colours (fun c => brighten_rgb c amount) rest).
Proof.
  induction fuel as [|fuel IH]; intros pixel_data rest j Hrest Hbytes Hlen Hj
    Hmax Hdrop Hfuel; [lia|].
  cbn [brighten_rgb_loop].
  destruct (Z.ltb_spec (3 * j) (3 * n)) as [Hlt|Hge].
  - destruct rest as [|r [|g [|b rest]]];
      try (rewrite ?len_cons, ?len_nil in Hrest; lia).
    rewrite !len_cons in Hrest.
    apply Forall_cons in Hbytes as [Hr Hbytes].
    apply Forall_cons in Hbytes as [Hg Hbytes].
    apply Forall_cons in Hbytes as [Hb Hbytes].
    rewrite !usize_small by lia.
    assert (forall k x, drop (Z.to_nat (3 * j)) pixel_data !! k = Some x ->
                        pixel_data !! (Z.to_nat (3 * j) + k)%nat = Some x)
      as Hlook by (intros k x; by rewrite lookup_drop).
    rewrite Hdrop in Hlook.
    rewrite !load_lookup by lia.
    rewrite <- (Nat.add_0_r (Z.to_nat (3 * j))) at 1.
    rewrite (Hlook 0%nat r) by done.
    replace (Z.to_nat (3 * j + 1)) with (Z.to_nat (3 * j) + 1)%nat by lia.
    rewrite (Hlook 1%nat g) by done.
    replace (Z.to_nat (3 * j + 2)) with (Z.to_nat (3 * j) + 2)%nat by lia.
    rewrite (Hlook 2%nat b) by done.
    rewrite !option_bind_Some.
    destruct (rgb_colour_pack r g b Hr Hg Hb) as [-> Hcolour].
    destruct (colour_unpack (brighten_rgb (rgb_colour r g b) amount))
      as (-> & -> & ->).
    set (c := brighten_rgb (rgb_colour r g b) amount).
    assert (length pixel_data = Z.to_nat (3 * n)) as Hlen'
      by (unfold len in *; lia).
    rewrite store_insert, option_bind_Some by lia.
    rewrite store_insert, option_bind_Some
      by (unfold len; rewrite length_insert; lia).
    rewrite store_insert, option_bind_Some
      by (unfold len; rewrite !length_insert; lia).
    replace (3 * j + 3) with (3 * (j + 1)) by lia.
    rewrite (IH _ rest); try lia.
    + f_equal. cbn [map_rgb_colours]. fold c.
      replace (Z.to_nat (3 * (j + 1))) with (S (S (S (Z.to_nat (3 * j)))))
        by lia.
      replace (Z.to_nat (3 * j + 1)) with (S (Z.to_nat (3 * j))) by lia.
      replace (Z.to_nat (3 * j + 2)) with (S (S (Z.to_nat (3 * j)))) by lia.
      rewrite (take_S_r _ _ (c mod 256))
        by (apply list_lookup_insert_eq; rewrite !length_insert; lia).
      rewrite take_insert_ge by lia.
      rewrite (take_S_r _ _ ((c / 256) mod 256)).
      2:{ rewrite list_lookup_insert_eq; [done|]. rewrite length_insert. lia. }
      rewrite take_insert_ge by lia.
      rewrite (take_S_r _ _ ((c / 65536) mod 256)).
      2:{ rewrite list_lookup_insert_eq; [done|]. lia. }
      rewrite take_insert_ge by lia.
      by rewrite <- !app_assoc.
    + done.
    + unfold len in *. rewrite !length_insert. lia.
    + replace (Z.to_nat (3 * (j + 1))) with (Z.to_nat (3 * j) + 3)%nat by lia.
      rewrite !drop_insert_lt by lia.
      rewrite <- drop_drop, Hdrop. done.
  - assert (j = n) as -> by lia.
    destruct rest; [|rewrite len_cons in Hrest; pose proof (len_nonneg rest); lia].
    cbn [map_rgb_colours]. rewrite app_nil_r.
    rewrite take_ge; [done|unfold len in *; lia].
Qed.

Lemma rgb_colour_unpack r g b :
  0 <= r <= 255 -> 0 <= g <= 255 -> 0 <= b <= 255 ->
  (rgb_colour r g b / 65536) mod 256 = r
  /\ (rgb_colour r g b / 256) mod 256 = g
  /\ rgb_colour r g b mod 256 = b.
Proof.
  intros Hr Hg Hb. unfold rgb_colour. split_and!.
  - replace (r * 65536 + g * 256 + b) with (r * 65536 + (g * 256 + b)) by lia.
    rewrite Z.div_add_l by lia. rewrite (Z.div_small (g * 256 + b)) by lia.
    rewrite Z.add_0_r. apply Z.mod_small. lia.
  - replace (r * 65536 + g * 256 + b) with ((r * 256 + g) * 256 + b) by lia.
    rewrite Z.div_add_l by lia. rewrite (Z.div_small b) by lia.
    rewrite Z.add_0_r, Z.add_comm, Z.mod_add by lia. apply Z.mod_small. lia.
  - replace (r * 65536 + g * 256 + b) with (b + (r * 256 + g) * 256) by lia.
    rewrite Z.mod_add by lia. apply Z.mod_small. lia.
Qed.

Lemma map_rgb_colours_id f k : forall l,
  (length l <= k)%nat -> bytes l -> (exists n, len l = 3 * n) ->
  (forall c, 0 <= c < 16777216 -> f c = c) ->
  map_rgb_colours f l = l.
Proof.
  induction k as [|k IH]; intros l Hk Hl [n Hn] Hf.
  - by destruct l; [|simpl in Hk; lia].
  - destruct l as [|r [|g [|b l]]]; rewrite ?len_cons, ?len_nil in Hn;
      try lia; [done|].
    apply Forall_cons in Hl as [Hr Hl]. apply Forall_cons in Hl as [Hg Hl].
    apply Forall_cons in Hl as [Hb Hl]. unfold is_byte in *.
    cbn [map_rgb_colours]. cbn zeta.
    rewrite Hf by (unfold rgb_colour; lia).
    rewrite (IH l); [|simpl in Hk; lia|done|exists (n - 1); lia|done].
    destruct (rgb_colour_unpack r g b) as (-> & -> & ->); [lia..|]. done.
Qed.

(** The RGB8 loop of [stage2_brighten] passes each pixel to [brighten_rgb]
    as the number [0xRRGGBB] and stores the three low bytes of the result
    in its place; when [brighten_rgb] returns such numbers as they are, the
    image is left as it is. *)
Theorem brighten_rgb_loop_pixels brighten_rgb amount pixel_data n :
  bytes pixel_data -> len pixel_data = 3 * n -> len pixel_data <= SIZE_MAX ->
  brighten_rgb_loop brighten_rgb (S (Z.to_nat (3 * n))) amount pixel_data
    (3 * n) 0
  = Some (map_rgb_colours (fun c => brighten_rgb c amount) pixel_data)
  /\ ((forall c, 0 <= c < 16777216 -> brighten_rgb c amount = c) ->
      map_rgb_colours (fun c => brighten_rgb c amount) pixel_data
      = pixel_data).
Proof.
  intros Hbytes Hlen Hmax. pose proof (len_nonneg pixel_data). split.
  - change 0 with (3 * 0) at 1.
    rewrite (brighten_rgb_loop_spec brighten_rgb _ amount n pixel_data
               pixel_data); try done; try lia.
    by apply bytes_range.
  - intros Hid.
    apply (map_rgb_colours_id _ (length pixel_data)); [lia|done| |done].
    by exists n.
Qed.

Lemma brighten_rgb_loop_pixels_witness :
  brighten_rgb_loop (fun c _ => c) (S (Z.to_nat (3 * 2))) 10
    [1; 2; 3; 255; 255; 255] (3 * 2) 0
  = Some (map_rgb_colours (fun c => c) [1; 2; 3; 255; 255; 255])
  /\ ((forall c, 0 <= c < 16777216 -> c = c) ->
      map_rgb_colours (fun c => c) [1; 2; 3; 255; 255; 255]
      = [1; 2; 3; 255; 255; 255]).
Proof.
  apply (brighten_rgb_loop_pixels (fun c _ => c) 10
           [1; 2; 3; 255; 255; 255] 2).
  - repeat first [apply Forall_nil|apply Forall_cons; split];
      first [exact I|unfold is_byte; lia].
  - reflexivity.
  - vm_compute. congruence.
Defined.

(** ** Header fields and the checksum *)

Lemma read_le_u32_slice buf off b0 b1 b2 b3 :
  0 <= off -> slice buf off 4 = [b0; b1; b2; b3] -> bytes [b0; b1; b2; b3] ->
  read_le_u32 buf off
  = Some (b0 + 256 * b1 + 65536 * b2 + 16777216 * b3)
  /\ 0 <= b0 + 256 * b1 + 65536 * b2 + 16777216 * b3 <= UINT32_MAX.
Proof.
  intros Hoff Hslice Hbytes.
  apply Forall_cons in Hbytes as [H0 Hbytes].
  apply Forall_cons in Hbytes as [H1 Hbytes].
  apply Forall_cons in Hbytes as [H2 Hbytes].
  apply Forall_cons in Hbytes as [H3 _]. unfold is_byte in *.
  split; [|lia]. unfold read_le_u32.
  pose proof (load_of_slice _ _ _ _ _ Hoff Hslice) as ->.
  apply (slice_cons_tail buf off 4) in Hslice; [|lia..].
  rewrite (load_of_slice buf (off + 1) _ _ _ ltac:(lia) Hslice).
  apply (slice_cons_tail buf (off + 1) (4 - 1)) in Hslice; [|lia..].
  replace (off + 1 + 1) with (off + 2) in Hslice by lia.
  rewrite (load_of_slice buf (off + 2) _ _ _ ltac:(lia) Hslice).
  apply (slice_cons_tail buf (off + 2) (4 - 1 - 1)) in Hslice; [|lia..].
  replace (off + 2 + 1) with (off + 3) in Hslice by lia.
  rewrite (load_of_slice buf (off + 3) _ _ _ ltac:(lia) Hslice).
  rewrite !option_bind_Some. f_equal.
  rewrite !Z.shiftl_mul_pow2 by lia.
  rewrite !u32_small by lia.
  rewrite <- (Z.shiftl_mul_pow2 b1 8) by lia.
  rewrite (Z.lor_comm b0), (lor_shiftl_add b1 b0 8) by lia.
  rewrite <- (Z.shiftl_mul_pow2 b2 16) by lia.
  rewrite (Z.lor_comm _ (Z.shiftl b2 16)), lor_shiftl_add by lia.
  rewrite <- (Z.shiftl_mul_pow2 b3 24) by lia.
  rewrite (Z.lor_comm _ (Z.shiftl b3 24)), lor_shiftl_add by lia.
  lia.
Qed.

(** [read_le_u32] gives the number whose little-endian bytes are the four
    bytes at the offset: the first byte is the lowest.  The number fits 32
    bits. *)
Theorem read_le_u32_value buf off b0 b1 b2 b3 :
  0 <= off -> slice buf off 4 = [b0; b1; b2; b3] -> bytes [b0; b1; b2; b3] ->
  read_le_u32 buf off
  = Some (b0 + 256 * b1 + 65536 * b2 + 16777216 * b3)
  /\ 0 <= b0 + 256 * b1 + 65536 * b2 + 16777216 * b3 <= UINT32_MAX.
Proof.
  intros Hoff Hslice Hbytes.
  destruct (read_le_u32_slice buf off b0 b1 b2 b3 Hoff Hslice Hbytes)
    as [Hvalue Hrange].
  split; [exact Hvalue|exact Hrange].
Qed.

Lemma read_le_u32_value_witness :
  read_le_u32 [65; 73; 70; 0; 0; 0; 2; 0; 44; 1; 0; 0] 8
  = Some (44 + 256 * 1 + 65536 * 0 + 16777216 * 0)
  /\ 0 <= 44 + 256 * 1 + 65536 * 0 + 16777216 * 0 <= UINT32_MAX.
Proof.
  apply (read_le_u32_value [65; 73; 70; 0; 0; 0; 2; 0; 44; 1; 0; 0] 8
           44 1 0 0).
  - lia.
  - reflexivity.
  - repeat first [apply Forall_nil|apply Forall_cons; split];
      first [exact I|unfold is_byte; lia].
Defined.

Lemma compute_checksum_loop_eof fuel : forall f file_size pos sum1 sum2,
  bytes f -> len f < file_size -> file_size <= INT_MAX ->
  0 <= pos <= len f -> (Z.to_nat (len f - pos) < fuel)%nat ->
  0 <= sum1 < 256 -> 0 <= sum2 < 256 ->
  compute_checksum_loop fuel f file_size pos sum1 sum2 = Exit UnexpectedEOF.
Proof.
  induction fuel as [|fuel IH];
    intros f file_size pos sum1 sum2 Hbytes Hsize Hint Hpos Hfuel H1 H2; [lia|].
  cbn [compute_checksum_loop].
  rewrite ltb_true by lia.
  destruct (decide (pos < len f)) as [Hlt|Hge].
  - destruct (load_Some f pos) as [b Hb]; [lia|].
    pose proof (load_byte _ _ _ Hbytes Hb) as Hb_range.
    rewrite Hb. rewrite int32_small by lia.
    match goal with
    | |- context [if ?c then 0 else b] =>
        assert (0 <= (if c then 0 else b) <= 255) as Hbyte_range
          by (destruct c; lia);
        set (byte := if c then 0 else b) in *
    end.
    rewrite (Z.rem_mod_nonneg (sum1 + byte) 256) by lia.
    pose proof (Z.mod_pos_bound (sum1 + byte) 256 ltac:(lia)).
    rewrite Z.rem_mod_nonneg by lia.
    apply IH; try done; try lia.
    apply Z.mod_pos_bound; lia.
  - rewrite load_lookup by lia.
    rewrite lookup_ge_None_2; [done|]. unfold len in *. lia.
Qed.

(** [compute_checksum] on a file that ends before [file_size] bytes leaves
    with the message of an unexpected end of file; it returns no value. *)
Theorem compute_checksum_unexpected_eof f file_size :
  bytes f -> len f < file_size -> file_size <= INT_MAX ->
  compute_checksum f file_size = Exit UnexpectedEOF.
Proof.
  intros Hbytes Hsize Hint. pose proof (len_nonneg f).
  unfold compute_checksum.
  by rewrite compute_checksum_loop_eof by (done || lia).
Qed.

Lemma compute_checksum_unexpected_eof_witness :
  compute_checksum [65; 73; 70; 0; 1; 2] 20 = Exit UnexpectedEOF.
Proof.
  apply (compute_checksum_unexpected_eof [65; 73; 70; 0; 1; 2] 20).
  - repeat first [apply Forall_nil|apply Forall_cons; split];
      first [exact I|unfold is_byte; lia].
  - vm_compute. congruence.
  - lia.
Defined.


Lemma checksum_sum1 l : forall sums,
  0 <= fst sums < 256 ->
  fst (foldl checksum_step sums l) = (fst sums + sum_counts l) mod 256.
Proof.
  induction l as [|b l IH]; intros sums Hs.
  - simpl. rewrite Z.add_0_r. by rewrite Z.mod_small.
  - cbn [foldl]. change (sum_counts (b :: l)) with (b + sum_counts l).
    rewrite IH.
    + unfold checksum_step. cbn [fst].
      rewrite Zplus_mod_idemp_l. f_equal. lia.
    + apply checksum_step_range.
Qed.

Lemma sum_counts_insert l : forall i b b',
  l !! i = Some b -> sum_counts (<[i := b']> l) = sum_counts l - b + b'.
Proof.
  induction l as [|x l IH]; intros i b b' Hb; [done|].
  destruct i as [|i]; simpl in *.
  - inversion Hb. lia.
  - rewrite (IH i b b') by done. lia.
Qed.

(** The checksum tells a changed byte: when one byte of the file, not one of
    the two of the checksum field, is replaced by another byte,
    [compute_checksum] returns another value. *)
Theorem compute_checksum_detects_byte_change f file_size i b b' :
  bytes f -> file_size <= len f -> file_size <= INT_MAX ->
  0 <= i < file_size -> i <> 4 -> i <> 5 ->
  load f i = Some b -> is_byte b' -> b' <> b ->
  exists c c',
    compute_checksum f file_size = Done c
    /\ compute_checksum (<[Z.to_nat i := b']> f) file_size = Done c'
    /\ c' <> c.
Proof.
  intros Hbytes Hsize Hint Hi Hi4 Hi5 Hb Hb' Hne.
  pose proof (load_byte _ _ _ Hbytes Hb) as Hb_range.
  rewrite load_lookup in Hb by lia.
  exists (checksum_spec f file_size),
    (checksum_spec (<[Z.to_nat i := b']> f) file_size).
  split_and!.
  - by apply compute_checksum_eq.
  - apply compute_checksum_eq; [|unfold len in *; rewrite length_insert; lia
                               |done].
    by apply Forall_insert.
  - destruct (checksum_spec_value f file_size) as (-> & H1 & H2).
    destruct (checksum_spec_value (<[Z.to_nat i := b']> f) file_size)
      as (-> & H1' & H2').
    unfold checksum_sums in *.
    rewrite !checksum_sum1 in * by (simpl; lia). cbn [fst] in *.
    rewrite !Z.add_0_l in *.
    assert (mask_checksum_field (<[Z.to_nat i := b']> f)
            = <[Z.to_nat i := b']> (mask_checksum_field f)) as Hmask.
    { unfold mask_checksum_field.
      rewrite (list_insert_insert_ne _ 5 (Z.to_nat i)) by lia.
      by rewrite (list_insert_insert_ne _ 4 (Z.to_nat i)) by lia. }
    rewrite Hmask in *.
    rewrite take_insert_lt in * by lia.
    assert (take (Z.to_nat file_size) (mask_checksum_field f) !! Z.to_nat i
            = Some b) as Hlook.
    { rewrite lookup_take_lt by lia. unfold mask_checksum_field.
      by rewrite !list_lookup_insert_ne by lia. }
    rewrite (sum_counts_insert _ _ b b' Hlook) in *.
    unfold is_byte in Hb'.
    set (s := sum_counts (take (Z.to_nat file_size) (mask_checksum_field f)))
      in *.
    set (s2 := snd (foldl checksum_step (0, 0)
                      (<[Z.to_nat i:=b']>
                         (take (Z.to_nat file_size) (mask_checksum_field f)))))
      in *.
    set (s2' := snd (foldl checksum_step (0, 0)
                       (take (Z.to_nat file_size) (mask_checksum_field f))))
      in *.
    intros Heq.
    assert ((s - b + b') mod 256 = s mod 256) as Hmod by lia.
    clear -Hmod Hb_range Hb' Hne.
    pose proof (Z.div_mod (s - b + b') 256 ltac:(lia)).
    pose proof (Z.div_mod s 256 ltac:(lia)).
    lia.
Qed.

Lemma compute_checksum_detects_byte_change_witness :
  exists c c',
    compute_checksum [65; 73; 70; 0; 0; 0; 2; 0; 9; 9] 10 = Done c
    /\ compute_checksum
         (<[Z.to_nat 8 := 10]> [65; 73; 70; 0; 0; 0; 2; 0; 9; 9]) 10
       = Done c'
    /\ c' <> c.
Proof.
  apply (compute_checksum_detects_byte_change
           [65; 73; 70; 0; 0; 0; 2; 0; 9; 9] 10 8 9 10).
  - repeat first [apply Forall_nil|apply Forall_cons; split];
      first [exact I|unfold is_byte; lia].
  - vm_compute. congruence.
  - lia.
  - lia.
  - lia.
  - lia.
  - reflexivity.
  - unfold is_byte. lia.
  - lia.
Defined.

(** ** The encoder: runs and rows without runs *)

(** [measure_run] returns the length of the longest run of pixels equal to
    the pixel at [start]: at least 1, within the row, all its pixels equal to
    the first, and the pixel after it, if there is one, different. *)
Theorem measure_run_maximal row width bpp start :
  bpp = 1 \/ bpp = 3 -> 0 <= start < width -> width <= UINT32_MAX ->
  width * bpp <= len row -> len row <= SIZE_MAX ->
  exists run,
    measure_run row width bpp start = Some run
    /\ 1 <= run <= width - start
    /\ (forall i, 0 <= i < run ->
          slice row ((start + i) * bpp) bpp = slice row (start * bpp) bpp)
    /\ (start + run < width ->
        slice row ((start + run) * bpp) bpp <> slice row (start * bpp) bpp).
Proof.
  intros Hbpp Hstart Hwidth Hrow Hmax.
  destruct (measure_run_spec row width bpp) with (start := start)
    as (run & Heq & Hrun1 & Hrun & Hfrom & Hnext); [lia..|].
  exists run. split_and!; try done; try lia.
  intros Hlt Heq'. by apply Hnext.
Qed.

Lemma measure_run_maximal_witness :
  exists run,
    measure_run [5; 5; 5; 8; 5] 5 1 0 = Some run
    /\ 1 <= run <= 5 - 0
    /\ (forall i, 0 <= i < run ->
          slice [5; 5; 5; 8; 5] ((0 + i) * 1) 1
          = slice [5; 5; 5; 8; 5] (0 * 1) 1)
    /\ (0 + run < 5 ->
        slice [5; 5; 5; 8; 5] ((0 + run) * 1) 1
        <> slice [5; 5; 5; 8; 5] (0 * 1) 1).
Proof.
  apply (measure_run_maximal [5; 5; 5; 8; 5] 5 1 0).
  - by left.
  - lia.
  - lia.
  - vm_compute. congruence.
  - vm_compute. congruence.
Defined.

Section Distinct_row.

Variables (row : list Z) (width bpp : Z).
Hypothesis Hbpp : 1 <= bpp <= 3.
Hypothesis Hwidth : 1 <= width <= UINT32_MAX.
Hypothesis Hrow : len row = width * bpp.
Hypothesis Hdistinct : forall c,
  0 <= c -> c + 1 < width ->
  slice row (c * bpp) bpp <> slice row ((c + 1) * bpp) bpp.

Lemma row_size_max : len row <= SIZE_MAX.
Proof. pose proof (width_bytes_max width bpp Hbpp ltac:(lia)). lia. Qed.

Lemma distinct_measure_run c :
  0 <= c < width -> measure_run row width bpp c = Some 1.
Proof.
  intros Hc. pose proof row_size_max.
  destruct (measure_run_spec row width bpp) with (start := c)
    as (run & Heq & Hrun1 & Hrun & Hfrom & _); [lia..|].
  rewrite Heq. f_equal.
  destruct (decide (run = 1)) as [|Hne]; [done|].
  exfalso. apply (Hdistinct c); [lia|lia|].
  symmetry. apply (Hfrom 1). lia.
Qed.

Lemma distinct_gather_literals fuel : forall col,
  0 <= col <= width -> (Z.to_nat (width - col) < fuel)%nat ->
  gather_literals fuel row width bpp col = Some width.
Proof.
  induction fuel as [|fuel IH]; intros col Hcol Hfuel; [lia|].
  cbn [gather_literals].
  destruct (Z.ltb_spec col width) as [Hlt|Hge].
  - rewrite distinct_measure_run, option_bind_Some by lia.
    change (1 >=? 2) with false. cbn iota.
    rewrite u32_small by lia. apply IH; lia.
  - f_equal. lia.
Qed.

Lemma distinct_row_blocks :
  row_blocks (S (Z.to_nat width)) row width bpp 0
  = Some (literal_blocks_of bpp (chunks width) row).
Proof.
  cbn [row_blocks].
  rewrite (ltb_true 0 width) by lia.
  rewrite distinct_measure_run, option_bind_Some by lia.
  change (1 >=? 2) with false. cbn iota.
  rewrite distinct_gather_literals, option_bind_Some by lia.
  destruct (Z.to_nat width) as [|n] eqn:Hn; [lia|].
  cbn [row_blocks]. rewrite (ltb_false width width) by lia.
  rewrite option_bind_Some, app_nil_r.
  rewrite Z.sub_0_r. change (0 * bpp) with 0.
  by rewrite slice_all by lia.
Qed.

End Distinct_row.

(** A row in which no two neighbours are equal is written as literal blocks
    only, of 255 pixels each but for the last: [width * bpp] bytes of pixels
    and two bytes more for every block. *)
Theorem compress_row_distinct_neighbours row width bpp out :
  bpp = 1 \/ bpp = 3 -> 1 <= width <= UINT32_MAX ->
  len row = width * bpp -> len out = width * (bpp + 2) ->
  (forall c, 0 <= c -> c + 1 < width ->
     slice row (c * bpp) bpp <> slice row ((c + 1) * bpp) bpp) ->
  let stream := serialize (literal_blocks_of bpp (chunks width) row) in
  compress_row row width bpp out = Some (blit out 0 stream, len stream)
  /\ len stream = width * bpp + 2 * ((width + 254) / 255)
  /\ expand (literal_blocks_of bpp (chunks width) row) = row.
Proof.
  intros Hbpp Hwidth Hrow Hout Hdistinct stream.
  assert (1 <= bpp <= 3) as Hbpp' by lia.
  pose proof (row_size_max row width bpp Hbpp' Hwidth Hrow) as Hmax.
  pose proof (width_bytes_max width bpp Hbpp' ltac:(lia)) as Hwb.
  destruct (compress_row_spec row width bpp Hbpp' ltac:(lia) ltac:(lia) Hmax)
    as (bs & Hbs & _ & _ & _ & _ & Hrun).
  rewrite (distinct_row_blocks row width bpp Hbpp' Hwidth Hrow Hdistinct) in Hbs.
  injection Hbs as <-.
  split_and!.
  - apply Hrun; [lia|].
    assert (0 <= width * (bpp + 2) <= 5 * UINT32_MAX); [|lia].
    split; [apply Z.mul_nonneg_nonneg; lia|].
    rewrite (Z.mul_comm 5). apply Z.mul_le_mono_nonneg; lia.
  - unfold stream.
    rewrite literal_blocks_of_len
      by (try apply chunks_bounds; rewrite ?chunks_sum; lia).
    rewrite chunks_length, chunks_sum by lia. lia.
  - rewrite literal_blocks_of_expand by (try apply chunks_bounds; lia).
    rewrite chunks_sum by lia. apply take_ge. unfold len in *. lia.
Qed.

Lemma compress_row_distinct_neighbours_witness :
  let stream := serialize (literal_blocks_of 1 (chunks 3) [1; 2; 1]) in
  compress_row [1; 2; 1] 3 1 (malloc 9) = Some (blit (malloc 9) 0 stream, len stream)
  /\ len stream = 3 * 1 + 2 * ((3 + 254) / 255)
  /\ expand (literal_blocks_of 1 (chunks 3) [1; 2; 1]) = [1; 2; 1].
Proof.
  apply (compress_row_distinct_neighbours [1; 2; 1] 3 1 (malloc 9)).
  - by left.
  - lia.
  - reflexivity.
  - reflexivity.
  - intros c Hc0 Hc1. assert (c = 0 \/ c = 1) as [-> | ->] by lia;
      vm_compute; congruence.
Defined.

(** ** The image decoder on any file *)

Lemma len_slice_le buf off n : 0 <= n -> len (slice buf off n) <= n.
Proof. intros. unfold slice, len. rewrite length_take. lia. Qed.

Lemma bytes_slice buf off n : bytes buf -> bytes (slice buf off n).
Proof. intros. unfold slice. by apply Forall_take, Forall_drop. Qed.

Lemma u16_range x : 0 <= u16 x <= UINT16_MAX.
Proof. unfold u16. pose proof (Z.mod_pos_bound x 65536). lia. Qed.

Section Image_safe.

Variables (file : list Z) (width height bpp : Z).
Hypothesis Hfile : bytes file.
Hypothesis Hbpp : 1 <= bpp <= 3.
Hypothesis Hwidth : 0 <= width <= UINT32_MAX.
Hypothesis Hheight : 0 <= height <= UINT32_MAX.
Hypothesis Htotal : width * bpp * height <= SIZE_MAX.

Lemma aif_decompress_image_loop_safe fuel : forall pos full r,
  0 <= pos -> 0 <= r <= height -> len full = width * bpp * height ->
  (Z.to_nat (height - r) < fuel)%nat ->
  (exists pixels pos',
      aif_decompress_image_loop fuel (mkFILE file pos) height bpp
        (width * bpp) full r
      = Done (pixels, mkFILE file pos')
      /\ len pixels = width * bpp * height)
  \/ aif_decompress_image_loop fuel (mkFILE file pos) height bpp
       (width * bpp) full r
     = Exit UnexpectedEOF
  \/ aif_decompress_image_loop fuel (mkFILE file pos) height bpp
       (width * bpp) full r
     = Exit InvalidCompressedData.
Proof.
  induction fuel as [|fuel IH]; intros pos full r Hpos Hr Hfull Hfuel; [lia|].
  pose proof (width_bytes_max width bpp Hbpp Hwidth) as Hwb.
  assert (0 <= width * bpp) as Hrb by (apply Z.mul_nonneg_nonneg; lia).
  cbn [aif_decompress_image_loop].
  destruct (Z.ltb_spec r height) as [Hlt|Hge]; [|left; by eauto].
  rewrite fread_slice. cbv beta iota.
  pose proof (len_slice_le file pos 2 ltac:(lia)) as Hle2.
  destruct (Z.ltb_spec (len (slice file pos 2)) 2) as [|Hlen2]; [by eauto|].
  assert (len (slice file pos 2) = 2) as Hlen2' by lia.
  pose proof (bytes_slice file pos 2 Hfile) as Hb2.
  destruct (slice file pos 2) as [|a [|b [|c l]]] eqn:Hprefix;
    rewrite ?len_cons, ?len_nil in Hlen2';
    [lia|lia| |pose proof (len_nonneg l); lia].
  change (read_le_u16 [a; b] 0) with (Some (u16 (Z.lor a (Z.shiftl b 8)))).
  rewrite defined_Some, outcome_bind_Done.
  set (row_len := u16 (Z.lor a (Z.shiftl b 8))).
  pose proof (u16_range (Z.lor a (Z.shiftl b 8))) as Hrow_len.
  fold row_len in Hrow_len.
  rewrite fread_slice. cbv beta iota. change (len [a; b]) with 2.
  pose proof (len_slice_le file (pos + 2) row_len ltac:(lia)) as Hle.
  destruct (Z.ltb_spec (len (slice file (pos + 2) row_len)) row_len)
    as [|Hlenc]; [by eauto|].
  set (comp := slice file (pos + 2) row_len) in *.
  assert (r * (width * bpp) + width * bpp <= width * bpp * height) as Hrow_end.
  { replace (r * (width * bpp) + width * bpp) with ((r + 1) * (width * bpp))
      by ring.
    rewrite (Z.mul_comm (width * bpp) height).
    apply Z.mul_le_mono_nonneg_r; lia. }
  assert (0 <= r * (width * bpp)) by (apply Z.mul_nonneg_nonneg; lia).
  rewrite (usize_small (r * (width * bpp))) by lia.
  set (off := Z.to_nat (r * (width * bpp))).
  assert (len (drop off full) = width * bpp * height - r * (width * bpp))
    as Hdrop_len.
  { unfold len, off in *. rewrite length_drop. lia. }
  destruct (decompress_row_parse comp row_len (drop off full) (width * bpp)
              bpp)
    as (ok & bs & -> & _ & _ & _ & Hexp & _);
    [done|by apply bytes_slice|lia|lia|lia|lia|].
  rewrite defined_Some, outcome_bind_Done. cbv beta iota.
  destruct ok; cbn [negb]; [|by eauto].
  rewrite u32_small by lia.
  pose proof (len_nonneg (expand bs)).
  apply IH; [lia|lia| |lia].
  rewrite len_app, len_blit by lia.
  unfold len, off in *. rewrite length_take. lia.
Qed.

End Image_safe.



(** ** The image decoder on a truncated stream *)

Lemma len_slice_min buf off n :
  0 <= off -> 0 <= n -> len (slice buf off n) = Z.min n (Z.max 0 (len buf - off)).
Proof. intros. unfold slice, len. rewrite length_take, length_drop. lia. Qed.

Section Image_truncated.

Variables (pixels : list Z) (width height bpp : Z).
Hypothesis Hbpp : 1 <= bpp <= 3.
Hypothesis Hwidth : 0 <= width <= UINT32_MAX.
Hypothesis Hheight : 0 <= height <= UINT32_MAX.
Hypothesis Hpixels : len pixels = width * bpp * height.
Hypothesis Hpixels_max : len pixels <= SIZE_MAX.
Hypothesis Hrows : forall r, 0 <= r < height ->
  len (compressed_row (row_view pixels (width * bpp) r) width bpp)
  <= UINT16_MAX.

(** One turn of the loop on the record of row [r]. *)
Lemma aif_decompress_image_loop_record fuel r file pos full :
  0 <= r < height -> 0 <= pos ->
  let c := compressed_row (row_view pixels (width * bpp) r) width bpp in
  slice file pos 2 = [Z.land (len c) 255; Z.land (Z.shiftr (len c) 8) 255] ->
  slice file (pos + 2) (len c) = c ->
  decoded_upto pixels (width * bpp) full r ->
  exists full',
    decoded_upto pixels (width * bpp) full' (r + 1)
    /\ aif_decompress_image_loop (S fuel) (mkFILE file pos) height bpp
         (width * bpp) full r
       = aif_decompress_image_loop fuel (mkFILE file (pos + 2 + len c))
           height bpp (width * bpp) full' (r + 1).
Proof.
  intros Hr Hpos c Hprefix Hdata Hdec.
  pose proof (Hrows r Hr) as Hc16. fold c in Hc16.
  destruct (row_in_image pixels width height bpp Hbpp Hwidth Hpixels r Hr)
    as (Hoff & Hrow_end & Hrb).
  destruct (row_view_len pixels width height bpp Hbpp Hwidth Hpixels
              Hpixels_max r Hr) as [Hview Hview_max].
  pose proof (compressed_row_len_bound pixels width height bpp Hbpp Hwidth
                Hpixels Hpixels_max r Hr) as Hc.
  set (view := row_view pixels (width * bpp) r) in *.
  fold c in Hc.
  eexists. split.
  { by apply (decoded_upto_next pixels width height bpp Hbpp Hwidth Hheight
                Hpixels full r). }
  destruct Hdec as [Hfull Htake].
  cbn [aif_decompress_image_loop].
  rewrite (ltb_true r height) by lia.
  rewrite fread_slice, Hprefix. cbv beta iota.
  change (len [Z.land (len c) 255; Z.land (Z.shiftr (len c) 8) 255]) with 2.
  change (2 <? 2) with false. cbv iota.
  rewrite read_le_u16_prefix, defined_Some, outcome_bind_Done.
  rewrite (u16_small (len c)) by lia.
  rewrite fread_slice, Hdata. cbv beta iota.
  rewrite (ltb_false (len c) (len c)) by lia.
  rewrite (usize_small (r * (width * bpp))) by lia.
  assert (len (drop (Z.to_nat (r * (width * bpp))) full)
          = len pixels - r * (width * bpp)) as Hdrop_len.
  { unfold len in *. rewrite length_drop. lia. }
  destruct (compress_decompress_row view width bpp
              (malloc (width * (bpp + 2)))
              (drop (Z.to_nat (r * (width * bpp))) full))
    as (_ & _ & Hdecode); [done..| | |].
  { rewrite len_malloc; [done|]. apply Z.mul_nonneg_nonneg; lia. }
  { lia. }
  fold c in Hdecode.
  rewrite (Hdecode Hc16 c) by (by apply slice_all || lia).
  rewrite defined_Some, outcome_bind_Done. cbv beta iota.
  cbn [negb]. rewrite u32_small by lia.
  unfold view. rewrite (row_view_slice pixels width height bpp r) by lia.
  done.
Qed.

Lemma aif_decompress_image_loop_truncated fuel : forall r file pos full k,
  0 <= r < height -> 0 <= pos ->
  0 <= k < len (compressed_stream pixels width bpp r (height - r)) ->
  len file = pos + k ->
  slice file pos k
  = take (Z.to_nat k) (compressed_stream pixels width bpp r (height - r)) ->
  decoded_upto pixels (width * bpp) full r ->
  (Z.to_nat (height - r) < fuel)%nat ->
  aif_decompress_image_loop fuel (mkFILE file pos) height bpp (width * bpp)
    full r
  = Exit UnexpectedEOF.
Proof.
  induction fuel as [|fuel IH]; intros r file pos full k Hr Hpos Hk Hlen Hfile
    Hdec Hfuel; [lia|].
  pose proof (compressed_row_len_bound pixels width height bpp Hbpp Hwidth
                Hpixels Hpixels_max r Hr) as Hc.
  pose proof (Hrows r Hr) as Hc16.
  rewrite compressed_stream_cons in Hk, Hfile by lia.
  unfold row_record in Hk, Hfile.
  set (c := compressed_row (row_view pixels (width * bpp) r) width bpp) in *.
  set (rest := compressed_stream pixels width bpp (r + 1) (height - r - 1))
    in *.
  rewrite !len_app, !len_cons, len_nil in Hk.
  destruct (decide (k < 2)) as [Hk2|Hk2].
  { cbn [aif_decompress_image_loop].
    rewrite (ltb_true r height) by lia.
    rewrite fread_slice. cbv beta iota.
    rewrite (ltb_true (len (slice file pos 2)) 2); [done|].
    rewrite len_slice_min by lia. lia. }
  assert (slice file pos 2
          = [Z.land (len c) 255; Z.land (Z.shiftr (len c) 8) 255]) as Hprefix.
  { rewrite <- (take_slice file pos k 2) by lia. rewrite Hfile.
    rewrite take_take. replace (Z.to_nat 2 `min` Z.to_nat k)%nat with 2%nat
      by lia. done. }
  destruct (decide (k < 2 + len c)) as [Hkc|Hkc].
  { cbn [aif_decompress_image_loop].
    rewrite (ltb_true r height) by lia.
    rewrite fread_slice, Hprefix. cbv beta iota.
    change (len [Z.land (len c) 255; Z.land (Z.shiftr (len c) 8) 255]) with 2.
    change (2 <? 2) with false. cbv iota.
    rewrite read_le_u16_prefix, defined_Some, outcome_bind_Done.
    rewrite (u16_small (len c)) by lia.
    rewrite fread_slice. cbv beta iota.
    rewrite (ltb_true (len (slice file (pos + 2) (len c))) (len c)); [done|].
    rewrite len_slice_min by lia. lia. }
  assert (slice file (pos + 2) (len c) = c) as Hdata.
  { assert (slice file pos (2 + len c)
            = [Z.land (len c) 255; Z.land (Z.shiftr (len c) 8) 255] ++ c)
      as Hrec.
    { rewrite <- (take_slice file pos k (2 + len c)) by lia. rewrite Hfile.
      rewrite take_take.
      replace (Z.to_nat (2 + len c) `min` Z.to_nat k)%nat
        with (length ([Z.land (len c) 255; Z.land (Z.shiftr (len c) 8) 255]
                      ++ c))
        by (rewrite length_app; unfold len in *; simpl; lia).
      by rewrite take_app_length. }
    rewrite (slice_app file pos 2 (len c)) in Hrec by lia.
    rewrite Hprefix in Hrec. by apply app_inv_head in Hrec. }
  destruct (aif_decompress_image_loop_record fuel r file pos full Hr Hpos
              Hprefix Hdata Hdec) as (full' & Hdec' & ->).
  fold c.
  destruct (decide (r + 1 < height)) as [Hnext|Hlast].
  - apply (IH (r + 1) file (pos + 2 + len c) full' (k - (2 + len c)));
      try done; try lia.
    + replace (height - (r + 1)) with (height - r - 1) by lia. fold rest. lia.
    + replace (height - (r + 1)) with (height - r - 1) by lia. fold rest.
      replace (pos + 2 + len c) with (pos + (2 + len c)) by lia.
      rewrite <- (drop_slice file pos k (2 + len c)) by lia.
      rewrite Hfile.
      replace (Z.to_nat k)
        with (Z.to_nat (2 + len c) + Z.to_nat (k - (2 + len c)))%nat by lia.
      rewrite <- take_drop_commute.
      replace (Z.to_nat (2 + len c))
        with (length ([Z.land (len c) 255; Z.land (Z.shiftr (len c) 8) 255]
                      ++ c))
        by (rewrite length_app; unfold len in *; simpl; lia).
      by rewrite drop_app_length.
  - exfalso. assert (height - r - 1 = 0) as Hz by lia.
    unfold rest in Hk. rewrite Hz, compressed_stream_nil, len_nil in Hk. lia.
Qed.

End Image_truncated.

(** A compressed stream cut short is reported as such: when the file ends
    inside the stream that [aif_write_compressed_rows] writes for an image,
    [aif_decompress_image] leaves with the message of an unexpected end of
    file, wherever the cut is. *)
Theorem aif_decompress_image_truncated pixels width height bpp out :
  bpp = 1 \/ bpp = 3 -> 1 <= width <= UINT32_MAX ->
  1 <= height <= UINT32_MAX ->
  len pixels = width * bpp * height -> len pixels <= SIZE_MAX ->
  (forall r, 0 <= r < height ->
     compress_row_len (row_view pixels (width * bpp) r) width bpp
     <= UINT16_MAX) ->
  exists stream total,
    aif_write_compressed_rows out pixels width height bpp
    = Some (out ++ stream, total)
    /\ forall k, 0 <= k < len stream ->
         aif_decompress_image
           (mkFILE (out ++ take (Z.to_nat k) stream) (len out)) width height
           bpp
         = Exit UnexpectedEOF.
Proof.
  intros Hbpp Hwidth Hheight Hpixels Hmax Hshort.
  assert (1 <= bpp <= 3) as Hbpp' by lia.
  assert (0 <= width <= UINT32_MAX) as Hwidth' by lia.
  assert (0 <= height <= UINT32_MAX) as Hheight' by lia.
  eexists _, _. split; [by apply aif_write_compressed_rows_spec|].
  intros k Hk.
  destruct (image_sizes pixels width height bpp Hbpp' Hwidth' Hheight' Hpixels
              Hmax) as (Hrb & _ & Htotal & _ & _).
  unfold aif_decompress_image. rewrite Htotal, Hrb.
  apply (aif_decompress_image_loop_truncated pixels width height bpp Hbpp'
           Hwidth' Hheight' Hpixels Hmax) with (k := k); try lia.
  - intros r Hr.
    destruct (row_view_len pixels width height bpp Hbpp' Hwidth' Hpixels Hmax r
                Hr) as [Hview Hview_max].
    rewrite <- compress_row_len_spec by done. by apply Hshort.
  - apply len_nonneg.
  - by rewrite Z.sub_0_r.
  - rewrite len_app. f_equal. unfold len in *. rewrite length_take. lia.
  - rewrite Z.sub_0_r.
    pose proof (slice_app_mid out
                  (take (Z.to_nat k)
                     (compressed_stream pixels width bpp 0 height))) as Hs.
    replace (len (take (Z.to_nat k)
                    (compressed_stream pixels width bpp 0 height)))
      with k in Hs by (unfold len in *; rewrite length_take; lia).
    exact Hs.
  - apply decoded_upto_malloc.
Qed.

Lemma aif_decompress_image_truncated_witness :
  exists stream total,
    aif_write_compressed_rows [1; 2] [10; 10; 10; 50; 1; 2; 3; 4] 4 2 1
    = Some ([1; 2] ++ stream, total)
    /\ forall k, 0 <= k < len stream ->
         aif_decompress_image
           (mkFILE ([1; 2] ++ take (Z.to_nat k) stream) (len [1; 2])) 4 2 1
         = Exit UnexpectedEOF.
Proof.
  apply (aif_decompress_image_truncated [10; 10; 10; 50; 1; 2; 3; 4] 4 2 1
           [1; 2]).
  - by left.
  - lia.
  - lia.
  - reflexivity.
  - vm_compute. congruence.
  - intros r Hr. assert (r = 0 \/ r = 1) as [-> | ->] by lia;
      vm_compute; congruence.
Defined.

(** ** Files and their headers *)

Lemma le32_value v :
  0 <= v <= UINT32_MAX ->
  v mod 256 + 256 * ((v / 256) mod 256) + 65536 * ((v / 65536) mod 256)
  + 16777216 * ((v / 16777216) mod 256) = v.
Proof.
  intros Hv.
  assert (v / 16777216 < 256) by (apply Z.div_lt_upper_bound; lia).
  assert (0 <= v / 16777216) by (apply Z.div_pos; lia).
  rewrite (Z.mod_small (v / 16777216)) by lia.
  pose proof (Z.div_mod v 256 ltac:(lia)) as Hd0.
  pose proof (Z.div_mod (v / 256) 256 ltac:(lia)) as Hd1.
  pose proof (Z.div_mod (v / 65536) 256 ltac:(lia)) as Hd2.
  rewrite Z.div_div in Hd1 by lia. change (256 * 256) with 65536 in Hd1.
  rewrite Z.div_div in Hd2 by lia. change (65536 * 256) with 16777216 in Hd2.
  lia.
Qed.

Lemma le32_bytes v : bytes (le32 v).
Proof.
  unfold le32.
  repeat first [apply Forall_nil|apply Forall_cons; split];
    first [exact I|unfold is_byte; apply Z.mod_pos_bound; lia].
Qed.

Lemma le16_bytes v : bytes (le16 v).
Proof.
  unfold le16.
  repeat first [apply Forall_nil|apply Forall_cons; split];
    first [exact I|unfold is_byte; pose proof (land_255_byte v);
           pose proof (land_255_byte (Z.shiftr v 8)); lia].
Qed.

Section Header.

Variables (checksum pixel_format compression width height pixel_offset : Z).

#[local] Abbreviation header :=
  (aif_header checksum pixel_format compression width height pixel_offset).

Lemma aif_header_len : len header = AIF_HEADER_SIZE.
Proof. reflexivity. Qed.

Lemma aif_header_bytes :
  is_byte pixel_format -> is_byte compression -> bytes header.
Proof.
  intros Hf Hc. unfold aif_header.
  apply Forall_app. split.
  { repeat first [apply Forall_nil|apply Forall_cons; split];
      first [exact I|unfold is_byte; lia]. }
  apply Forall_app. split; [apply le16_bytes|].
  apply Forall_cons. split; [done|]. apply Forall_cons. split; [done|].
  cbn [app].
  apply Forall_app. split; [apply le32_bytes|].
  apply Forall_app. split; apply le32_bytes.
Qed.

Lemma aif_header_fields data :
  0 <= width <= UINT32_MAX -> 0 <= height <= UINT32_MAX ->
  let h := take (Z.to_nat AIF_HEADER_SIZE) (header ++ data) in
  h = header
  /\ load h AIF_PXL_FMT_OFFSET = Some pixel_format
  /\ load h AIF_COMPRESSION_OFFSET = Some compression
  /\ read_le_u32 h AIF_WIDTH_OFFSET = Some width
  /\ read_le_u32 h AIF_HEIGHT_OFFSET = Some height
  /\ aif_magic_valid h = Some true.
Proof.
  intros Hw Hh h.
  assert (h = header) as -> by reflexivity.
  split_and!; try reflexivity.
  - destruct (read_le_u32_slice header AIF_WIDTH_OFFSET (width mod 256)
                ((width / 256) mod 256) ((width / 65536) mod 256)
                ((width / 16777216) mod 256)) as [-> _];
      [done|reflexivity|apply le32_bytes|].
    f_equal. rewrite <- (le32_value width) at 5 by done. lia.
  - destruct (read_le_u32_slice header AIF_HEIGHT_OFFSET (height mod 256)
                ((height / 256) mod 256) ((height / 65536) mod 256)
                ((height / 16777216) mod 256)) as [-> _];
      [done|reflexivity|apply le32_bytes|].
    f_equal. rewrite <- (le32_value height) at 5 by done. lia.
Qed.

End Header.

Lemma bytes_serialize bpp bs :
  Forall (block_ok bpp) bs -> bytes (expand bs) -> bytes (serialize bs).
Proof.
  induction 1 as [|b bs Hb Hbs IH]; [done|].
  rewrite expand_cons, serialize_cons. intros Hexp.
  apply Forall_app in Hexp as [Hpix Hexp].
  apply Forall_app. split; [|by apply IH].
  destruct b as [count pixel|count payload]; cbn [block_bytes block_pixels] in *.
  - destruct Hb as [Hcount _].
    apply Forall_cons. split; [unfold is_byte; lia|].
    replace (Z.to_nat count) with (S (Z.to_nat (count - 1))) in Hpix by lia.
    cbn [replicate concat] in Hpix. by apply Forall_app in Hpix as [? _].
  - destruct Hb as [Hcount _].
    apply Forall_cons. split; [unfold is_byte; lia|].
    apply Forall_cons. split; [unfold is_byte; lia|done].
Qed.

Lemma bytes_compressed_row row width bpp :
  1 <= bpp <= 3 -> 0 <= width <= UINT32_MAX ->
  width * bpp <= len row -> len row <= SIZE_MAX -> bytes row ->
  bytes (compressed_row row width bpp).
Proof.
  intros Hbpp Hwidth Hrow Hmax Hbytes.
  destruct (compress_row_spec row width bpp Hbpp Hwidth Hrow Hmax)
    as (bs & _ & -> & Hok & Hexp & _ & _).
  apply (bytes_serialize bpp); [done|].
  rewrite Hexp. by apply bytes_slice.
Qed.

Lemma bytes_compressed_stream pixels width height bpp :
  1 <= bpp <= 3 -> 0 <= width <= UINT32_MAX -> 0 <= height <= UINT32_MAX ->
  len pixels = width * bpp * height -> len pixels <= SIZE_MAX ->
  bytes pixels ->
  bytes (compressed_stream pixels width bpp 0 height).
Proof.
  intros Hbpp Hwidth Hheight Hpixels Hmax Hbytes.
  unfold compressed_stream. apply Forall_concat, Forall_fmap.
  apply Forall_forall. intros r Hr.
  apply elem_of_seqZ in Hr. cbn beta. unfold row_record. cbn zeta.
  destruct (row_view_len pixels width height bpp Hbpp Hwidth Hpixels Hmax r)
    as [Hview Hview_max]; [lia|].
  apply Forall_app. split; [apply le16_bytes|].
  apply bytes_compressed_row; try done.
  unfold row_view. by apply Forall_drop.
Qed.

Lemma outcome_bind_Exit {A B} (f : A -> outcome B) m : Exit m ≫= f = Exit m.
Proof. done. Qed.

(** The end of every operation on the file made of [header] and [data]. *)
Lemma patch_checksum_file checksum pixel_format compression width height
    pixel_offset data :
  is_byte pixel_format -> is_byte compression -> bytes data ->
  AIF_HEADER_SIZE + len data <= INT_MAX ->
  let header :=
    aif_header checksum pixel_format compression width height pixel_offset in
  patch_checksum header (header ++ data) (len data)
  = Done (aif_file pixel_format compression width height pixel_offset data).
Proof.
  intros Hf Hc Hdata Hint header.
  change AIF_HEADER_SIZE with 20 in *.
  pose proof (len_nonneg data) as Hdata_len.
  assert (len (header ++ data) = 20 + len data) as Hfile
    by (rewrite len_app; reflexivity).
  assert (bytes (header ++ data)) as Hbytes.
  { apply Forall_app. split; [by apply aif_header_bytes|done]. }
  pose proof (compute_checksum_eq (header ++ data) (len (header ++ data))
                Hbytes ltac:(lia) ltac:(lia)) as Hsum.
  unfold patch_checksum.
  rewrite (int32_small (len data)) by lia.
  rewrite (usize_small (len data)) by lia.
  change AIF_HEADER_SIZE with 20. change AIF_CHECKSUM_OFFSET with 4.
  rewrite (usize_small (20 + len data)) by lia.
  rewrite (int32_small (20 + len data)) by lia.
  rewrite <- Hfile, Hsum, outcome_bind_Done'.
  assert (checksum_spec (header ++ data) (len (header ++ data))
          = checksum_spec
              (aif_header 0 pixel_format compression width height pixel_offset
               ++ data)
              (len (aif_header 0 pixel_format compression width height
                      pixel_offset ++ data))) as ->.
  { unfold checksum_spec. rewrite !len_app. reflexivity. }
  set (c := checksum_spec _ _).
  pose proof (land_255_byte c) as Hlo.
  pose proof (land_255_byte (Z.shiftr c 8)) as Hhi.
  rewrite !u8_small by lia.
  unfold store.
  rewrite bool_decide_eq_true_2 by (change (len header) with 20; lia).
  cbn [defined]. rewrite outcome_bind_Done'.
  rewrite bool_decide_eq_true_2
    by (unfold len; rewrite length_insert; change (length header) with 20%nat;
        lia).
  cbn [defined]. rewrite outcome_bind_Done'.
  f_equal.
Qed.

(** ** The operations on well-formed files *)

Lemma slice_app_middle (pre l post : list Z) :
  slice (pre ++ l ++ post) (len pre) (len l) = l.
Proof.
  unfold slice, len. rewrite !Nat2Z.id.
  rewrite drop_app_length. by rewrite take_app_length.
Qed.

Section Stage.

Variables (checksum pixel_format width height pixel_offset : Z).
Variables (pixels : list Z).
Hypothesis Hformat : pixel_format = AIF_FMT_RGB8 \/ pixel_format = AIF_FMT_GRAY8.
Hypothesis Hwidth : 1 <= width <= UINT32_MAX.
Hypothesis Hheight : 1 <= height <= UINT32_MAX.

#[local] Abbreviation bpp := (bytes_per_pixel pixel_format).

Hypothesis Hpixels : len pixels = width * bpp * height.
Hypothesis Hpixels_max : len pixels <= SIZE_MAX.
Hypothesis Hbytes : bytes pixels.

Lemma bytes_per_pixel_range : 1 <= bpp <= 3.
Proof. unfold bytes_per_pixel. destruct (pixel_format =? AIF_FMT_RGB8); lia. Qed.

Lemma pixel_bytes_size :
  usize (usize (bpp * width) * height) = len pixels.
Proof.
  rewrite (Z.mul_comm bpp width).
  by destruct (image_sizes pixels width height bpp bytes_per_pixel_range
                 ltac:(lia) ltac:(lia) Hpixels Hpixels_max)
    as (_ & _ & -> & _).
Qed.

Lemma rows_short_compressed :
  (forall r, 0 <= r < height ->
     compress_row_len (row_view pixels (width * bpp) r) width bpp
     <= UINT16_MAX) ->
  forall r, 0 <= r < height ->
    len (compressed_row (row_view pixels (width * bpp) r) width bpp)
    <= UINT16_MAX.
Proof.
  intros Hshort r Hr.
  destruct (row_view_len pixels width height bpp bytes_per_pixel_range
              ltac:(lia) Hpixels Hpixels_max r Hr) as [Hview Hview_max].
  rewrite <- compress_row_len_spec
    by (done || lia || apply bytes_per_pixel_range).
  by apply Hshort.
Qed.

(** The block "Load pixels" on the data of an image. *)
Lemma load_pixels_image compression (pre extra : list Z) :
  compression = AIF_COMPRESSION_NONE \/ compression = AIF_COMPRESSION_RLE ->
  (compression = AIF_COMPRESSION_RLE ->
   forall r, 0 <= r < height ->
     compress_row_len (row_view pixels (width * bpp) r) width bpp
     <= UINT16_MAX) ->
  load_pixels
    (mkFILE (pre ++ image_data compression pixels width height bpp ++ extra)
       (len pre))
    compression width height bpp (len pixels)
  = Done pixels.
Proof.
  intros [-> | ->] Hshort; unfold load_pixels, image_data.
  - change (AIF_COMPRESSION_NONE =? AIF_COMPRESSION_NONE) with true.
    cbv iota. rewrite fread_spec. by rewrite Z.ltb_irrefl.
  - change (AIF_COMPRESSION_RLE =? AIF_COMPRESSION_NONE) with false.
    cbv iota.
    rewrite (aif_decompress_image_spec pixels width height bpp
               bytes_per_pixel_range ltac:(lia) ltac:(lia) Hpixels Hpixels_max).
    + done.
    + apply rows_short_compressed. by apply Hshort.
    + apply len_nonneg.
    + apply slice_app_middle.
Qed.

Lemma format_valid : aif_format_valid pixel_format = true.
Proof. by destruct Hformat as [-> | ->]. Qed.

Lemma format_byte : is_byte pixel_format.
Proof. unfold is_byte. destruct Hformat as [-> | ->]; done. Qed.

Lemma dims_valid :
  negb (aif_dim_valid width) || negb (aif_dim_valid height) = false.
Proof.
  unfold aif_dim_valid.
  rewrite (gtb_true width 0), (gtb_true height 0) by lia. done.
Qed.

Lemma compression_valid compression :
  compression = AIF_COMPRESSION_NONE \/ compression = AIF_COMPRESSION_RLE ->
  negb (compression =? AIF_COMPRESSION_NONE)
  && negb (compression =? AIF_COMPRESSION_RLE) = false.
Proof. by intros [-> | ->]. Qed.

Lemma stream_size_max :
  AIF_HEADER_SIZE + len (compressed_stream pixels width bpp 0 height)
  <= INT_MAX ->
  usize (len (compressed_stream pixels width bpp 0 height))
  = len (compressed_stream pixels width bpp 0 height).
Proof.
  intros Hint. change AIF_HEADER_SIZE with 20 in Hint.
  pose proof (len_nonneg (compressed_stream pixels width bpp 0 height)).
  apply usize_small. lia.
Qed.

Lemma stage5_compress_image compression extra :
  compression = AIF_COMPRESSION_NONE \/ compression = AIF_COMPRESSION_RLE ->
  (compression = AIF_COMPRESSION_RLE ->
   forall r, 0 <= r < height ->
     compress_row_len (row_view pixels (width * bpp) r) width bpp
     <= UINT16_MAX) ->
  AIF_HEADER_SIZE + len (compressed_stream pixels width bpp 0 height)
  <= INT_MAX ->
  stage5_compress
    (Some (aif_header checksum pixel_format compression width height
             pixel_offset
           ++ image_data compression pixels width height bpp ++ extra))
  = Done (aif_file pixel_format AIF_COMPRESSION_RLE width height pixel_offset
            (compressed_stream pixels width bpp 0 height)).
Proof.
  intros Hcompression Hshort Hint.
  pose proof bytes_per_pixel_range as Hbpp.
  set (header := aif_header checksum pixel_format compression width height
                   pixel_offset).
  set (data := image_data compression pixels width height bpp ++ extra).
  destruct (aif_header_fields checksum pixel_format compression width height
              pixel_offset data ltac:(lia) ltac:(lia))
    as (Hh & Hpf & Hco & Hw & Hh' & Hmagic).
  fold header in Hh, Hpf, Hco, Hw, Hh', Hmagic.
  unfold stage5_compress.
  rewrite aif_open_and_read_header_spec
    by (rewrite len_app; change (len header) with AIF_HEADER_SIZE;
        pose proof (len_nonneg data); lia).
  cbn [mbind outcome_bind].
  rewrite Hpf, Hco, Hw, Hh', Hmagic. cbn [defined mbind outcome_bind negb].
  rewrite format_valid, dims_valid. cbn [negb].
  rewrite compression_valid by done.
  rewrite Hh. fold bpp. rewrite pixel_bytes_size.
  change (mkFILE (header ++ data) AIF_HEADER_SIZE)
    with (mkFILE (header ++ data) (len header)).
  unfold data.
  rewrite load_pixels_image by done. rewrite outcome_bind_Done'.
  change (store header AIF_COMPRESSION_OFFSET AIF_COMPRESSION_RLE)
    with (Some (aif_header checksum pixel_format AIF_COMPRESSION_RLE width
                  height pixel_offset)).
  cbn [defined]. rewrite outcome_bind_Done'.
  set (header' := aif_header checksum pixel_format AIF_COMPRESSION_RLE width
                    height pixel_offset).
  change (fwrite header' AIF_HEADER_SIZE []) with (Some header').
  cbn [defined]. rewrite outcome_bind_Done'.
  rewrite (aif_write_compressed_rows_spec pixels width height bpp Hbpp
             ltac:(lia) ltac:(lia) Hpixels Hpixels_max).
  cbn [defined]. rewrite outcome_bind_Done'.
  rewrite stream_size_max by done.
  apply patch_checksum_file; try done.
  - apply format_byte.
  - apply bytes_compressed_stream; try done; lia.
Qed.

Lemma stage4_decompress_image compression extra :
  (forall r, 0 <= r < height ->
     compress_row_len (row_view pixels (width * bpp) r) width bpp
     <= UINT16_MAX) ->
  AIF_HEADER_SIZE + len pixels <= INT_MAX ->
  stage4_decompress
    (Some (aif_header checksum pixel_format compression width height
             pixel_offset
           ++ compressed_stream pixels width bpp 0 height ++ extra))
  = Done (aif_file pixel_format AIF_COMPRESSION_NONE width height pixel_offset
            pixels).
Proof.
  intros Hshort Hint.
  pose proof bytes_per_pixel_range as Hbpp.
  set (header := aif_header checksum pixel_format compression width height
                   pixel_offset).
  set (data := compressed_stream pixels width bpp 0 height ++ extra).
  destruct (aif_header_fields checksum pixel_format compression width height
              pixel_offset data ltac:(lia) ltac:(lia))
    as (Hh & Hpf & Hco & Hw & Hh' & Hmagic).
  fold header in Hh, Hpf, Hco, Hw, Hh', Hmagic.
  unfold stage4_decompress.
  rewrite aif_open_and_read_header_spec
    by (rewrite len_app; change (len header) with AIF_HEADER_SIZE;
        pose proof (len_nonneg data); lia).
  cbn [mbind outcome_bind].
  rewrite Hpf, Hw, Hh', Hmagic. cbn [defined mbind outcome_bind negb].
  rewrite format_valid, dims_valid. cbn [negb].
  rewrite Hh. fold bpp.
  change (mkFILE (header ++ data) AIF_HEADER_SIZE)
    with (mkFILE (header ++ data) (len header)).
  unfold data.
  rewrite (aif_decompress_image_spec pixels width height bpp Hbpp ltac:(lia)
             ltac:(lia) Hpixels Hpixels_max);
    [|by apply rows_short_compressed|apply len_nonneg|apply slice_app_middle].
  rewrite outcome_bind_Done'.
  destruct (image_sizes pixels width height bpp Hbpp ltac:(lia) ltac:(lia)
              Hpixels Hpixels_max) as (_ & _ & -> & _).
  change (store header AIF_COMPRESSION_OFFSET AIF_COMPRESSION_NONE)
    with (Some (aif_header checksum pixel_format AIF_COMPRESSION_NONE width
                  height pixel_offset)).
  cbn [defined]. rewrite outcome_bind_Done'.
  set (header' := aif_header checksum pixel_format AIF_COMPRESSION_NONE width
                    height pixel_offset).
  change (fwrite header' AIF_HEADER_SIZE []) with (Some header').
  cbn [defined]. rewrite outcome_bind_Done'.
  rewrite fwrite_spec by (pose proof (len_nonneg pixels); lia).
  rewrite take_ge by (unfold len; lia).
  cbn [defined]. rewrite outcome_bind_Done'.
  apply patch_checksum_file; try done. apply format_byte.
Qed.

End Stage.

Lemma aif_file_split pixel_format compression width height pixel_offset data :
  aif_file pixel_format compression width height pixel_offset data
  = aif_header
      (checksum_spec
         (aif_header 0 pixel_format compression width height pixel_offset
          ++ data)
         (len (aif_header 0 pixel_format compression width height pixel_offset
               ++ data)))
      pixel_format compression width height pixel_offset
    ++ data.
Proof. reflexivity. Qed.

(** [compress] and [decompress] on files with the checksum in place. *)
Lemma stage5_compress_aif_file pixel_format compression width height
    pixel_offset pixels :
  pixel_format = AIF_FMT_RGB8 \/ pixel_format = AIF_FMT_GRAY8 ->
  compression = AIF_COMPRESSION_NONE \/ compression = AIF_COMPRESSION_RLE ->
  1 <= width <= UINT32_MAX -> 1 <= height <= UINT32_MAX ->
  bytes pixels ->
  len pixels = width * bytes_per_pixel pixel_format * height ->
  len pixels <= SIZE_MAX ->
  (compression = AIF_COMPRESSION_RLE ->
   forall r, 0 <= r < height ->
     compress_row_len
       (row_view pixels (width * bytes_per_pixel pixel_format) r) width
       (bytes_per_pixel pixel_format)
     <= UINT16_MAX) ->
  AIF_HEADER_SIZE
  + len (compressed_stream pixels width (bytes_per_pixel pixel_format) 0
           height)
  <= INT_MAX ->
  forall target,
  target
  = aif_file pixel_format AIF_COMPRESSION_RLE width height pixel_offset
      (compressed_stream pixels width (bytes_per_pixel pixel_format) 0 height)
  ->
  stage5_compress
    (Some (aif_file pixel_format compression width height pixel_offset
             (image_data compression pixels width height
                (bytes_per_pixel pixel_format))))
  = Done target.
Proof.
  intros Hformat Hcompression Hwidth Hheight Hbytes Hpixels Hmax Hshort Hint
    target ->.
  rewrite (aif_file_split pixel_format compression) at 1.
  set (c := checksum_spec _ _). clearbody c.
  pose proof (stage5_compress_image c pixel_format width height pixel_offset
                pixels Hformat Hwidth Hheight Hpixels Hmax Hbytes compression
                [] Hcompression Hshort Hint) as Hrun.
  rewrite app_nil_r in Hrun. exact Hrun.
Qed.

Lemma stage4_decompress_aif_file pixel_format compression width height
    pixel_offset pixels :
  pixel_format = AIF_FMT_RGB8 \/ pixel_format = AIF_FMT_GRAY8 ->
  1 <= width <= UINT32_MAX -> 1 <= height <= UINT32_MAX ->
  bytes pixels ->
  len pixels = width * bytes_per_pixel pixel_format * height ->
  AIF_HEADER_SIZE + len pixels <= INT_MAX ->
  (forall r, 0 <= r < height ->
     compress_row_len
       (row_view pixels (width * bytes_per_pixel pixel_format) r) width
       (bytes_per_pixel pixel_format)
     <= UINT16_MAX) ->
  forall target,
  target
  = aif_file pixel_format AIF_COMPRESSION_NONE width height pixel_offset
      pixels ->
  stage4_decompress
    (Some (aif_file pixel_format compression width height pixel_offset
             (compressed_stream pixels width (bytes_per_pixel pixel_format) 0
                height)))
  = Done target.
Proof.
  intros Hformat Hwidth Hheight Hbytes Hpixels Hint Hshort target ->.
  change AIF_HEADER_SIZE with 20 in Hint.
  rewrite (aif_file_split pixel_format compression) at 1.
  set (c := checksum_spec _ _). clearbody c.
  pose proof (stage4_decompress_image c pixel_format width height pixel_offset
                pixels Hformat Hwidth Hheight Hpixels ltac:(lia) Hbytes
                compression [] Hshort ltac:(change AIF_HEADER_SIZE with 20; lia))
    as Hrun.
  rewrite app_nil_r in Hrun. exact Hrun.
Qed.









(** ** [brighten] and [convert-color] on well-formed files *)

Lemma map_rgb_colours_props f k : forall l,
  (length l <= k)%nat ->
  bytes (map_rgb_colours f l)
  /\ forall n, len l = 3 * n -> len (map_rgb_colours f l) = 3 * n.
Proof.
  induction k as [|k IH]; intros l Hk.
  - destruct l; [|simpl in Hk; lia]. split; [constructor|].
    intros n Hn. cbn [map_rgb_colours]. done.
  - destruct l as [|r [|g [|b l]]]; cbn [map_rgb_colours].
    + split; [constructor|done].
    + split; [constructor|]. intros n Hn.
      rewrite ?len_cons, ?len_nil in *. lia.
    + split; [constructor|]. intros n Hn.
      rewrite ?len_cons, ?len_nil in *. lia.
    + destruct (IH l) as [IH1 IH2]; [simpl in Hk; lia|]. split.
      * repeat (apply Forall_cons; split;
                [unfold is_byte; apply Z.mod_pos_bound; lia|]).
        done.
      * intros n Hn. rewrite !len_cons in *.
        rewrite (IH2 (n - 1)); lia.
Qed.

Lemma brighten_pixels_props brighten_rgb pixel_format amount pixels n :
  pixel_format = AIF_FMT_RGB8 \/ pixel_format = AIF_FMT_GRAY8 ->
  len pixels = n * bytes_per_pixel pixel_format ->
  bytes (brighten_pixels brighten_rgb pixel_format amount pixels)
  /\ len (brighten_pixels brighten_rgb pixel_format amount pixels)
     = len pixels.
Proof.
  intros [-> | ->] Hlen; unfold brighten_pixels.
  - change (AIF_FMT_RGB8 =? AIF_FMT_GRAY8) with false. cbv iota.
    change (bytes_per_pixel AIF_FMT_RGB8) with 3 in Hlen.
    destruct (map_rgb_colours_props (fun c => brighten_rgb c amount)
                (length pixels) pixels) as [Hb Hl]; [done|].
    split; [done|]. pose proof (Hl n) as Hn. clear Hl Hb.
    rewrite Hn; clear -Hlen; lia.
  - change (AIF_FMT_GRAY8 =? AIF_FMT_GRAY8) with true. cbv iota.
    split.
    + apply Forall_fmap, Forall_forall. intros b _.
      unfold compose, is_byte, brighten_gray.
      generalize (b + Z.quot (b * amount) 100). intros x. lia.
    + unfold len. by rewrite length_fmap.
Qed.

(** The end of [stage2_brighten] and of [stage3_convert_color]: the header,
    then the pixels, as they are or compressed, then the checksum. *)
Lemma write_image_file checksum pixel_format compression0 compression width
    height pixel_offset bpp out_pixels :
  pixel_format = AIF_FMT_RGB8 \/ pixel_format = AIF_FMT_GRAY8 ->
  bpp = bytes_per_pixel pixel_format ->
  compression = AIF_COMPRESSION_NONE \/ compression = AIF_COMPRESSION_RLE ->
  1 <= width <= UINT32_MAX -> 1 <= height <= UINT32_MAX ->
  bytes out_pixels -> len out_pixels = width * bpp * height ->
  len out_pixels <= SIZE_MAX ->
  AIF_HEADER_SIZE + len (image_data compression out_pixels width height bpp)
  <= INT_MAX ->
  (defined
     (store
        (aif_header checksum pixel_format compression0 width height
           pixel_offset)
        AIF_COMPRESSION_OFFSET compression)
   ≫= λ header : list Z,
        defined (fwrite header AIF_HEADER_SIZE [])
        ≫= λ out : list Z,
             (if compression =? AIF_COMPRESSION_NONE
              then
               defined (fwrite out_pixels (len out_pixels) out)
               ≫= λ out : list Z, Done (out, len out_pixels)
              else
               defined
                 (aif_write_compressed_rows out out_pixels width height bpp))
             ≫= λ '(out, data_bytes), patch_checksum header out data_bytes)
  = Done (aif_file pixel_format compression width height pixel_offset
            (image_data compression out_pixels width height bpp)).
Proof.
  intros Hformat -> Hcompression Hwidth Hheight Hbytes Hpixels Hmax Hint.
  pose proof (bytes_per_pixel_range pixel_format) as Hbpp.
  pose proof (format_byte pixel_format width height out_pixels Hformat
                Hpixels) as Hfb.
  change (store
            (aif_header checksum pixel_format compression0 width height
               pixel_offset)
            AIF_COMPRESSION_OFFSET compression)
    with (Some (aif_header checksum pixel_format compression width height
                  pixel_offset)).
  cbn [defined]. rewrite outcome_bind_Done'.
  set (header := aif_header checksum pixel_format compression width height
                   pixel_offset).
  change (fwrite header AIF_HEADER_SIZE []) with (Some header).
  cbn [defined]. rewrite outcome_bind_Done'.
  unfold image_data in *.
  destruct Hcompression as [-> | ->].
  - change (AIF_COMPRESSION_NONE =? AIF_COMPRESSION_NONE) with true in *.
    cbv iota in *.
    rewrite fwrite_spec by (pose proof (len_nonneg out_pixels); lia).
    rewrite take_ge by (unfold len; lia).
    cbn [defined]. rewrite !outcome_bind_Done'.
    apply patch_checksum_file; try done.
  - change (AIF_COMPRESSION_RLE =? AIF_COMPRESSION_NONE) with false in *.
    cbv iota in *.
    rewrite (aif_write_compressed_rows_spec out_pixels width height
               (bytes_per_pixel pixel_format) Hbpp ltac:(lia) ltac:(lia)
               Hpixels Hmax).
    cbn [defined]. rewrite outcome_bind_Done'.
    rewrite (stream_size_max pixel_format) by done.
    apply patch_checksum_file; try done.
    apply bytes_compressed_stream; try done; lia.
Qed.

Lemma stage2_brighten_image brighten_rgb amount checksum pixel_format
    compression width height pixel_offset pixels extra :
  -100 <= amount <= 100 ->
  pixel_format = AIF_FMT_RGB8 \/ pixel_format = AIF_FMT_GRAY8 ->
  compression = AIF_COMPRESSION_NONE \/ compression = AIF_COMPRESSION_RLE ->
  1 <= width <= UINT32_MAX -> 1 <= height <= UINT32_MAX ->
  bytes pixels ->
  len pixels = width * bytes_per_pixel pixel_format * height ->
  len pixels <= SIZE_MAX ->
  (compression = AIF_COMPRESSION_RLE ->
   forall r, 0 <= r < height ->
     compress_row_len
       (row_view pixels (width * bytes_per_pixel pixel_format) r) width
       (bytes_per_pixel pixel_format)
     <= UINT16_MAX) ->
  AIF_HEADER_SIZE
  + len (image_data compression
           (brighten_pixels brighten_rgb pixel_format amount pixels) width
           height (bytes_per_pixel pixel_format))
  <= INT_MAX ->
  stage2_brighten brighten_rgb amount
    (Some (aif_header checksum pixel_format compression width height
             pixel_offset
           ++ image_data compression pixels width height
                (bytes_per_pixel pixel_format)
           ++ extra))
  = Done (aif_file pixel_format compression width height pixel_offset
            (image_data compression
               (brighten_pixels brighten_rgb pixel_format amount pixels)
               width height (bytes_per_pixel pixel_format))).
Proof.
  intros Hamount Hformat Hcompression Hwidth Hheight Hbytes Hpixels Hmax
    Hshort Hint.
  pose proof (bytes_per_pixel_range pixel_format) as Hbpp.
  set (header := aif_header checksum pixel_format compression width height
                   pixel_offset).
  set (data := image_data compression pixels width height
                 (bytes_per_pixel pixel_format) ++ extra).
  destruct (aif_header_fields checksum pixel_format compression width height
              pixel_offset data ltac:(lia) ltac:(lia))
    as (Hh & Hpf & Hco & Hw & Hh' & Hmagic).
  fold header in Hh, Hpf, Hco, Hw, Hh', Hmagic.
  unfold stage2_brighten.
  rewrite aif_open_and_read_header_spec
    by (rewrite len_app; change (len header) with AIF_HEADER_SIZE;
        pose proof (len_nonneg data); lia).
  cbn [mbind outcome_bind].
  rewrite Hpf, Hco, Hw, Hh', Hmagic. cbn [defined mbind outcome_bind negb].
  rewrite (format_valid pixel_format width height pixels Hformat Hpixels).
  rewrite dims_valid by done. cbn [negb].
  rewrite compression_valid by done.
  rewrite Hh. fold (bytes_per_pixel pixel_format).
  rewrite (pixel_bytes_size pixel_format width height pixels) by done.
  change (mkFILE (header ++ data) AIF_HEADER_SIZE)
    with (mkFILE (header ++ data) (len header)).
  unfold data.
  rewrite load_pixels_image by done. rewrite outcome_bind_Done'.
  destruct (brighten_pixels_props brighten_rgb pixel_format amount pixels
              (width * height) Hformat ltac:(lia)) as [Hbytes' Hlen'].
  assert ((if pixel_format =? AIF_FMT_GRAY8
           then
            defined
              (brighten_gray_loop (S (Z.to_nat (len pixels))) amount pixels
                 (len pixels) 0)
           else
            if pixel_format =? AIF_FMT_RGB8
            then
             defined
               (brighten_rgb_loop brighten_rgb (S (Z.to_nat (len pixels)))
                  amount pixels (len pixels) 0)
            else Done pixels)
          = Done (brighten_pixels brighten_rgb pixel_format amount pixels))
    as ->.
  { pose proof (len_nonneg pixels) as Hnn. unfold brighten_pixels.
    destruct Hformat as [-> | ->].
    - change (AIF_FMT_RGB8 =? AIF_FMT_GRAY8) with false.
      change (AIF_FMT_RGB8 =? AIF_FMT_RGB8) with true. cbv iota.
      change (bytes_per_pixel AIF_FMT_RGB8) with 3 in Hpixels.
      assert (len pixels = 3 * (width * height)) as Hn by lia.
      rewrite Hn. change 0 with (3 * 0) at 1.
      rewrite (brighten_rgb_loop_spec brighten_rgb _ amount (width * height)
                 pixels pixels); try done; try lia.
      by apply bytes_range.
    - change (AIF_FMT_GRAY8 =? AIF_FMT_GRAY8) with true. cbv iota.
      rewrite brighten_gray_loop_spec; try lia.
      + change (Z.to_nat 0) with 0%nat.
        rewrite take_0, app_nil_l, Z.sub_0_r, slice_all by done.
        by rewrite drop_ge, app_nil_r by (unfold len; lia).
      + change (Z.to_nat 0) with 0%nat. rewrite drop_0.
        by apply bytes_range. }
  rewrite outcome_bind_Done'. rewrite <- Hlen'.
  apply (write_image_file checksum pixel_format compression compression width
           height pixel_offset (bytes_per_pixel pixel_format)); try done.
  - lia.
  - lia.
Qed.

Lemma convert_pixels_props pixel_format target pixels n :
  pixel_format = AIF_FMT_RGB8 \/ pixel_format = AIF_FMT_GRAY8 ->
  target = AIF_FMT_RGB8 \/ target = AIF_FMT_GRAY8 ->
  bytes pixels -> len pixels = n * bytes_per_pixel pixel_format ->
  bytes (convert_pixels pixel_format target pixels)
  /\ len (convert_pixels pixel_format target pixels)
     = n * bytes_per_pixel target.
Proof.
  intros [-> | ->] [-> | ->] Hbytes Hlen; unfold convert_pixels;
    cbn [Z.eqb Pos.eqb AIF_FMT_RGB8 AIF_FMT_GRAY8 andb];
    change (bytes_per_pixel AIF_FMT_RGB8) with 3 in *;
    change (bytes_per_pixel AIF_FMT_GRAY8) with 1 in *.
  - done.
  - split; [by apply rgb_to_gray_pixels_bytes|].
    rewrite (rgb_to_gray_pixels_len pixels n); lia.
  - split; [by apply gray_to_rgb_pixels_bytes|].
    rewrite gray_to_rgb_pixels_len. lia.
  - done.
Qed.

Lemma stage3_convert_color_image color checksum pixel_format compression
    width height pixel_offset pixels extra :
  pixel_format = AIF_FMT_RGB8 \/ pixel_format = AIF_FMT_GRAY8 ->
  compression = AIF_COMPRESSION_NONE \/ compression = AIF_COMPRESSION_RLE ->
  1 <= width <= UINT32_MAX -> 1 <= height <= UINT32_MAX ->
  bytes pixels ->
  len pixels = width * bytes_per_pixel pixel_format * height ->
  width * 3 * height <= SIZE_MAX ->
  (compression = AIF_COMPRESSION_RLE ->
   forall r, 0 <= r < height ->
     compress_row_len
       (row_view pixels (width * bytes_per_pixel pixel_format) r) width
       (bytes_per_pixel pixel_format)
     <= UINT16_MAX) ->
  AIF_HEADER_SIZE
  + len (image_data compression
           (convert_pixels pixel_format (target_format color) pixels) width
           height (bytes_per_pixel (target_format color)))
  <= INT_MAX ->
  stage3_convert_color color
    (Some (aif_header checksum pixel_format compression width height
             pixel_offset
           ++ image_data compression pixels width height
                (bytes_per_pixel pixel_format)
           ++ extra))
  = Done (aif_file (target_format color) compression width height
            pixel_offset
            (image_data compression
               (convert_pixels pixel_format (target_format color) pixels)
               width height (bytes_per_pixel (target_format color)))).
Proof.
  intros Hformat Hcompression Hwidth Hheight Hbytes Hpixels Hmax3 Hshort Hint.
  pose proof (bytes_per_pixel_range pixel_format) as Hbpp.
  assert (len pixels <= SIZE_MAX) as Hmax.
  { rewrite Hpixels.
    assert (width * bytes_per_pixel pixel_format <= width * 3)
      by (apply Z.mul_le_mono_nonneg_l; lia).
    assert (width * bytes_per_pixel pixel_format * height
            <= width * 3 * height)
      by (apply Z.mul_le_mono_nonneg_r; lia).
    lia. }
  set (header := aif_header checksum pixel_format compression width height
                   pixel_offset).
  set (data := image_data compression pixels width height
                 (bytes_per_pixel pixel_format) ++ extra).
  destruct (aif_header_fields checksum pixel_format compression width height
              pixel_offset data ltac:(lia) ltac:(lia))
    as (Hh & Hpf & Hco & Hw & Hh' & Hmagic).
  fold header in Hh, Hpf, Hco, Hw, Hh', Hmagic.
  unfold stage3_convert_color.
  rewrite aif_open_and_read_header_spec
    by (rewrite len_app; change (len header) with AIF_HEADER_SIZE;
        pose proof (len_nonneg data); lia).
  cbn [mbind outcome_bind].
  rewrite Hpf, Hco, Hw, Hh', Hmagic. cbn [defined mbind outcome_bind negb].
  rewrite (format_valid pixel_format width height pixels Hformat Hpixels).
  cbn [negb].
  rewrite compression_valid by done.
  rewrite dims_valid by done.
  rewrite Hh. fold (bytes_per_pixel pixel_format). fold (target_format color).
  rewrite (pixel_bytes_size pixel_format width height pixels) by done.
  change (mkFILE (header ++ data) AIF_HEADER_SIZE)
    with (mkFILE (header ++ data) (len header)).
  unfold data.
  rewrite load_pixels_image by done. rewrite outcome_bind_Done'.
  assert (target_format color = AIF_FMT_RGB8
          \/ target_format color = AIF_FMT_GRAY8) as Htarget.
  { unfold target_format. destruct (String.eqb color "gray8"); auto. }
  destruct (convert_pixels_props pixel_format (target_format color) pixels
              (width * height) Hformat Htarget Hbytes ltac:(lia))
    as [Hcb Hcl].
  set (target := target_format color) in *. clearbody target.
  assert (0 <= width * height) as Hwh by (apply Z.mul_nonneg_nonneg; lia).
  assert (width * 3 * height = 3 * (width * height)) as Hwh3 by ring.
  pose proof (len_nonneg pixels) as Hnn.
  destruct Hformat as [-> | ->], Htarget as [-> | ->];
    change (bytes_per_pixel AIF_FMT_RGB8) with 3 in *;
    change (bytes_per_pixel AIF_FMT_GRAY8) with 1 in *;
    cbn [Z.eqb Pos.eqb AIF_FMT_RGB8 AIF_FMT_GRAY8 andb];
    unfold convert_pixels in *;
    cbn [Z.eqb Pos.eqb AIF_FMT_RGB8 AIF_FMT_GRAY8 andb] in Hcb, Hcl, Hint |- *.
  - (* RGB8 to RGB8 *)
    cbn [mbind outcome_bind].
    change (store header AIF_PXL_FMT_OFFSET AIF_FMT_RGB8) with (Some header).
    cbn [defined]. rewrite outcome_bind_Done'.
    pose proof (pixel_bytes_size AIF_FMT_RGB8 width height pixels Hwidth
                  Hheight Hpixels Hmax) as Hsize.
    change (bytes_per_pixel AIF_FMT_RGB8) with 3 in Hsize. rewrite Hsize.
    apply (write_image_file checksum AIF_FMT_RGB8 compression compression
             width height pixel_offset 3); try done. by left.
  - (* RGB8 to GRAY8 *)
    rewrite (usize_small (width * height)) by lia.
    change 0 with (3 * 0) at 1.
    rewrite (rgb_to_gray_loop_spec _ pixels (width * height) [] pixels);
      try done; try lia;
      [|by apply bytes_range|apply len_malloc; lia].
    change (Z.to_nat 0) with 0%nat. rewrite take_0, app_nil_l.
    change (store header AIF_PXL_FMT_OFFSET AIF_FMT_GRAY8)
      with (Some (aif_header checksum AIF_FMT_GRAY8 compression width height
                    pixel_offset)).
    cbn [defined mbind outcome_bind].
    replace (usize (usize (1 * width) * height))
      with (len (rgb_to_gray_pixels pixels))
      by (rewrite Hcl, Z.mul_1_l, Z.mul_1_r, (usize_small width) by lia;
          by rewrite usize_small by lia).
    apply (write_image_file checksum AIF_FMT_GRAY8 compression compression
             width height pixel_offset 1); try done; try lia.
  - (* GRAY8 to RGB8 *)
    assert (len pixels = width * height) as Hlen by lia.
    replace (usize (usize (3 * width) * height)) with (3 * len pixels)
      by (rewrite Hlen, (usize_small (3 * width)) by lia;
          rewrite usize_small by lia; ring).
    change 0 with (3 * 0) at 2.
    rewrite (gray_to_rgb_loop_spec _ pixels (len pixels) [] pixels);
      try done; try lia; [|apply len_malloc; lia].
    change (Z.to_nat (3 * 0)) with 0%nat. rewrite take_0, app_nil_l.
    change (store header AIF_PXL_FMT_OFFSET AIF_FMT_RGB8)
      with (Some (aif_header checksum AIF_FMT_RGB8 compression width height
                    pixel_offset)).
    cbn [defined mbind outcome_bind].
    replace (usize (usize (3 * width) * height))
      with (len (gray_to_rgb_pixels pixels))
      by (rewrite Hcl, (usize_small (3 * width)) by lia;
          rewrite usize_small by lia; ring).
    apply (write_image_file checksum AIF_FMT_RGB8 compression compression
             width height pixel_offset 3); try done; try lia.
  - (* GRAY8 to GRAY8 *)
    cbn [mbind outcome_bind].
    change (store header AIF_PXL_FMT_OFFSET AIF_FMT_GRAY8) with (Some header).
    cbn [defined]. rewrite outcome_bind_Done'.
    pose proof (pixel_bytes_size AIF_FMT_GRAY8 width height pixels Hwidth
                  Hheight Hpixels Hmax) as Hsize.
    change (bytes_per_pixel AIF_FMT_GRAY8) with 1 in Hsize. rewrite Hsize.
    apply (write_image_file checksum AIF_FMT_GRAY8 compression compression
             width height pixel_offset 1); try done. by right.
Qed.

Lemma stage2_brighten_aif_file brighten_rgb amount pixel_format compression
    width height pixel_offset pixels :
  -100 <= amount <= 100 ->
  pixel_format = AIF_FMT_RGB8 \/ pixel_format = AIF_FMT_GRAY8 ->
  compression = AIF_COMPRESSION_NONE \/ compression = AIF_COMPRESSION_RLE ->
  1 <= width <= UINT32_MAX -> 1 <= height <= UINT32_MAX ->
  bytes pixels ->
  len pixels = width * bytes_per_pixel pixel_format * height ->
  len pixels <= SIZE_MAX ->
  (compression = AIF_COMPRESSION_RLE ->
   forall r, 0 <= r < height ->
     compress_row_len
       (row_view pixels (width * bytes_per_pixel pixel_format) r) width
       (bytes_per_pixel pixel_format)
     <= UINT16_MAX) ->
  AIF_HEADER_SIZE
  + len (image_data compression
           (brighten_pixels brighten_rgb pixel_format amount pixels) width
           height (bytes_per_pixel pixel_format))
  <= INT_MAX ->
  forall target,
  target
  = aif_file pixel_format compression width height pixel_offset
      (image_data compression
         (brighten_pixels brighten_rgb pixel_format amount pixels) width
         height (bytes_per_pixel pixel_format)) ->
  stage2_brighten brighten_rgb amount
    (Some (aif_file pixel_format compression width height pixel_offset
             (image_data compression pixels width height
                (bytes_per_pixel pixel_format))))
  = Done target.
Proof.
  intros Hamount Hformat Hcompression Hwidth Hheight Hbytes Hpixels Hmax
    Hshort Hint target ->.
  rewrite (aif_file_split pixel_format compression width height pixel_offset
             (image_data compression pixels width height
                (bytes_per_pixel pixel_format))).
  set (c := checksum_spec _ _). clearbody c.
  pose proof (stage2_brighten_image brighten_rgb amount c pixel_format
                compression width height pixel_offset pixels [] Hamount
                Hformat Hcompression Hwidth Hheight Hbytes Hpixels Hmax Hshort
                Hint) as Hrun.
  rewrite app_nil_r in Hrun. exact Hrun.
Qed.

Lemma stage3_convert_color_aif_file color pixel_format compression width
    height pixel_offset pixels :
  pixel_format = AIF_FMT_RGB8 \/ pixel_format = AIF_FMT_GRAY8 ->
  compression = AIF_COMPRESSION_NONE \/ compression = AIF_COMPRESSION_RLE ->
  1 <= width <= UINT32_MAX -> 1 <= height <= UINT32_MAX ->
  bytes pixels ->
  len pixels = width * bytes_per_pixel pixel_format * height ->
  width * 3 * height <= SIZE_MAX ->
  (compression = AIF_COMPRESSION_RLE ->
   forall r, 0 <= r < height ->
     compress_row_len
       (row_view pixels (width * bytes_per_pixel pixel_format) r) width
       (bytes_per_pixel pixel_format)
     <= UINT16_MAX) ->
  AIF_HEADER_SIZE
  + len (image_data compression
           (convert_pixels pixel_format (target_format color) pixels) width
           height (bytes_per_pixel (target_format color)))
  <= INT_MAX ->
  forall target,
  target
  = aif_file (target_format color) compression width height pixel_offset
      (image_data compression
         (convert_pixels pixel_format (target_format color) pixels) width
         height (bytes_per_pixel (target_format color))) ->
  stage3_convert_color color
    (Some (aif_file pixel_format compression width height pixel_offset
             (image_data compression pixels width height
                (bytes_per_pixel pixel_format))))
  = Done target.
Proof.
  intros Hformat Hcompression Hwidth Hheight Hbytes Hpixels Hmax Hshort Hint
    target ->.
  rewrite (aif_file_split pixel_format compression width height pixel_offset
             (image_data compression pixels width height
                (bytes_per_pixel pixel_format))).
  set (c := checksum_spec _ _). clearbody c.
  pose proof (stage3_convert_color_image color c pixel_format compression
                width height pixel_offset pixels [] Hformat Hcompression
                Hwidth Hheight Hbytes Hpixels Hmax Hshort Hint) as Hrun.
  rewrite app_nil_r in Hrun. exact Hrun.
Qed.





Lemma brighten_gray_zero l :
  bytes l -> brighten_gray 0 <$> l = l.
Proof.
  induction 1 as [|b l Hb Hl IH]; [done|].
  cbn [fmap list_fmap]. change (list_fmap _ _ ?f l) with (f <$> l).
  rewrite IH. f_equal. unfold brighten_gray, is_byte in *.
  rewrite Z.mul_0_r. change (Z.quot 0 100) with 0. lia.
Qed.









(** [convert-color] does not check the colour name: every name other than
    gray8 behaves as rgb8, on every input. *)
Theorem stage3_convert_color_other_names color in_file :
  color <> "gray8"%string ->
  stage3_convert_color color in_file = stage3_convert_color "rgb8" in_file.
Proof.
  intros Hcolor. unfold stage3_convert_color.
  apply String.eqb_neq in Hcolor. rewrite Hcolor. reflexivity.
Qed.

Lemma stage3_convert_color_other_names_witness :
  stage3_convert_color "grey8"
    (Some (aif_file AIF_FMT_GRAY8 AIF_COMPRESSION_NONE 1 1 20 [5]))
  = stage3_convert_color "rgb8"
      (Some (aif_file AIF_FMT_GRAY8 AIF_COMPRESSION_NONE 1 1 20 [5])).
Proof.
  apply (stage3_convert_color_other_names "grey8"). discriminate.
Defined.

(** ** Files that the operations refuse *)

Lemma aif_open_and_read_header_short content :
  len content < AIF_HEADER_SIZE ->
  aif_open_and_read_header (Some content) = Exit UnexpectedEOF.
Proof.
  intros Hlen. unfold aif_open_and_read_header, fread. cbn [f_pos f_bytes].
  change (Z.to_nat 0) with 0%nat. rewrite drop_0.
  assert (len (take (Z.to_nat AIF_HEADER_SIZE) content) < AIF_HEADER_SIZE)
    as Hshort.
  { unfold len in *. rewrite length_take.
    change AIF_HEADER_SIZE with 20 in *. lia. }
  by rewrite (ltb_true _ _ Hshort).
Qed.

Lemma load_pixels_short (pre data : list Z) width height bpp pixel_bytes :
  len data < pixel_bytes ->
  load_pixels (mkFILE (pre ++ data) (len pre)) AIF_COMPRESSION_NONE width
    height bpp pixel_bytes
  = Exit UnexpectedEOF.
Proof.
  intros Hlen. unfold load_pixels, fread. cbn [f_pos f_bytes].
  change (AIF_COMPRESSION_NONE =? AIF_COMPRESSION_NONE) with true. cbv iota.
  replace (drop (Z.to_nat (len pre)) (pre ++ data)) with data
    by (unfold len; by rewrite Nat2Z.id, drop_app_length).
  assert (len (take (Z.to_nat pixel_bytes) data) < pixel_bytes) as Hshort.
  { unfold len in *. rewrite length_take. lia. }
  by rewrite (ltb_true _ _ Hshort).
Qed.

(** A file with 20 bytes or more that violates the header rules makes
    [brighten], [convert-color] and [compress] exit with the message of an
    invalid file, whatever follows the header; [decompress] does so for a
    wrong magic, pixel format or dimension. *)
Theorem operations_reject_invalid_header brighten_rgb amount color content
    v :
  AIF_HEADER_SIZE <= len content -> violates content v ->
  stage2_brighten brighten_rgb amount (Some content) = Exit NotValidAIF
  /\ stage3_convert_color color (Some content) = Exit NotValidAIF
  /\ stage5_compress (Some content) = Exit NotValidAIF
  /\ (v <> InvalidCompression ->
      stage4_decompress (Some content) = Exit NotValidAIF).
Proof.
  intros Hlen Hv. split_and!.
  - unfold stage2_brighten. reject_header content Hlen v Hv.
  - unfold stage3_convert_color. reject_header content Hlen v Hv.
  - unfold stage5_compress. reject_header content Hlen v Hv.
  - intros Hne. unfold stage4_decompress. reject_header content Hlen v Hv.
Qed.

Lemma operations_reject_invalid_header_witness :
  let content :=
    [65; 73; 70; 0; 0; 0; 2; 0; 0; 0; 0; 0; 1; 0; 0; 0; 20; 0; 0; 0; 9] in
  stage2_brighten (fun c _ => c) 10 (Some content) = Exit NotValidAIF
  /\ stage3_convert_color "rgb8" (Some content) = Exit NotValidAIF
  /\ stage5_compress (Some content) = Exit NotValidAIF
  /\ (InvalidDimensions <> InvalidCompression ->
      stage4_decompress (Some content) = Exit NotValidAIF).
Proof.
  apply (operations_reject_invalid_header (fun c _ => c) 10 "rgb8"
           [65; 73; 70; 0; 0; 0; 2; 0; 0; 0; 0; 0; 1; 0; 0; 0; 20; 0; 0; 0; 9]
           InvalidDimensions).
  - vm_compute. congruence.
  - left. reflexivity.
Defined.

(** A file shorter than the 20 bytes of a header makes every operation exit
    with the message of an unexpected end of file. *)
Theorem operations_reject_short_file brighten_rgb amount color content :
  len content < AIF_HEADER_SIZE ->
  stage2_brighten brighten_rgb amount (Some content) = Exit UnexpectedEOF
  /\ stage3_convert_color color (Some content) = Exit UnexpectedEOF
  /\ stage4_decompress (Some content) = Exit UnexpectedEOF
  /\ stage5_compress (Some content) = Exit UnexpectedEOF.
Proof.
  intros Hlen.
  unfold stage2_brighten, stage3_convert_color, stage4_decompress,
    stage5_compress.
  rewrite (aif_open_and_read_header_short content Hlen). done.
Qed.

Lemma operations_reject_short_file_witness :
  stage2_brighten (fun c _ => c) 10 (Some [65; 73; 70; 0]) = Exit UnexpectedEOF
  /\ stage3_convert_color "gray8" (Some [65; 73; 70; 0]) = Exit UnexpectedEOF
  /\ stage4_decompress (Some [65; 73; 70; 0]) = Exit UnexpectedEOF
  /\ stage5_compress (Some [65; 73; 70; 0]) = Exit UnexpectedEOF.
Proof.
  apply (operations_reject_short_file (fun c _ => c) 10 "gray8"
           [65; 73; 70; 0]).
  vm_compute. reflexivity.
Defined.


